(** * Vision-grounded desktop automation: coordinate codec, grounding engine
      and Notepad window lifecycle

    A shallow embedding of [src/grounding.py], [src/notepad.py] and the item
    loop of [main.py], of the window helpers of [src/automation.py], of the
    naming of annotated screenshots in [src/screenshot.py] and of the texts
    of [src/api.py], followed by the properties of the specification that
    were checked against it and by further properties of the code.

    Conventions.
    - Python [str] values are modelled as lists of characters whose code
      points lie in 0..255 (the Latin-1 block of Unicode); the character
      classes below are Python's on that block.
    - Python [int] is [Z]; a Python [float] is a binary64 value, modelled
      exactly as a dyadic rational [m * 2^e] (or an infinity / NaN).
    - Calls into the operating system, the GUI and the model are operations
      answered by a [World]; the program is written in a state-and-exception
      monad that records every operation in a trace. *)

From Stdlib Require Import ZArith List Ascii String Bool Lia QArith DecimalString.
From Stdlib Require DecimalZ DecimalPos.
From Stdlib Require Import Lqa.
Import ListNotations.
Local Open Scope Z_scope.

Set Implicit Arguments.
Set Warnings "-register-all".

(* ================================================================== *)
(** * Text *)
(* ================================================================== *)

Definition text := list ascii.

(** String literals of the source, as texts. *)
Definition txt (s : string) : text := list_ascii_of_string s.

Definition code (c : ascii) : N := N_of_ascii c.

(** [\d] of [re] and the digits accepted by [float], on code points < 256. *)
Definition is_digit (c : ascii) : bool :=
  (48 <=? code c)%N && (code c <=? 57)%N.

(** [str.isspace], which is also [\s] of [re] and what [str.strip] removes. *)
Definition is_space (c : ascii) : bool :=
  match code c with
  | 9 | 10 | 11 | 12 | 13 | 28 | 29 | 30 | 31 | 32 | 133 | 160 => true
  | _ => false
  end%N.

Definition backtick : ascii := "`"%char.

Fixpoint lstrip (s : text) : text :=
  match s with
  | c :: s' => if is_space c then lstrip s' else s
  | [] => []
  end.

Definition rstrip (s : text) : text := rev (lstrip (rev s)).

(** [str.strip()] *)
Definition strip (s : text) : text := rstrip (lstrip s).

(** [str.replace("```", "")]: occurrences are found left to right and do not
    overlap. *)
Fixpoint remove_fences (s : text) : text :=
  match s with
  | c1 :: s1 =>
      match s1 with
      | c2 :: c3 :: s3 =>
          if Ascii.eqb c1 backtick && Ascii.eqb c2 backtick && Ascii.eqb c3 backtick
          then remove_fences s3
          else c1 :: remove_fences s1
      | _ => c1 :: remove_fences s1
      end
  | [] => []
  end.

(** [str.lower()] on code points < 256. *)
Definition lower_char (c : ascii) : ascii :=
  let n := code c in
  if ((65 <=? n) && (n <=? 90) ||
      (192 <=? n) && (n <=? 222) && negb (n =? 215))%N
  then ascii_of_N (n + 32) else c.

Definition lower (s : text) : text := map lower_char s.

Fixpoint starts_with (p s : text) : bool :=
  match p, s with
  | [], _ => true
  | a :: p', b :: s' => Ascii.eqb a b && starts_with p' s'
  | _ :: _, [] => false
  end.

(** [p in s] for strings. *)
Fixpoint contains (p s : text) : bool :=
  starts_with p s || match s with [] => false | _ :: s' => contains p s' end.

(** [str(n)] for an integer. *)
Definition str_of_Z (n : Z) : text :=
  txt (DecimalString.NilZero.string_of_int (Z.to_int n)).

(* ================================================================== *)
(** * Regular expressions: the fragment of [re] used by the codec *)
(* ================================================================== *)

Inductive charclass := Digit | Space.

Definition in_class (k : charclass) : ascii -> bool :=
  match k with Digit => is_digit | Space => is_space end.

Inductive regex :=
| Lit (c : ascii)                 (* an escaped or plain character      *)
| Star (k : charclass)            (* [\s*], greedy                      *)
| Plus (k : charclass)            (* [\d+], [\s+], greedy               *)
| Opt (r : regex)                 (* [(?:...)?], greedy                 *)
| Cat (r1 r2 : regex)             (* concatenation                      *)
| Group (i : nat) (r : regex).    (* capturing group number [i]         *)

(** Captured groups, most recent first. *)
Definition captures := list (nat * text).

Fixpoint group (m : captures) (i : nat) : option text :=
  match m with
  | [] => None
  | (j, s) :: m' => if Nat.eqb i j then Some s else group m' i
  end.

Section Backtracking.
Variable R : Type.

(** Greedy repetition of a character class: the longest run first, then
    shorter ones, until the continuation accepts. *)
Fixpoint star_loop (p : ascii -> bool) (s : text) (k : text -> option R)
  : option R :=
  match s with
  | c :: s' =>
      if p c
      then match star_loop p s' k with
           | Some r => Some r
           | None => k s
           end
      else k s
  | [] => k s
  end.

Definition plus_loop (p : ascii -> bool) (s : text) (k : text -> option R)
  : option R :=
  match s with
  | c :: s' => if p c then star_loop p s' k else None
  | [] => None
  end.
End Backtracking.

(** The backtracking matcher of [re], in continuation-passing style: [k]
    receives the rest of the text and the groups captured so far. *)
Fixpoint rmatch (r : regex) (s : text) (caps : captures)
         (k : text -> captures -> option captures) : option captures :=
  match r with
  | Lit c =>
      match s with
      | c' :: s' => if Ascii.eqb c c' then k s' caps else None
      | [] => None
      end
  | Star cl => star_loop (in_class cl) s (fun s' => k s' caps)
  | Plus cl => plus_loop (in_class cl) s (fun s' => k s' caps)
  | Opt r1 =>
      match rmatch r1 s caps k with
      | Some m => Some m
      | None => k s caps
      end
  | Cat r1 r2 => rmatch r1 s caps (fun s' caps' => rmatch r2 s' caps' k)
  | Group i r1 =>
      rmatch r1 s caps
        (fun s' caps' =>
           k s' ((i, firstn (List.length s - List.length s')%nat s) :: caps'))
  end.

Definition accept : text -> captures -> option captures :=
  fun _ caps => Some caps.

(** A match anchored at the start of [s] ([re.match]). *)
Definition match_here (r : regex) (s : text) : option captures :=
  rmatch r s [] accept.

(** [re.search]: the first start offset, left to right, at which the
    pattern matches. *)
Fixpoint re_search (r : regex) (s : text) : option captures :=
  match match_here r s with
  | Some m => Some m
  | None =>
      match s with
      | [] => None
      | _ :: s' => re_search r s'
      end
  end.

(** [\d+(?:\.\d+)?] *)
Definition number : regex :=
  Cat (Plus Digit) (Opt (Cat (Lit ".") (Plus Digit))).

(** [\(\s*(\d+(?:\.\d+)?)\s*,\s*(\d+(?:\.\d+)?)\s*\)] *)
Definition pat_paren : regex :=
  Cat (Lit "(") (Cat (Star Space) (Cat (Group 1 number) (Cat (Star Space)
  (Cat (Lit ",") (Cat (Star Space) (Cat (Group 2 number) (Cat (Star Space)
  (Lit ")")))))))).

(** [(\d+(?:\.\d+)?)\s*,\s*(\d+(?:\.\d+)?)] *)
Definition pat_comma : regex :=
  Cat (Group 1 number) (Cat (Star Space) (Cat (Lit ",") (Cat (Star Space)
  (Group 2 number)))).

(** [(\d+(?:\.\d+)?)\s+(\d+(?:\.\d+)?)] *)
Definition pat_space : regex :=
  Cat (Group 1 number) (Cat (Plus Space) (Group 2 number)).

Definition patterns : list regex := [pat_paren; pat_comma; pat_space].

(* ================================================================== *)
(** * Binary64 floats *)
(* ================================================================== *)

(** [Finite m e] is the double whose value is [m * 2^e]. *)
Inductive pyfloat :=
| Finite (m e : Z)
| Infinity (neg : bool)
| NaN.

(** Nearest integer to [a / b], ties to even ([0 <= a], [0 < b]). *)
Definition round_half_even (a b : Z) : Z :=
  let q := a / b in
  match (2 * (a mod b)) ?= b with
  | Lt => q
  | Gt => q + 1
  | Eq => if Z.even q then q else q + 1
  end.

(** [floor (log2 (p / q))] for positive [p], [q]. *)
Definition floor_log2_ratio (p q : Z) : Z :=
  let l := Z.log2 p - Z.log2 q in
  if 0 <=? l
  then (if q * 2 ^ l <=? p then l else l - 1)
  else (if q <=? p * 2 ^ (- l) then l else l - 1).

(** Round-to-nearest-even of the positive rational [p / q] to binary64:
    53 significant bits, least exponent -1074, overflow to infinity. *)
Definition round_pos (p q : Z) : pyfloat :=
  let E := floor_log2_ratio p q in
  let e := Z.max (E - 52) (-1074) in
  let m := if 0 <=? e
           then round_half_even p (q * 2 ^ e)
           else round_half_even (p * 2 ^ (- e)) q in
  if (0 <=? e) && (2 ^ 1024 <=? m * 2 ^ e) then Infinity false else Finite m e.

Definition fneg (f : pyfloat) : pyfloat :=
  match f with
  | Finite m e => Finite (- m) e
  | Infinity b => Infinity (negb b)
  | NaN => NaN
  end.

(** The double nearest to [p / q], for [0 < q]. *)
Definition round_ratio (p q : Z) : pyfloat :=
  match p with
  | Z0 => Finite 0 0
  | Zpos _ => round_pos p q
  | Zneg _ => fneg (round_pos (- p) q)
  end.

(** The double nearest to [m * 2^e]. *)
Definition round_dyadic (m e : Z) : pyfloat :=
  if 0 <=? e then round_ratio (m * 2 ^ e) 1 else round_ratio m (2 ^ (- e)).

Definition fsign (f : pyfloat) : bool :=
  match f with
  | Finite m _ => m <? 0
  | Infinity b => b
  | NaN => false
  end.

Definition fis_zero (f : pyfloat) : bool :=
  match f with Finite 0 _ => true | _ => false end.

(** IEEE multiplication. *)
Definition fmul (f g : pyfloat) : pyfloat :=
  match f, g with
  | Finite m1 e1, Finite m2 e2 => round_dyadic (m1 * m2) (e1 + e2)
  | NaN, _ | _, NaN => NaN
  | _, _ =>
      if fis_zero f || fis_zero g then NaN
      else Infinity (xorb (fsign f) (fsign g))
  end.

(* ================================================================== *)
(** * Exceptions *)
(* ================================================================== *)

(** The classes that the program raises or tells apart, all of them below
    [Exception]; [Derived] covers the classes of the libraries (for example
    pyautogui's fail-safe exception). *)
Inductive exn_class :=
| Exception_
| ValueError
| TypeError
| ArithmeticError
| OverflowError
| OSError
| TimeoutError
| RuntimeError
| Derived (name : string) (base : exn_class).

Definition class_base (c : exn_class) : option exn_class :=
  match c with
  | Exception_ => None
  | ValueError | TypeError | ArithmeticError | OSError | RuntimeError =>
      Some Exception_
  | OverflowError => Some ArithmeticError
  | TimeoutError => Some OSError
  | Derived _ b => Some b
  end.

Fixpoint class_eqb (a b : exn_class) : bool :=
  match a, b with
  | Exception_, Exception_ | ValueError, ValueError | TypeError, TypeError
  | ArithmeticError, ArithmeticError | OverflowError, OverflowError
  | OSError, OSError | TimeoutError, TimeoutError
  | RuntimeError, RuntimeError => true
  | Derived n a', Derived m b' => String.eqb n m && class_eqb a' b'
  | _, _ => false
  end.

(** [issubclass c target] *)
Fixpoint subclass_of (c target : exn_class) : bool :=
  class_eqb c target ||
  match c with
  | Derived _ b => subclass_of b target
  | OverflowError => class_eqb ArithmeticError target || class_eqb Exception_ target
  | TimeoutError => class_eqb OSError target || class_eqb Exception_ target
  | Exception_ => false
  | _ => class_eqb Exception_ target
  end.

(** Exception values, one constructor per [raise] of the program and one for
    whatever an external operation raises. *)
Inductive exn :=
| CannotParse (shown : text)
    (* ValueError("Cannot parse coordinates from model output: ...") *)
| GroundingFailed (retries : Z) (last_exc : option exn)
    (* RuntimeError("Grounding failed after ... attempts. ...") from last_exc *)
| FloatToInt (f : pyfloat)
    (* int(inf): OverflowError; int(nan): ValueError *)
| BadFloatLiteral (s : text)
    (* float(s) on a string that is no number: ValueError *)
| NoSuchGroup (i : nat)
    (* float(None): TypeError *)
| ResultTooLarge
    (* OverflowError: integer division result too large for a float *)
| IntTooLarge
    (* OverflowError: int too large to convert to float *)
| NegativeSleep
    (* ValueError: sleep length must be non-negative *)
| NoSuchFile (path : text)
    (* FileNotFoundError raised by os.path.getsize *)
| Raised (cls : exn_class) (msg : string).
    (* raised by an external operation *)

Definition class_of (e : exn) : exn_class :=
  match e with
  | CannotParse _ => ValueError
  | GroundingFailed _ _ => RuntimeError
  | FloatToInt NaN => ValueError
  | FloatToInt _ => OverflowError
  | BadFloatLiteral _ => ValueError
  | NoSuchGroup _ => TypeError
  | ResultTooLarge => OverflowError
  | IntTooLarge => OverflowError
  | NegativeSleep => ValueError
  | NoSuchFile _ => Derived "FileNotFoundError" OSError
  | Raised c _ => c
  end.

(** [isinstance(e, c)] *)
Definition isinstance (e : exn) (c : exn_class) : bool :=
  subclass_of (class_of e) c.

(** [e.__cause__] *)
Definition cause_of (e : exn) : option exn :=
  match e with
  | GroundingFailed _ last => last
  | _ => None
  end.

Inductive result (A : Type) :=
| Return (a : A)
| Raise (e : exn).

Arguments Return {A} a.
Arguments Raise {A} e.

Definition rbind {A B} (r : result A) (f : A -> result B) : result B :=
  match r with
  | Return a => f a
  | Raise e => Raise e
  end.

(* ================================================================== *)
(** * Conversions between [int], [float] and [str] *)
(* ================================================================== *)

(** [int(f)]: truncation toward zero. *)
Definition py_int (f : pyfloat) : result Z :=
  match f with
  | Finite m e =>
      Return (if 0 <=? e then m * 2 ^ e else Z.quot m (2 ^ (- e)))
  | _ => Raise (FloatToInt f)
  end.

(** [a / b] on integers ([b] positive): the correctly rounded quotient. *)
Definition py_truediv (a b : Z) : result pyfloat :=
  match round_ratio a b with
  | Infinity _ => Raise ResultTooLarge
  | f => Return f
  end.

(** [float(n)] for an integer, as in the coercion of [float * int]. *)
Definition float_of_int (n : Z) : result pyfloat :=
  match round_ratio n 1 with
  | Infinity _ => Raise IntTooLarge
  | f => Return f
  end.

Definition digit_value (c : ascii) : Z := Z.of_N (code c) - 48.

Definition digits_value (s : text) : Z :=
  fold_left (fun acc c => 10 * acc + digit_value c) s 0.

Definition is_numeral_part (s : text) : bool :=
  match s with [] => false | _ => forallb is_digit s end.

Fixpoint split_dot (s : text) : text * option text :=
  match s with
  | [] => ([], None)
  | c :: s' =>
      if Ascii.eqb c "."
      then ([], Some s')
      else let '(a, b) := split_dot s' in (c :: a, b)
  end.

(** [float(s)] on the numerals [\d+(?:\.\d+)?] that the patterns capture:
    the double nearest to the decimal value.  ([float] accepts further
    spellings, none of which a group of the patterns can hold.) *)
Definition py_float (s : text) : result pyfloat :=
  match split_dot s with
  | (ip, None) =>
      if is_numeral_part ip
      then Return (round_ratio (digits_value ip) 1)
      else Raise (BadFloatLiteral s)
  | (ip, Some fp) =>
      if is_numeral_part ip && is_numeral_part fp
      then Return (round_ratio (digits_value (ip ++ fp))
                               (10 ^ Z.of_nat (List.length fp)))
      else Raise (BadFloatLiteral s)
  end.

(** [int(float(m.group(i)))] *)
Definition int_float_group (m : captures) (i : nat) : result Z :=
  match group m i with
  | Some g => rbind (py_float g) py_int
  | None => Raise (NoSuchGroup i)
  end.

(* ================================================================== *)
(** * Configuration ([src/config.py]) *)
(* ================================================================== *)

(** The settings read from the environment; their values are not part of
    the repository. *)
Class Config := {
  SCREEN_WIDTH : Z;
  SCREEN_HEIGHT : Z;
  ANNOTATE_SCREENSHOTS : bool;
  GROUNDING_MAX_RETRIES : Z;
  GROUNDING_RETRY_DELAY : Q;
  TYPING_INTERVAL : Q;
  TARGET_DIR : text
}.

(* ================================================================== *)
(** * Coordinate codec ([src/grounding.py]) *)
(* ================================================================== *)

(** The [for pat in patterns] loop: the first pattern that is found. *)
Fixpoint first_match (pats : list regex) (t : text) : option captures :=
  match pats with
  | [] => None
  | pat :: rest =>
      match re_search pat t with
      | Some m => Some m
      | None => first_match rest t
      end
  end.

Definition clean (response_text : text) : text :=
  remove_fences (strip response_text).

Definition _parse_coordinates (response_text : text) : result (Z * Z) :=
  let t := clean response_text in
  match first_match patterns t with
  | Some m =>
      rbind (int_float_group m 1) (fun x =>
      rbind (int_float_group m 2) (fun y =>
      Return (x, y)))
  | None => Raise (CannotParse t)
  end.

(** [int((n / 1000) * dim)] *)
Definition scale (dim : Z) (n : Z) : result Z :=
  rbind (py_truediv n 1000) (fun q =>
  rbind (float_of_int dim) (fun d =>
  py_int (fmul q d))).

Definition _norm_to_pixels {cfg : Config} (nx ny : Z) : result (Z * Z) :=
  rbind (scale SCREEN_WIDTH nx) (fun px =>
  rbind (scale SCREEN_HEIGHT ny) (fun py =>
  Return (px, py))).

(* ================================================================== *)
(** * The outside world *)
(* ================================================================== *)

(** A screenshot; what it shows is known to the world only. *)
Inductive Image := Screenshot (id : nat).

(** The two inference transports of [src/grounding.py]. *)
Inductive backend := LocalBackend | VLLMBackend.

(** Operations answered by the desktop, the model and the libraries.  Each
    may raise. *)
Inductive Op : Type -> Type :=
(* screenshot.py *)
| CaptureDesktop : Op Image
| AnnotateResult (img : Image) (x y : Z) (label : text) : Op unit
(* the model behind a backend: the decoded output text *)
| Infer (b : backend) (img : Image) (description : text) : Op text
(* automation.py: loops over the live window list *)
| WaitForWindow (title_pattern : text) (timeout : Z) : Op Z
| FindWindowByPartialTitle (partial_title : text) : Op (option Z)
| DismissNotepadDialogs (max_dismissals : Z) (pause : Q) : Op Z
| CloseAllNotepadWindows : Op unit
(* win32gui *)
| ShowAndSetForeground (hwnd : Z) : Op unit
| GetWindowText (hwnd : Z) : Op text
| ClickDialogButton (hwnd : Z) (control_id : Z) : Op unit
(* pyautogui, pyperclip *)
| MoveTo (x y : Z) (duration : Q) : Op unit
| DoubleClickAt (x y : Z) : Op unit
| Hotkey (keys : list text) : Op unit
| Press (key : text) : Op unit
| Typewrite (s : text) (interval : Q) : Op unit
| ClipboardCopy (s : text) : Op unit
(* subprocess, os *)
| Popen (argv : list text) : Op unit
| Makedirs (directory : text) : Op unit.

Inductive fs_entry :=
| File (size : Z)
| Directory (size : Z).

Class World := {
  W : Type;
  handle : forall A, Op A -> W -> W * result A;
  elapse : Q -> W -> W;                    (* the passing of time *)
  fs : W -> text -> option fs_entry;       (* the file system *)
  os_path_join : text -> text -> text
}.

Inductive Event :=
| EvCall (A : Type) (op : Op A) (r : result A)
| EvSleep (seconds : Q).

(* ================================================================== *)
(** * The program monad: state, exceptions and a trace *)
(* ================================================================== *)

Section Monad.
Context {Sigma : World}.

(** [trace] holds the events so far, the most recent first;
    [_grounding_disabled] is the module-level flag of [src/notepad.py]. *)
Record State := {
  world : W;
  trace : list Event;
  _grounding_disabled : bool
}.

Definition M (A : Type) : Type := State -> State * result A.

Definition ret {A} (a : A) : M A := fun st => (st, Return a).

Definition raise {A} (e : exn) : M A := fun st => (st, Raise e).

Definition bind {A B} (m : M A) (f : A -> M B) : M B :=
  fun st =>
    match m st with
    | (st', Return a) => f a st'
    | (st', Raise e) => (st', Raise e)
    end.

Definition lift {A} (r : result A) : M A := fun st => (st, r).

(** [try: m / except Exception as exc: h exc] *)
Definition try_except {A} (m : M A) (h : exn -> M A) : M A :=
  fun st =>
    match m st with
    | (st', Raise e) => h e st'
    | r => r
    end.

(** [try: m / except c as exc: h exc]: other classes propagate. *)
Definition try_except_class {A} (m : M A) (c : exn_class) (h : exn -> M A)
  : M A :=
  try_except m (fun e => if isinstance e c then h e else raise e).

Definition call {A} (op : Op A) : M A :=
  fun st =>
    let (w', r) := handle op (world st) in
    ({| world := w';
        trace := EvCall op r :: trace st;
        _grounding_disabled := _grounding_disabled st |}, r).

(** [time.sleep(d)] *)
Definition sleep (d : Q) : M unit :=
  fun st =>
    if Qle_bool 0 d
    then ({| world := elapse d (world st);
             trace := EvSleep d :: trace st;
             _grounding_disabled := _grounding_disabled st |}, Return tt)
    else (st, Raise NegativeSleep).

Definition get_grounding_disabled : M bool :=
  fun st => (st, Return (_grounding_disabled st)).

Definition set_grounding_disabled (b : bool) : M unit :=
  fun st => ({| world := world st;
                trace := trace st;
                _grounding_disabled := b |}, Return tt).

(** [os.path.isfile] *)
Definition os_path_isfile (path : text) : M bool :=
  fun st =>
    (st, Return match fs (world st) path with
                | Some (File _) => true
                | _ => false
                end).

(** [os.path.getsize] *)
Definition os_path_getsize (path : text) : M Z :=
  fun st =>
    (st, match fs (world st) path with
         | Some (File n) | Some (Directory n) => Return n
         | None => Raise (NoSuchFile path)
         end).
End Monad.

Declare Scope prog_scope.
Delimit Scope prog_scope with prog.
Notation "x <- m ;; k" := (bind m (fun x => k))
  (at level 61, m at next level, right associativity) : prog_scope.
Notation "' p <- m ;; k" := (bind m (fun x => match x with p => k end))
  (at level 61, p pattern, m at next level, right associativity) : prog_scope.
Notation "m ;; k" := (bind m (fun _ => k))
  (at level 61, right associativity) : prog_scope.
Local Open Scope prog_scope.

(** [range(a, b)] *)
Definition range (a b : Z) : list Z :=
  map (fun i => a + Z.of_nat i) (seq 0 (Z.to_nat (b - a))).

Definition key (s : string) : text := txt s.

Section Program.
Context {Sigma : World} {cfg : Config}.

(* ---------------------------------------------------------------- *)
(** ** [src/grounding.py]: the grounding engine *)
(* ---------------------------------------------------------------- *)

Record GroundingEngine := { _backend : backend }.

(** [_LocalBackend.ground] and [_VLLMBackend.ground]: run the model, then
    decode its text with the codec. *)
Definition backend_ground (b : backend) (img : Image) (description : text)
  : M (Z * Z) :=
  output_text <- call (Infer b img description) ;;
  '(nx, ny) <- lift (_parse_coordinates output_text) ;;
  lift (_norm_to_pixels nx ny).

Definition ground (self : GroundingEngine) (screenshot : Image)
           (description : text) (save_annotation : bool)
           (annotation_suffix : text) : M (Z * Z) :=
  '(x, y) <- backend_ground (_backend self) screenshot description ;;
  (if ANNOTATE_SCREENSHOTS && save_annotation
   then call (AnnotateResult screenshot x y (description ++ annotation_suffix))
   else ret tt) ;;
  ret (x, y).

(** The body of the [try] of one attempt. *)
Definition attempt_body (self : GroundingEngine) (description : text)
           (screenshot : option Image) (attempt : Z) : M (Z * Z) :=
  current_screenshot <-
    match screenshot with
    | Some img => if attempt =? 1 then ret img else call CaptureDesktop
    | None => call CaptureDesktop
    end ;;
  ground self current_screenshot description true
         (txt " [attempt " ++ str_of_Z attempt ++ txt "]").

(** The [for attempt in range(1, retries + 1)] loop with its handler, and
    the [raise ... from last_exc] after it. *)
Fixpoint retry_loop (self : GroundingEngine) (description : text)
         (screenshot : option Image) (retries : Z) (attempts : list Z)
         (last_exc : option exn) : M (Z * Z) :=
  match attempts with
  | [] => raise (GroundingFailed retries last_exc)
  | attempt :: rest =>
      try_except
        (attempt_body self description screenshot attempt)
        (fun exc =>
           (if attempt <? retries
            then sleep GROUNDING_RETRY_DELAY
            else ret tt) ;;
           retry_loop self description screenshot retries rest (Some exc))
  end.

Definition ground_with_retry (self : GroundingEngine) (description : text)
           (max_retries : option Z) (screenshot : option Image)
  : M (Z * Z) :=
  let retries :=
    match max_retries with
    | Some n => n
    | None => GROUNDING_MAX_RETRIES
    end in
  retry_loop self description screenshot retries (range 1 (retries + 1)) None.

(* ---------------------------------------------------------------- *)
(** ** [src/automation.py]: helpers written over the operations *)
(* ---------------------------------------------------------------- *)

Definition double_click (x y : Z) : M unit :=
  sleep (3 # 10) ;;
  call (MoveTo x y (3 # 10)) ;;
  call (DoubleClickAt x y).

(** Every failure is caught and logged. *)
Definition focus_window (hwnd : Z) : M unit :=
  try_except
    (call (ShowAndSetForeground hwnd) ;; sleep (3 # 10))
    (fun _ => ret tt).

Definition close_window (hwnd : option Z) (title_pattern : text) : M unit :=
  hwnd <- match hwnd with
          | None => call (FindWindowByPartialTitle title_pattern)
          | Some h => ret (Some h)
          end ;;
  match hwnd with
  | None => ret tt
  | Some h =>
      focus_window h ;;
      sleep (2 # 10) ;;
      call (Hotkey [key "alt"; key "f4"]) ;;
      sleep 1 ;;
      call (DismissNotepadDialogs 3 (3 # 10)) ;;
      ret tt
  end.

(** The [for attempt in range(3)] loop that confirms an overwrite. *)
Fixpoint confirm_overwrite (attempts : list Z) : M unit :=
  match attempts with
  | [] => ret tt
  | _ :: rest =>
      sleep (5 # 10) ;;
      overwrite_hwnd <- call (FindWindowByPartialTitle (txt "Confirm Save As")) ;;
      match overwrite_hwnd with
      | Some h =>
          if h =? 0 then ret tt else
          focus_window h ;;
          try_except (call (ClickDialogButton h 6))
                     (fun _ => call (Hotkey [key "alt"; key "y"])) ;;
          sleep (5 # 10) ;;
          confirm_overwrite rest
      | None => ret tt
      end
  end.

Definition save_file_as (filename directory : text) : M text :=
  call (Makedirs directory) ;;
  let full_path := os_path_join directory filename in
  call (Hotkey [key "ctrl"; key "shift"; key "s"]) ;;
  sleep (15 # 10) ;;
  call (Hotkey [key "ctrl"; key "a"]) ;;
  sleep (1 # 10) ;;
  call (Typewrite full_path (3 # 100)) ;;
  sleep (3 # 10) ;;
  call (Press (key "enter")) ;;
  sleep 1 ;;
  confirm_overwrite (range 0 3) ;;
  call (DismissNotepadDialogs 3 (3 # 10)) ;;
  ret full_path.

Definition type_text (s : text) : M unit :=
  call (Typewrite s TYPING_INTERVAL).

(* ---------------------------------------------------------------- *)
(** ** [src/api.py] *)
(* ---------------------------------------------------------------- *)

Record Post := { post_id : Z; post_title : text; post_body : text }.

Definition newline : ascii := ascii_of_N 10.

Definition format_post_content (post : Post) : text :=
  txt "Title: " ++ post_title post ++ [newline; newline] ++ post_body post.

Definition post_filename (post : Post) : text :=
  txt "post_" ++ str_of_Z (post_id post) ++ txt ".txt".

(* ---------------------------------------------------------------- *)
(** ** [src/notepad.py]: the window lifecycle *)
(* ---------------------------------------------------------------- *)

(** The dash of the description, U+2014, lies outside the block of the
    characters modelled here; one character that is neither a letter, a
    digit nor white space stands for it, so that the description has the
    length and the slices that it has in the source. *)
Definition em_dash : ascii := ascii_of_N 151.

Definition _NOTEPAD_DESC : text :=
  txt "A single Notepad application desktop shortcut icon "
  ++ em_dash
  :: txt " a text editor icon with a small notepad or document symbol and the label 'Notepad'. If there are multiple Notepad icons, point to exactly one of them.".

Definition Notepad : text := txt "Notepad".

Definition _launch_notepad_subprocess : M Z :=
  call (Popen [txt "notepad.exe"]) ;;
  sleep (15 # 10) ;;
  call (WaitForWindow Notepad 10).

(** [for launch_attempt in range(1, 4)]: ground, click, wait; [Some hwnd]
    is the [break], [None] the loop running out. *)
Fixpoint ground_click_loop (engine : GroundingEngine) (attempts : list Z)
  : M (option Z) :=
  match attempts with
  | [] => ret None
  | _ :: rest =>
      '(x, y) <- ground_with_retry engine _NOTEPAD_DESC None None ;;
      double_click x y ;;
      try_except_class
        (hwnd <- call (WaitForWindow Notepad 8) ;; ret (Some hwnd))
        TimeoutError
        (fun _ =>
           call (DismissNotepadDialogs 2 (3 # 10)) ;;
           ground_click_loop engine rest)
  end.

(** The last resort after the verify loop. *)
Definition forced_clean_launch : M Z :=
  call CloseAllNotepadWindows ;;
  call (Popen [txt "notepad.exe"]) ;;
  sleep (15 # 10) ;;
  hwnd <- call (WaitForWindow Notepad 10) ;;
  focus_window hwnd ;;
  sleep (3 # 10) ;;
  ret hwnd.

(** One pass of [for attempt in range(1, 6)]: [Some hwnd] is the
    [return hwnd] on a blank document, [None] the end of the body. *)
Definition verify_attempt : M (option Z) :=
  call (DismissNotepadDialogs 5 (4 # 10)) ;;
  hwnd <- try_except_class
            (call (WaitForWindow Notepad 3))
            TimeoutError
            (fun _ =>
               call (Popen [txt "notepad.exe"]) ;;
               sleep (15 # 10) ;;
               call (WaitForWindow Notepad 10)) ;;
  focus_window hwnd ;;
  sleep (3 # 10) ;;
  title <- call (GetWindowText hwnd) ;;
  if contains (txt "untitled") (lower title)
  then ret (Some hwnd)
  else
    call (Hotkey [key "ctrl"; key "w"]) ;;
    sleep (8 # 10) ;;
    call (DismissNotepadDialogs 3 (3 # 10)) ;;
    sleep (3 # 10) ;;
    ret None.

Fixpoint verify_loop (attempts : list Z) : M Z :=
  match attempts with
  | [] => forced_clean_launch
  | _ :: rest =>
      r <- verify_attempt ;;
      match r with
      | Some hwnd => ret hwnd
      | None => verify_loop rest
      end
  end.

Definition verify_blank_document : M Z := verify_loop (range 1 6).

(** The launch phase: the subprocess path once the flag is set, the
    ground-and-click attempts otherwise. *)
Definition launch_phase (engine : GroundingEngine) : M Z :=
  disabled <- get_grounding_disabled ;;
  if disabled
  then _launch_notepad_subprocess
  else
    hwnd <- ground_click_loop engine (range 1 4) ;;
    match hwnd with
    | Some h => ret h
    | None =>
        set_grounding_disabled true ;;
        _launch_notepad_subprocess
    end.

Definition launch_notepad (engine : GroundingEngine) : M Z :=
  call CloseAllNotepadWindows ;;
  launch_phase engine ;;
  verify_blank_document.

Definition type_post_content (post : Post) : M unit :=
  let content := format_post_content post in
  try_except
    (call (ClipboardCopy content) ;;
     call (Hotkey [key "ctrl"; key "a"]) ;;
     sleep (1 # 10) ;;
     call (Hotkey [key "ctrl"; key "v"]))
    (fun _ => type_text content) ;;
  sleep (3 # 10).

(** The clipboard path: the body of the [try] in [type_post_content]. *)
Definition clipboard_path (content : text) : M unit :=
  call (ClipboardCopy content) ;;
  call (Hotkey [key "ctrl"; key "a"]) ;;
  sleep (1 # 10) ;;
  call (Hotkey [key "ctrl"; key "v"]).

Definition save_post (post : Post) (target_dir : text) : M bool :=
  let fname := post_filename post in
  full_path <- save_file_as fname target_dir ;;
  is_file <- os_path_isfile full_path ;;
  nonempty <- (if is_file : bool
               then size <- os_path_getsize full_path ;; ret (0 <? size)
               else ret false) ;;
  if nonempty : bool
  then _ <- os_path_getsize full_path ;; ret true
  else ret false.

Definition close_notepad (hwnd : option Z) : M unit :=
  close_window hwnd Notepad ;;
  sleep (5 # 10).

(* ---------------------------------------------------------------- *)
(** ** [main.py]: one work item and the run *)
(* ---------------------------------------------------------------- *)

Inductive Reason :=
| SaveNotVerified            (* "save not verified on disk" *)
| Because (exc : exn).       (* str(exc) *)

Inductive Status := ok | error (reason : Reason).

Record RunResult := { result_id : Z; status : Status }.

Definition is_ok (r : RunResult) : bool :=
  match status r with ok => true | error _ => false end.

(** The [try] block of the loop body. *)
Definition item_try (engine : GroundingEngine) (post : Post) : M RunResult :=
  hwnd <- launch_notepad engine ;;
  type_post_content post ;;
  saved <- save_post post TARGET_DIR ;;
  close_notepad (Some hwnd) ;;
  if saved : bool
  then ret {| result_id := post_id post; status := ok |}
  else ret {| result_id := post_id post; status := error SaveNotVerified |}.

(** The three [except] clauses; each records the same failure. *)
Definition item_except (post : Post) (exc : exn) : M RunResult :=
  if isinstance exc TimeoutError
  then ret {| result_id := post_id post; status := error (Because exc) |}
  else if isinstance exc RuntimeError
  then ret {| result_id := post_id post; status := error (Because exc) |}
  else ret {| result_id := post_id post; status := error (Because exc) |}.

(** The [try] statement with its [finally]. *)
Definition process_post (engine : GroundingEngine) (post : Post)
  : M RunResult :=
  r <- try_except (item_try engine post) (item_except post) ;;
  (if is_ok r
   then ret tt
   else try_except (close_notepad None) (fun _ => ret tt)) ;;
  ret r.

(** The [for idx, post in enumerate(posts, start=1)] loop of [main]. *)
Fixpoint run_posts (engine : GroundingEngine) (posts : list Post)
         (results : list RunResult) : M (list RunResult) :=
  match posts with
  | [] => ret results
  | post :: rest =>
      r <- process_post engine post ;;
      sleep 1 ;;
      run_posts engine rest (results ++ [r])
  end.
End Program.

(* ================================================================== *)
(** * Observations on traces *)
(* ================================================================== *)

(** A backend invocation: the model was run. *)
Definition is_infer (e : Event) : bool :=
  match e with
  | EvCall op _ => match op with Infer _ _ _ => true | _ => false end
  | EvSleep _ => false
  end.

(** The annotation step was entered. *)
Definition is_annotate_call (e : Event) : bool :=
  match e with
  | EvCall op _ => match op with AnnotateResult _ _ _ _ => true | _ => false end
  | EvSleep _ => false
  end.

(** An annotated image was written: the annotation step returned. *)
Definition is_annotation_saved (e : Event) : bool :=
  match e with
  | EvCall op (Return _) =>
      match op with AnnotateResult _ _ _ _ => true | _ => false end
  | _ => false
  end.

(** A direct process launch. *)
Definition is_popen (e : Event) : bool :=
  match e with
  | EvCall op _ => match op with Popen _ => true | _ => false end
  | EvSleep _ => false
  end.

(** A title inspection of the verify loop. *)
Definition is_title_check (e : Event) : bool :=
  match e with
  | EvCall op _ => match op with GetWindowText _ => true | _ => false end
  | EvSleep _ => false
  end.

Definition is_close_all (e : Event) : bool :=
  match e with
  | EvCall op _ => match op with CloseAllNotepadWindows => true | _ => false end
  | EvSleep _ => false
  end.

Definition count (p : Event -> bool) (tr : list Event) : nat :=
  List.length (filter p tr).

(** The decoding that a backend applies to the model's text. *)
Definition decode {cfg : Config} (output_text : text) : result (Z * Z) :=
  rbind (_parse_coordinates output_text) (fun p => _norm_to_pixels (fst p) (snd p)).

(** A backend invocation whose inference and decoding both succeeded. *)
Definition is_decoded {cfg : Config} (e : Event) : bool :=
  match e with
  | EvCall op r =>
      match op in Op T return result T -> bool with
      | Infer _ _ _ =>
          fun r => match r with
                   | Return t => match decode t with
                                 | Return _ => true
                                 | Raise _ => false
                                 end
                   | Raise _ => false
                   end
      | _ => fun _ => false
      end r
  | EvSleep _ => false
  end.

(* ================================================================== *)
(** * Scripted worlds, for concrete runs *)
(* ================================================================== *)

Definition default_answer (A : Type) (op : Op A) : A :=
  match op in Op T return T with
  | CaptureDesktop => Screenshot 0
  | AnnotateResult _ _ _ _ => tt
  | Infer _ _ _ => txt "(500, 500)"
  | WaitForWindow _ _ => 4242
  | FindWindowByPartialTitle _ => None
  | DismissNotepadDialogs _ _ => 0
  | CloseAllNotepadWindows => tt
  | ShowAndSetForeground _ => tt
  | GetWindowText _ => txt "Untitled - Notepad"
  | ClickDialogButton _ _ => tt
  | MoveTo _ _ _ => tt
  | DoubleClickAt _ _ => tt
  | Hotkey _ => tt
  | Press _ => tt
  | Typewrite _ _ => tt
  | ClipboardCopy _ => tt
  | Popen _ => tt
  | Makedirs _ => tt
  end.

(** A world whose state is the number of operations answered so far. *)
Definition scripted (answer : nat -> forall A, Op A -> result A)
           (files : nat -> text -> option fs_entry) : World :=
  {| W := nat;
     handle := fun A op n => (S n, answer n A op);
     elapse := fun _ n => n;
     fs := files;
     os_path_join := fun d f => d ++ txt "/" ++ f |}.

(** Everything works: the model answers "(500, 500)", the window appears
    with a blank document, and files are saved with 42 bytes. *)
Definition world_ok : World :=
  scripted (fun _ A op => Return (default_answer op))
           (fun _ _ => Some (File 42)).

(** The save action leaves a zero-byte file and nothing else goes wrong. *)
Definition world_zero_byte : World :=
  scripted (fun _ A op => Return (default_answer op))
           (fun _ _ => Some (File 0)).

Definition inference_error : exn :=
  Raised (Derived "InferenceError" Exception_) "backend unavailable".

(** The backend always raises. *)
Definition world_backend_down : World :=
  scripted (fun _ A op =>
              match op in Op T return result T with
              | Infer _ _ _ => Raise inference_error
              | op' => Return (default_answer op')
              end)
           (fun _ _ => None).

(** The backend raises on its first invocation and answers afterwards. *)
Definition world_backend_flaky : World :=
  scripted (fun n A op =>
              match op in Op T return result T with
              | Infer _ _ _ =>
                  if (n <? 2)%nat then Raise inference_error
                  else Return (txt "(500, 500)")
              | op' => Return (default_answer op')
              end)
           (fun _ _ => None).



(** A stale document that never goes away. *)
Definition world_stale_tab : World :=
  scripted (fun _ A op =>
              match op in Op T return result T with
              | GetWindowText _ => Return (txt "notes.txt - Notepad")
              | op' => Return (default_answer op')
              end)
           (fun _ _ => None).

Definition window_timeout : exn :=
  Raised TimeoutError "Window containing 'Notepad' not found within 10s".

(** A stale document, and no window after a relaunch. *)
Definition world_stale_no_relaunch : World :=
  scripted (fun _ A op =>
              match op in Op T return result T with
              | GetWindowText _ => Return (txt "notes.txt - Notepad")
              | WaitForWindow _ timeout =>
                  if timeout =? 10 then Raise window_timeout else Return 4242
              | op' => Return (default_answer op')
              end)
           (fun _ _ => None).

Definition config_1080p : Config :=
  {| SCREEN_WIDTH := 1920;
     SCREEN_HEIGHT := 1080;
     ANNOTATE_SCREENSHOTS := true;
     GROUNDING_MAX_RETRIES := 3;
     GROUNDING_RETRY_DELAY := 1;
     TYPING_INTERVAL := 2 # 100;
     TARGET_DIR := txt "C:/Users/me/Desktop/tjm-project" |}.

Definition config_720p : Config :=
  {| SCREEN_WIDTH := 1280;
     SCREEN_HEIGHT := 720;
     ANNOTATE_SCREENSHOTS := true;
     GROUNDING_MAX_RETRIES := 3;
     GROUNDING_RETRY_DELAY := 1;
     TYPING_INTERVAL := 2 # 100;
     TARGET_DIR := txt "C:/Users/me/Desktop/tjm-project" |}.


Definition initial_state {Sigma : World} (w : W) : State :=
  {| world := w; trace := []; _grounding_disabled := false |}.

Definition degraded_state {Sigma : World} (w : W) : State :=
  {| world := w; trace := []; _grounding_disabled := true |}.

Definition engine0 : GroundingEngine := {| _backend := LocalBackend |}.

Definition post1 : Post :=
  {| post_id := 1; post_title := txt "Sample Post 1";
     post_body := txt "This is the body of sample post 1." |}.

(* ================================================================== *)
(** * Vocabulary of the properties *)
(* ================================================================== *)

Section Vocabulary.
Context {Sigma : World} {cfg : Config}.

Definition backend_invocations (st : State) : nat :=
  count is_infer (trace st).

Definition title_checks (st : State) : nat :=
  count is_title_check (trace st).

Definition process_launches (st : State) : nat :=
  count is_popen (trace st).

(** A computation that, started with the degradation flag set, leaves it
    set and never runs the model. *)
Definition degraded_quiet (A : Type) (m : M A) : Prop :=
  forall st st' r,
    m st = (st', r) ->
    _grounding_disabled st = true ->
    _grounding_disabled st' = true /\
    backend_invocations st' = backend_invocations st.

(** The launch taken when grounding is bypassed. *)
Definition subprocess_launch : M Z :=
  call CloseAllNotepadWindows ;;
  _launch_notepad_subprocess ;;
  verify_blank_document.
End Vocabulary.

Section VocabularyFiles.
Context {Sigma : World}.

(** The file exists on disk and is not empty. *)
Definition file_nonempty (w : W) (path : text) : Prop :=
  exists n, fs w path = Some (File n) /\ 0 < n.

Definition file_nonempty_b (w : W) (path : text) : bool :=
  match fs w path with
  | Some (File n) => 0 <? n
  | _ => false
  end.
End VocabularyFiles.

Section VocabularyGrounding.
Context {Sigma : World} {cfg : Config}.

(** The attempt count that [ground_with_retry] works with. *)
Definition retries_of (max_retries : option Z) : Z :=
  match max_retries with
  | Some n => n
  | None => GROUNDING_MAX_RETRIES
  end.

Definition annotation_calls (st : State) : nat :=
  count is_annotate_call (trace st).

Definition annotations_saved (st : State) : nat :=
  count is_annotation_saved (trace st).

Definition decoded_answers (st : State) : nat :=
  count is_decoded (trace st).


End VocabularyGrounding.

Section VocabularyRetry.
Context {Sigma : World} {cfg : Config}.





End VocabularyRetry.

Section VocabularyAnnotation.
Context {Sigma : World} {cfg : Config}.

Definition is_capture (e : Event) : bool :=
  match e with
  | EvCall op _ => match op with CaptureDesktop => true | _ => false end
  | EvSleep _ => false
  end.

(** Attempts of a locate call made without a caller-supplied screenshot:
    each one starts by capturing the desktop. *)
Definition attempts_started (st : State) : nat :=
  count is_capture (trace st).

(** The reading "one annotated image per attempt, whether the attempt
    succeeded or failed". *)
Definition one_image_per_attempt : Prop :=
  forall self description st st' r,
    ANNOTATE_SCREENSHOTS = true ->
    ground_with_retry self description None None st = (st', r) ->
    (annotations_saved st' + attempts_started st =
     annotations_saved st + attempts_started st')%nat.
End VocabularyAnnotation.

Section VocabularyInvariants.
Context {Sigma : World} {cfg : Config}.

(** Every run of [m] relates its first state to its last by [R]. *)
Definition respects (R : State -> State -> Prop) (A : Type) (m : M A) : Prop :=
  forall st st' r, m st = (st', r) -> R st st'.

(** No process was launched and the degradation flag was left alone. *)
Definition no_launch (st st' : State) : Prop :=
  _grounding_disabled st' = _grounding_disabled st /\
  process_launches st' = process_launches st.

(** The reading "the window lifecycle recovers from exhaustion": the
    exhaustion error never leaves [launch_notepad]. *)
Definition falls_back_on_exhaustion : Prop :=
  forall engine st st' r,
    launch_notepad engine st = (st', r) ->
    forall retries last, r <> Raise (GroundingFailed retries last).
End VocabularyInvariants.

Section VocabularyVerify.
Context {Sigma : World} {cfg : Config}.

Definition forced_relaunches (st : State) : nat :=
  count is_close_all (trace st).

(** No title was inspected. *)
Definition same_checks (st st' : State) : Prop :=
  title_checks st' = title_checks st.

(** No title was inspected and no close-all was forced. *)
Definition same_view (st st' : State) : Prop :=
  title_checks st' = title_checks st /\
  forced_relaunches st' = forced_relaunches st.

(** The reading "a budget of six attempts": the forced clean relaunch comes
    after six title inspections. *)
Definition verify_budget_is_six : Prop :=
  forall st st' r,
    verify_blank_document st = (st', r) ->
    forced_relaunches st' <> forced_relaunches st ->
    title_checks st' = (title_checks st + 6)%nat.

(** The reading "after the forced relaunch a handle is returned rather than
    a failure". *)
Definition forced_relaunch_returns_handle : Prop :=
  forall st st' r,
    verify_blank_document st = (st', r) ->
    forced_relaunches st' <> forced_relaunches st ->
    exists hwnd, r = Return hwnd.
End VocabularyVerify.

Section VocabularyStale.
Context {Sigma : World} {cfg : Config}.
(** [stale_attempts n st st']: from the state [st], [n] passes of the
    verify loop were made and each of them ended without a blank document
    (the title was inspected, did not hold "untitled", and the tab was
    closed); [st'] is the state after them. *)
Inductive stale_attempts : nat -> State -> State -> Prop :=
| no_stale_attempt st : stale_attempts 0 st st
| stale_attempt n st s st' :
    verify_attempt st = (s, Return None) ->
    stale_attempts n s st' ->
    stale_attempts (S n) st st'.
End VocabularyStale.

(* ================================================================== *)
(** * What the patterns mean *)
(* ================================================================== *)

Definition all_in (p : ascii -> bool) (s : text) : Prop :=
  Forall (fun c => p c = true) s.

(** [matches r s caps caps']: the text [s] is in the language of [r], and
    matching it turns the groups [caps] into [caps']. *)
Inductive matches : regex -> text -> captures -> captures -> Prop :=
| M_Lit c caps :
    matches (Lit c) [c] caps caps
| M_Star k s caps :
    all_in (in_class k) s ->
    matches (Star k) s caps caps
| M_Plus k s caps :
    s <> [] -> all_in (in_class k) s ->
    matches (Plus k) s caps caps
| M_Opt_skip r caps :
    matches (Opt r) [] caps caps
| M_Opt_take r s caps caps' :
    matches r s caps caps' ->
    matches (Opt r) s caps caps'
| M_Cat r1 r2 s1 s2 caps caps1 caps2 :
    matches r1 s1 caps caps1 ->
    matches r2 s2 caps1 caps2 ->
    matches (Cat r1 r2) (s1 ++ s2) caps caps2
| M_Group i r s caps caps' :
    matches r s caps caps' ->
    matches (Group i r) s caps ((i, s) :: caps').

(** [r] matches a piece of [t]. *)
Definition occurs (r : regex) (t : text) : Prop :=
  exists pre m post caps, t = pre ++ m ++ post /\ matches r m [] caps.

(** ** The accepted shapes, in the words of the specification *)

Definition digits (s : text) : Prop := s <> [] /\ all_in is_digit s.

Definition spaces (s : text) : Prop := all_in is_space s.

(** Digits with an optional fractional part. *)
Definition numeral (s : text) : Prop :=
  digits s \/
  exists ip fp, s = ip ++ "."%char :: fp /\ digits ip /\ digits fp.

(** A parenthesized pair: [( x , y )]. *)
Definition paren_pair (m : text) (x y : text) : Prop :=
  exists w1 w2 w3 w4,
    m = "("%char :: w1 ++ x ++ w2 ++ ","%char :: w3 ++ y ++ w4 ++ [")"%char] /\
    spaces w1 /\ spaces w2 /\ spaces w3 /\ spaces w4 /\
    numeral x /\ numeral y.

(** A bare comma-separated pair: [x , y]. *)
Definition comma_pair (m : text) (x y : text) : Prop :=
  exists w1 w2,
    m = x ++ w1 ++ ","%char :: w2 ++ y /\
    spaces w1 /\ spaces w2 /\ numeral x /\ numeral y.

(** A bare whitespace-separated pair: [x y]. *)
Definition space_pair (m : text) (x y : text) : Prop :=
  exists w,
    m = x ++ w ++ y /\ w <> [] /\ spaces w /\ numeral x /\ numeral y.

(** Some accepted shape occurs somewhere in the text. *)
Definition shape_occurs (t : text) : Prop :=
  exists pre m post x y,
    t = pre ++ m ++ post /\
    (paren_pair m x y \/ comma_pair m x y \/ space_pair m x y).

(** [parse] raises a [ParseError] (a [ValueError] in the code). *)
Definition raises_parse_error (t : text) : Prop :=
  exists e, _parse_coordinates t = Raise e /\ isinstance e ValueError = true.

(** The failure condition read on the input text as it arrives: a
    [ParseError] exactly when no accepted shape occurs in it. *)
Definition fails_exactly_without_shape : Prop :=
  forall t, raises_parse_error t <-> ~ shape_occurs t.

(** The text begins with a character that [strip] keeps. *)
Definition starts_solid (s : text) : Prop :=
  exists c s', s = c :: s' /\ is_space c = false.

(** The text ends with a character that [strip] keeps. *)
Definition ends_solid (s : text) : Prop :=
  exists s' c, s = s' ++ [c] /\ is_space c = false.

Definition fence_free (s : text) : Prop :=
  Forall (fun c => Ascii.eqb c backtick = false) s.

(** Prose: text without any digit. *)
Definition digit_free (s : text) : Prop :=
  Forall (fun c => is_digit c = false) s.

(** The next character, if any, is outside the class [p]. *)
Definition stops (p : ascii -> bool) (s : text) : Prop :=
  match s with
  | [] => True
  | c :: _ => p c = false
  end.

(** What follows is not the fractional part of a numeral. *)
Definition no_fraction (s : text) : Prop :=
  match s with
  | dot :: c :: _ => Ascii.eqb "." dot = true -> is_digit c = false
  | _ => True
  end.

(** The groups of a match whose first number is [x] and second [y]. *)
Definition pair_groups (x y : text) : captures := [(2%nat, y); (1%nat, x)].

Definition has_digit (s : text) : Prop :=
  Exists (fun c => is_digit c = true) s.

(** ** The selection rule of the codec *)

(** [m] holds the groups of an occurrence of [pat] in [t] that starts at
    the left-most offset at which [pat] occurs. *)
Definition leftmost (pat : regex) (t : text) (m : captures) : Prop :=
  exists pre s post,
    t = pre ++ s ++ post /\ matches pat s [] m /\
    forall pre' s' post' c c',
      t = pre' ++ s' ++ post' -> matches pat s' c c' ->
      (List.length pre <= List.length pre')%nat.

(** [m] comes from the first pattern of [pats], in list order, that
    occurs in [t] at all. *)
Definition chosen_by_priority (pats : list regex) (t : text) (m : captures)
  : Prop :=
  exists earlier pat later,
    pats = earlier ++ pat :: later /\
    (forall p, In p earlier -> ~ occurs p t) /\
    leftmost pat t m.

(** [int(float(x)), int(float(y))] on the two captured numerals. *)
Definition convert_pair (x y : text) : result (Z * Z) :=
  rbind (rbind (py_float x) py_int) (fun a =>
  rbind (rbind (py_float y) py_int) (fun b =>
  Return (a, b))).

(** The value of a numeral with its fractional part dropped. *)
Definition truncated (x : text) : Z := digits_value (fst (split_dot x)).

(** The reading "every fractional value truncates toward zero". *)
Definition fractions_truncated : Prop :=
  forall x y, numeral x -> numeral y ->
    _parse_coordinates
      ("("%char :: x ++ ","%char :: " "%char :: y ++ [")"%char])
    = Return (truncated x, truncated y).

(** The spellings of a pair that the codec is used with. *)
Definition fmt_paren (x y : text) : text :=
  "("%char :: x ++ ","%char :: " "%char :: y ++ [")"%char].

Definition fmt_comma (x y : text) : text :=
  x ++ ","%char :: " "%char :: y.

Definition fmt_space (x y : text) : text :=
  x ++ " "%char :: y.

Definition fmt_fenced (x y : text) : text :=
  [backtick; backtick; backtick] ++ fmt_paren x y
    ++ [backtick; backtick; backtick].

(** How many digits a numeral is written with. *)
Definition digit_count (x : text) : nat :=
  List.length (filter is_digit x).

(** [str(a)] is a run of at most three digits that denotes [a]. *)
Definition prints_itself (a : Z) : bool :=
  is_numeral_part (str_of_Z a)
  && (List.length (str_of_Z a) <=? 3)%nat
  && (digits_value (str_of_Z a) =? a).


(* ================================================================== *)
(** * Further observations on traces *)
(* ================================================================== *)


(** The desktop was captured: [capture_desktop] returned an image. *)
Definition is_captured (e : Event) : bool :=
  match e with
  | EvCall op (Return _) =>
      match op with CaptureDesktop => true | _ => false end
  | _ => false
  end.

Section VocabularyCounting.
Context {Sigma : World}.

(** Between [st] and [st'] no event of kind [p] was added to the trace. *)
Definition adds_none (p : Event -> bool) (st st' : State) : Prop :=
  count p (trace st') = count p (trace st).


Definition desktop_captures (st : State) : nat :=
  count is_captured (trace st).
End VocabularyCounting.

(** A text without a line break. *)
Definition single_line (s : text) : Prop :=
  all_in (fun c => negb (Ascii.eqb c newline)) s.

(** A look for the overwrite confirmation ([_find_window_by_partial_title]). *)
Definition is_find_window (e : Event) : bool :=
  match e with
  | EvCall op _ =>
      match op with FindWindowByPartialTitle _ => true | _ => false end
  | EvSleep _ => false
  end.

(** A click on a dialog button by its control id. *)
Definition is_button_click (e : Event) : bool :=
  match e with
  | EvCall op _ => match op with ClickDialogButton _ _ => true | _ => false end
  | EvSleep _ => false
  end.


(** The 8-second wait after a double click ran into its [TimeoutError]. *)
Definition is_click_timeout (e : Event) : bool :=
  match e with
  | EvCall op r =>
      match op in Op T return result T -> bool with
      | WaitForWindow _ timeout =>
          fun r => match r with
                   | Raise exc => (timeout =? 8) && isinstance exc TimeoutError
                   | Return _ => false
                   end
      | _ => fun _ => false
      end r
  | EvSleep _ => false
  end.

Section VocabularyLaunch.
Context {Sigma : World}.

Definition window_polls (st : State) : nat := count is_find_window (trace st).

Definition button_clicks (st : State) : nat :=
  count is_button_click (trace st).


Definition click_timeouts (st : State) : nat :=
  count is_click_timeout (trace st).
End VocabularyLaunch.

Section VocabularyRounds.
Context {Sigma : World} {cfg : Config}.

(** [timed_out_rounds engine n st st']: from the state [st], [n] rounds of
    the ground-and-click loop of [launch_notepad] were made, and each of
    them ended in the time-out of its wait: the icon was located, the
    double click was made, no window appeared within 8 seconds and the
    dialogs were dismissed; [st'] is the state after them. *)
Inductive timed_out_rounds (engine : GroundingEngine) :
  nat -> State -> State -> Prop :=
| no_round st : timed_out_rounds engine 0 st st
| timed_out_round n st x y s1 s2 s3 e s4 d st' :
    ground_with_retry engine _NOTEPAD_DESC None None st
    = (s1, Return (x, y)) ->
    double_click x y s1 = (s2, Return tt) ->
    call (WaitForWindow Notepad 8) s2 = (s3, Raise e) ->
    isinstance e TimeoutError = true ->
    call (DismissNotepadDialogs 2 (3 # 10)) s3 = (s4, Return d) ->
    timed_out_rounds engine n s4 st' ->
    timed_out_rounds engine (S n) st st'.
End VocabularyRounds.

Definition click_timeout : exn :=
  Raised TimeoutError "Window containing 'Notepad' not found within 8s".

(** The model answers once; the double click brings up no window within
    8 seconds, and from then on the backend raises. *)
Definition world_second_round_down : World :=
  scripted (fun n A op =>
              match op in Op T return result T with
              | Infer _ _ _ =>
                  if (n <? 3)%nat then Return (txt "(500, 500)")
                  else Raise inference_error
              | WaitForWindow _ timeout =>
                  if timeout =? 8 then Raise click_timeout else Return 4242
              | op' => Return (default_answer op')
              end)
           (fun _ _ => None).

(** Double clicks never bring up a window within 8 seconds; a direct
    launch does. *)
Definition world_no_window_on_click : World :=
  scripted (fun _ A op =>
              match op in Op T return result T with
              | WaitForWindow _ timeout =>
                  if timeout =? 8 then Raise click_timeout else Return 4242
              | op' => Return (default_answer op')
              end)
           (fun _ _ => None).



(* ================================================================== *)
(** * The window helpers of [src/automation.py], over the window list *)
(* ================================================================== *)

(** A top-level window as [EnumWindows] hands it to a callback, with what
    the callbacks read of it. *)
Record Window := {
  w_hwnd : Z;
  w_visible : bool;     (* IsWindowVisible *)
  w_title : text;       (* GetWindowText *)
  w_class : text        (* GetClassName *)
}.

(** The [win32gui] calls of the helpers.  Each may raise. *)
Inductive WinOp : Type -> Type :=
| EnumWindows : WinOp (list Window)
| SetForegroundWindow (hwnd : Z) : WinOp unit
| IsWindow (hwnd : Z) : WinOp bool
| IsWindowVisible (hwnd : Z) : WinOp bool.

(** What the helpers need of the world besides its operations: the window
    calls and the clock ([time.time()], in seconds). *)
Class Desktop {Sigma : World} := {
  handle_win : forall A, WinOp A -> W -> W * result A;
  time_time : W -> Q
}.

(** [NOTEPAD_LAUNCH_TIMEOUT] of [src/config.py]. *)
Class LaunchConfig := {
  NOTEPAD_LAUNCH_TIMEOUT : Z
}.

Definition text_eqb (a b : text) : bool :=
  if list_eq_dec Ascii.ascii_dec a b then true else false.

Section Automation.
Context {Sigma : World} {desk : Desktop} {lcfg : LaunchConfig}.

Definition win {A} (op : WinOp A) : M A :=
  fun st =>
    let (w', r) := handle_win op (world st) in
    ({| world := w';
        trace := trace st;
        _grounding_disabled := _grounding_disabled st |}, r).

(** [time.time()] *)
Definition now : M Q := fun st => (st, Return (time_time (world st))).

(** The test of [_callback]. *)
Definition title_matches (partial_title : text) (w : Window) : bool :=
  w_visible w
  && (contains (lower partial_title) (lower (w_title w))
      && negb (contains (txt "antigravity") (lower (w_title w)))).

(** [result] after the enumeration. *)
Definition matching_windows (partial_title : text) (windows : list Window)
  : list Z :=
  map w_hwnd (filter (title_matches partial_title) windows).

Definition _find_window_by_partial_title (partial_title : text)
  : M (option Z) :=
  windows <- win EnumWindows ;;
  ret (hd_error (matching_windows partial_title windows)).

(** The message of the [TimeoutError]: it shows [timeout or
    NOTEPAD_LAUNCH_TIMEOUT]. *)
Definition timeout_shown (timeout : option Z) : Z :=
  match timeout with
  | Some t => if t =? 0 then NOTEPAD_LAUNCH_TIMEOUT else t
  | None => NOTEPAD_LAUNCH_TIMEOUT
  end.

Definition window_not_found (title_pattern : text) (timeout : option Z)
  : exn :=
  Raised TimeoutError
         ("Window containing '" ++ string_of_list_ascii title_pattern
          ++ "' not found within "
          ++ string_of_list_ascii (str_of_Z (timeout_shown timeout)) ++ "s").

(** The [while time.time() < deadline] loop, cut after [fuel] passes:
    [None] stands for a loop that is still running then. *)
Fixpoint wait_loop (fuel : nat) (title_pattern : text) (timeout : option Z)
         (deadline : Q) (poll_interval : Q) : M (option Z) :=
  match fuel with
  | O => ret None
  | S fuel' =>
      t <- now ;;
      if Qle_bool deadline t
      then raise (window_not_found title_pattern timeout)
      else
        hwnd <- _find_window_by_partial_title title_pattern ;;
        match hwnd with
        | Some h =>
            if h =? 0
            then sleep poll_interval ;;
                 wait_loop fuel' title_pattern timeout deadline poll_interval
            else _ <- call (GetWindowText h) ;; ret (Some h)
        | None =>
            sleep poll_interval ;;
            wait_loop fuel' title_pattern timeout deadline poll_interval
        end
  end.

Definition wait_for_window (fuel : nat) (title_pattern : text)
           (timeout : option Z) (poll_interval : Q) : M (option Z) :=
  t0 <- now ;;
  let deadline :=
    (t0 + inject_Z (match timeout with
                    | Some t => t
                    | None => NOTEPAD_LAUNCH_TIMEOUT
                    end))%Q in
  wait_loop fuel title_pattern timeout deadline poll_interval.

(** The test of [_find_dialogs]: a visible window of the dialog class. *)
Definition is_dialog (w : Window) : bool :=
  w_visible w && text_eqb (w_class w) (txt "#32770").

(** The body of [for dhwnd in dialog_hwnds]: what it adds to
    [dismissed]. *)
Definition dismiss_dialog (pause : Q) (dhwnd : Z) : M Z :=
  _ <- call (GetWindowText dhwnd) ;;
  try_except
    (win (SetForegroundWindow dhwnd) ;;
     sleep (2 # 10) ;;
     call (Press (key "enter")) ;;
     sleep pause ;;
     ret 1)
    (fun _ => ret 0).

Fixpoint dismiss_each (pause : Q) (dialog_hwnds : list Z) (dismissed : Z)
  : M Z :=
  match dialog_hwnds with
  | [] => ret dismissed
  | dhwnd :: rest =>
      n <- dismiss_dialog pause dhwnd ;;
      dismiss_each pause rest (dismissed + n)
  end.

(** [for _ in range(max_dismissals)] with its [break]. *)
Fixpoint dismiss_rounds (rounds : list Z) (pause : Q) (dismissed : Z)
  : M Z :=
  match rounds with
  | [] => ret dismissed
  | _ :: rest =>
      windows <- win EnumWindows ;;
      match map w_hwnd (filter is_dialog windows) with
      | [] => ret dismissed
      | dialog_hwnds =>
          dismissed' <- dismiss_each pause dialog_hwnds dismissed ;;
          dismiss_rounds rest pause dismissed'
      end
  end.

Definition dismiss_notepad_dialogs (max_dismissals : Z) (pause : Q) : M Z :=
  dismiss_rounds (range 0 max_dismissals) pause 0.

(** [for _ in range(20)] of [close_all_notepad_windows]; the result is
    [closed]. *)
Fixpoint close_rounds (rounds : list Z) (closed : Z) : M Z :=
  match rounds with
  | [] => ret closed
  | _ :: rest =>
      hwnd <- _find_window_by_partial_title (txt "Notepad") ;;
      match hwnd with
      | None => ret closed
      | Some h =>
          _ <- call (GetWindowText h) ;;
          focus_window h ;;
          sleep (2 # 10) ;;
          call (Hotkey [key "alt"; key "f4"]) ;;
          sleep (5 # 10) ;;
          dismiss_notepad_dialogs 3 (3 # 10) ;;
          sleep (3 # 10) ;;
          still <- win (IsWindow h) ;;
          shown <- (if still : bool then win (IsWindowVisible h)
                    else ret false) ;;
          (if shown : bool
           then try_except
                  (focus_window h ;;
                   call (Hotkey [key "alt"; key "n"]) ;;
                   sleep (5 # 10))
                  (fun _ => ret tt)
           else ret tt) ;;
          close_rounds rest (closed + 1)
      end
  end.

Definition close_all_notepad_windows : M unit :=
  close_rounds (range 0 20) 0 ;; ret tt.
End Automation.

(** The clock never runs backwards over a window call, and a sleep lasts at
    least as long as asked. *)
Definition clock_advances {Sigma : World} {desk : Desktop} : Prop :=
  (forall d w, (0 <= d)%Q -> (time_time w + d <= time_time (elapse d w))%Q) /\
  (forall A (op : WinOp A) w,
      (time_time w <= time_time (fst (handle_win op w)))%Q).

(** A world that is its own clock: operations take no time and answer by
    default, a sleep takes the time asked for. *)
Definition world_clock : World :=
  {| W := Q;
     handle := fun A op t => (t, Return (default_answer op));
     elapse := fun d t => (t + d)%Q;
     fs := fun _ _ => None;
     os_path_join := fun d f => d ++ txt "/" ++ f |}.

(** The desktop shows the same windows at every enumeration. *)
Definition desktop_with (windows : list Window) : @Desktop world_clock :=
  @Build_Desktop world_clock
    (fun A op (t : Q) =>
       (t, match op in WinOp T return result T with
           | EnumWindows => Return windows
           | SetForegroundWindow _ => Return tt
           | IsWindow _ => Return true
           | IsWindowVisible _ => Return true
           end))
    (fun t : Q => t).

Definition launch_config_15 : LaunchConfig :=
  {| NOTEPAD_LAUNCH_TIMEOUT := 15 |}.

Definition notepad_window : Window :=
  {| w_hwnd := 4242; w_visible := true;
     w_title := txt "Untitled - Notepad"; w_class := txt "Notepad" |}.


(** A key press that was made ([pyautogui.press] returned). *)
Definition is_key_pressed (e : Event) : bool :=
  match e with
  | EvCall op (Return _) => match op with Press _ => true | _ => false end
  | _ => false
  end.

(** Alt+F4 was sent (or the attempt to send it was made). *)
Definition is_alt_f4 (e : Event) : bool :=
  match e with
  | EvCall op _ =>
      match op with
      | Hotkey [a; b] => text_eqb a (key "alt") && text_eqb b (key "f4")
      | _ => false
      end
  | EvSleep _ => false
  end.

Section VocabularyKeys.
Context {Sigma : World}.

Definition key_presses (st : State) : nat := count is_key_pressed (trace st).

Definition alt_f4_sent (st : State) : nat := count is_alt_f4 (trace st).
End VocabularyKeys.

(* ================================================================== *)
(** * Annotated screenshots ([src/screenshot.py]) and the engine's
      backend ([src/grounding.py]) *)
(* ================================================================== *)

Definition backslash : ascii := ascii_of_N 92.

(** [str.isalnum] on code points < 256. *)
Definition is_alnum (c : ascii) : bool :=
  let n := code c in
  ((48 <=? n) && (n <=? 57) || (65 <=? n) && (n <=? 90)
   || (97 <=? n) && (n <=? 122)
   || (n =? 170) || (n =? 178) || (n =? 179) || (n =? 181)
   || (n =? 185) || (n =? 186) || (188 <=? n) && (n <=? 190)
   || (192 <=? n) && (n <=? 214) || (216 <=? n) && (n <=? 246)
   || (248 <=? n) && (n <=? 255))%N.

(** ["".join(c if c.isalnum() else "_" for c in description[:30])] *)
Definition safe_desc (description : text) : text :=
  map (fun c => if is_alnum c then c else "_"%char) (firstn 30 description).

(** [f"({x}, {y})  {description[:60]}"] *)
Definition annotation_label (x y : Z) (description : text) : text :=
  txt "(" ++ str_of_Z x ++ txt ", " ++ str_of_Z y ++ txt ")  "
      ++ firstn 60 description.

(** The name of the image file inside [SCREENSHOTS_DIR], for the time
    stamp [ts]: [f"{ts}_{safe_desc}.png"]. *)
Definition annotation_filename (ts : text) (description : text) : text :=
  ts ++ txt "_" ++ safe_desc description ++ txt ".png".

(** [GroundingEngine.__init__]: the choice of the backend from the setting
    [GROUNDING_BACKEND] ([None] when the variable is not set);
    [vllm_client] is what constructing [_VLLMBackend] does. *)
Definition GroundingEngine__init__ (GROUNDING_BACKEND : option text)
           (vllm_client : result unit) : result GroundingEngine :=
  match GROUNDING_BACKEND with
  | None =>
      Raise (Raised (Derived "AttributeError" Exception_)
                    "'NoneType' object has no attribute 'lower'")
  | Some setting =>
      if text_eqb (lower setting) (txt "vllm")
      then rbind vllm_client (fun _ => Return {| _backend := VLLMBackend |})
      else Return {| _backend := LocalBackend |}
  end.

(** The double nearest to [n / 1000] is within half a unit in the last
    place of it: it is [mq * 2^eq] with [eq <= -53] and
    [|mq * 1000 - n * 2^(-eq)| <= 500]. *)
Definition quotient_close (n : Z) : bool :=
  match py_truediv n 1000 with
  | Return (Finite mq eq) =>
      (eq <=? -53) && (0 <? mq)
      && (2 * Z.abs (mq * 1000 - n * 2 ^ (- eq)) <=? 1000)
  | _ => false
  end.

Definition fail_safe : exn :=
  Raised (Derived "FailSafeException" Exception_)
         "PyAutoGUI fail-safe triggered".

(** Everything works and the file is saved, but Alt+F4 cannot be sent. *)
Definition world_close_fails : World :=
  scripted (fun _ A op =>
              match op in Op T return result T with
              | Hotkey [a; b] =>
                  if text_eqb b (key "f4") then Raise fail_safe
                  else Return tt
              | op' => Return (default_answer op')
              end)
           (fun _ _ => Some (File 42)).

(* ================================================================== *)
(** * The run over the posts as they arrive ([main.py], [src/api.py]) *)
(* ================================================================== *)

(** A value of a post.  The program stores it or formats it with [str];
    [JOther] is any value that is neither an integer nor a string, given
    by its [str]. *)
Inductive json_value :=
| JInt (n : Z)
| JStr (s : text)
| JOther (shown : text).

Definition py_str (v : json_value) : text :=
  match v with
  | JInt n => str_of_Z n
  | JStr s => s
  | JOther shown => shown
  end.

(** An element of the list that [fetch_posts] returns: nothing checks that
    it is a dict, nor which keys it has. *)
Inductive api_item :=
| ItemDict (fields : list (text * json_value))
| ItemOther (complaint : string).   (* not a dict: [TypeError(complaint)] *)

Definition KeyError : exn_class :=
  Derived "KeyError" (Derived "LookupError" Exception_).

Fixpoint dict_get (fields : list (text * json_value)) (k : text)
  : option json_value :=
  match fields with
  | [] => None
  | (k', v) :: rest => if text_eqb k' k then Some v else dict_get rest k
  end.

(** [post[k]] *)
Definition subscript (post : api_item) (k : string) : result json_value :=
  match post with
  | ItemDict fields =>
      match dict_get fields (txt k) with
      | Some v => Return v
      | None => Raise (Raised KeyError ("'" ++ k ++ "'"))
      end
  | ItemOther complaint => Raise (Raised TypeError complaint)
  end.

Section ProgramOnDicts.
Context {Sigma : World} {cfg : Config}.

(** [f"Title: {post['title']}\n\n{post['body']}"] *)
Definition format_post_content_dict (post : api_item) : result text :=
  rbind (subscript post "title") (fun title =>
  rbind (subscript post "body") (fun body =>
  Return (txt "Title: " ++ py_str title ++ [newline; newline] ++ py_str body))).

(** [f"post_{post['id']}.txt"] *)
Definition post_filename_dict (post : api_item) : result text :=
  rbind (subscript post "id") (fun id =>
  Return (txt "post_" ++ py_str id ++ txt ".txt")).

(** [type_post_content] from the point where the content is known. *)
Definition type_content (content : text) : M unit :=
  try_except (clipboard_path content) (fun _ => type_text content) ;;
  sleep (3 # 10).

Definition type_post_content_dict (post : api_item) : M unit :=
  content <- lift (format_post_content_dict post) ;;
  lift (subscript post "id") ;;
  type_content content.

(** [save_post] from the point where the file name is known. *)
Definition save_named (fname target_dir : text) : M bool :=
  full_path <- save_file_as fname target_dir ;;
  is_file <- os_path_isfile full_path ;;
  nonempty <- (if is_file : bool
               then size <- os_path_getsize full_path ;; ret (0 <? size)
               else ret false) ;;
  if nonempty : bool
  then _ <- os_path_getsize full_path ;; ret true
  else ret false.

Definition save_post_dict (post : api_item) (target_dir : text) : M bool :=
  fname <- lift (post_filename_dict post) ;;
  save_named fname target_dir.

Record DictResult := { dict_result_id : json_value; dict_status : Status }.

Definition dict_is_ok (r : DictResult) : bool :=
  match dict_status r with ok => true | error _ => false end.

(** The [try] block of the loop body of [main]. *)
Definition item_try_dict (engine : GroundingEngine) (post : api_item)
           (post_id : json_value) : M DictResult :=
  hwnd <- launch_notepad engine ;;
  type_post_content_dict post ;;
  saved <- save_post_dict post TARGET_DIR ;;
  close_notepad (Some hwnd) ;;
  if saved : bool
  then ret {| dict_result_id := post_id; dict_status := ok |}
  else ret {| dict_result_id := post_id;
              dict_status := error SaveNotVerified |}.

Definition item_except_dict (post_id : json_value) (exc : exn)
  : M DictResult :=
  if isinstance exc TimeoutError
  then ret {| dict_result_id := post_id; dict_status := error (Because exc) |}
  else if isinstance exc RuntimeError
  then ret {| dict_result_id := post_id; dict_status := error (Because exc) |}
  else ret {| dict_result_id := post_id; dict_status := error (Because exc) |}.

(** The loop body: [post_id = post["id"]] comes before the [try]. *)
Definition process_post_dict (engine : GroundingEngine) (post : api_item)
  : M DictResult :=
  post_id <- lift (subscript post "id") ;;
  r <- try_except (item_try_dict engine post post_id)
                  (item_except_dict post_id) ;;
  (if dict_is_ok r
   then ret tt
   else try_except (close_notepad None) (fun _ => ret tt)) ;;
  ret r.

(** The [for idx, post in enumerate(posts, start=1)] loop of [main]. *)
Fixpoint run_posts_dict (engine : GroundingEngine) (posts : list api_item)
         (results : list DictResult) : M (list DictResult) :=
  match posts with
  | [] => ret results
  | post :: rest =>
      r <- process_post_dict engine post ;;
      sleep 1 ;;
      run_posts_dict engine rest (results ++ [r])
  end.
End ProgramOnDicts.

(** A post as the fallback data has it. *)
Definition dict_of_post (user_id : Z) (post : Post) : api_item :=
  ItemDict [(txt "userId", JInt user_id);
            (txt "id", JInt (post_id post));
            (txt "title", JStr (post_title post));
            (txt "body", JStr (post_body post))].

Definition dict_result_of (r : RunResult) : DictResult :=
  {| dict_result_id := JInt (result_id r); dict_status := status r |}.

(** The item has a value under ["id"]. *)
Definition has_id (post : api_item) : Prop :=
  exists v, subscript post "id" = Return v.

(** A post without ["id"]. *)
Definition post_without_id : api_item :=
  ItemDict [(txt "title", JStr (txt "No id")); (txt "body", JStr (txt "x"))].

(* ================================================================== *)
(** * Facts about the program monad *)
(* ================================================================== *)

Section MonadFacts.
Context {Sigma : World} {cfg : Config}.

Lemma bind_Return A B (m : M A) (f : A -> M B) st st1 a :
  m st = (st1, Return a) -> bind m f st = f a st1.
Proof. unfold bind. intros ->. reflexivity. Qed.

Lemma bind_Raise A B (m : M A) (f : A -> M B) st st1 e :
  m st = (st1, Raise e) -> bind m f st = (st1, Raise e).
Proof. unfold bind. intros ->. reflexivity. Qed.

Lemma bind_ext_at A B (m : M A) (f g : A -> M B) st :
  (forall a st1, m st = (st1, Return a) -> f a st1 = g a st1) ->
  bind m f st = bind m g st.
Proof.
  intros H. unfold bind. destruct (m st) as [st1 [a | e]]; auto.
Qed.

Lemma bind_ext_fun A B (m m' : M A) (f : A -> M B) st :
  m st = m' st -> bind m f st = bind m' f st.
Proof. unfold bind. intros ->. reflexivity. Qed.

Lemma bind_inv A B (m : M A) (f : A -> M B) st st' r :
  bind m f st = (st', r) ->
  (exists st1 a, m st = (st1, Return a) /\ f a st1 = (st', r)) \/
  (exists e, m st = (st', Raise e) /\ r = Raise e).
Proof.
  unfold bind. destruct (m st) as [st1 [a | e]]; intros H.
  - left. eauto.
  - right. inversion H; subst. eauto.
Qed.

Lemma try_except_inv A (m : M A) (h : exn -> M A) st st' r :
  try_except m h st = (st', r) ->
  (exists a, m st = (st', Return a) /\ r = Return a) \/
  (exists st1 e, m st = (st1, Raise e) /\ h e st1 = (st', r)).
Proof.
  unfold try_except. destruct (m st) as [st1 [a | e]]; intros H.
  - left. inversion H; subst. eauto.
  - right. eauto.
Qed.

(** ** Computations that respect the degradation flag *)

Lemma dq_ret A (a : A) : degraded_quiet (ret a).
Proof. intros st st' r H Hf. inversion H; subst. auto. Qed.

Lemma dq_raise A e : degraded_quiet (@raise _ A e).
Proof. intros st st' r H Hf. inversion H; subst. auto. Qed.

Lemma dq_lift A (x : result A) : degraded_quiet (lift x).
Proof. intros st st' r H Hf. inversion H; subst. auto. Qed.

Lemma dq_bind A B (m : M A) (f : A -> M B) :
  degraded_quiet m -> (forall a, degraded_quiet (f a)) ->
  degraded_quiet (bind m f).
Proof.
  intros Hm Hf st st' r H Hd.
  destruct (bind_inv _ _ _ H) as [(st1 & a & H1 & H2) | (e & H1 & ->)].
  - destruct (Hm _ _ _ H1 Hd) as [Hd1 Hc1].
    destruct (Hf a _ _ _ H2 Hd1) as [Hd2 Hc2].
    split; [assumption | congruence].
  - exact (Hm _ _ _ H1 Hd).
Qed.

Lemma dq_try_except A (m : M A) (h : exn -> M A) :
  degraded_quiet m -> (forall e, degraded_quiet (h e)) ->
  degraded_quiet (try_except m h).
Proof.
  intros Hm Hh st st' r H Hd.
  destruct (try_except_inv _ _ _ H) as [(a & H1 & ->) | (st1 & e & H1 & H2)].
  - exact (Hm _ _ _ H1 Hd).
  - destruct (Hm _ _ _ H1 Hd) as [Hd1 Hc1].
    destruct (Hh e _ _ _ H2 Hd1) as [Hd2 Hc2].
    split; [assumption | congruence].
Qed.

Lemma dq_try_except_class A (m : M A) c (h : exn -> M A) :
  degraded_quiet m -> (forall e, degraded_quiet (h e)) ->
  degraded_quiet (try_except_class m c h).
Proof.
  intros Hm Hh. apply dq_try_except; [assumption |].
  intros e. destruct (isinstance e c); [apply Hh | apply dq_raise].
Qed.

Lemma dq_call A (op : Op A) :
  is_infer (EvCall op (Raise NegativeSleep)) = false ->
  degraded_quiet (call op).
Proof.
  intros Hop st st' r H Hd. unfold call in H.
  destruct (handle op (world st)) as [w' r'] eqn:E.
  inversion H; subst; clear H. split; [assumption |].
  unfold backend_invocations, count. simpl.
  destruct op; simpl in *; try reflexivity; discriminate.
Qed.

Lemma dq_sleep d : degraded_quiet (sleep d).
Proof.
  intros st st' r H Hd. unfold sleep in H.
  destruct (Qle_bool 0 d); inversion H; subst; auto.
Qed.

Lemma dq_isfile p : degraded_quiet (os_path_isfile p).
Proof. intros st st' r H Hd. inversion H; subst. auto. Qed.

Lemma dq_getsize p : degraded_quiet (os_path_getsize p).
Proof. intros st st' r H Hd. inversion H; subst. auto. Qed.

Lemma dq_set_true : degraded_quiet (set_grounding_disabled true).
Proof. intros st st' r H Hd. inversion H; subst. auto. Qed.
End MonadFacts.

Create HintDb dq.

#[local] Hint Resolve dq_ret dq_raise dq_lift dq_sleep dq_isfile dq_getsize
  dq_set_true : dq.

(** Walks through a computation built from binds, handlers and operations
    other than the model. *)
Ltac dq_step :=
  lazymatch goal with
  | |- degraded_quiet (bind _ _) => apply dq_bind; [| intros ? ]
  | |- degraded_quiet (try_except_class _ _ _) =>
      apply dq_try_except_class; [| intros ? ]
  | |- degraded_quiet (try_except _ _) => apply dq_try_except; [| intros ? ]
  | |- degraded_quiet (call _) => apply dq_call; reflexivity
  | |- degraded_quiet (match ?x with _ => _ end) => destruct x
  | |- degraded_quiet _ => solve [ auto with dq ]
  end.

Ltac dq_auto := repeat dq_step.

(* ================================================================== *)
(** * The degradation flag *)
(* ================================================================== *)

Section Degradation.
Context {Sigma : World} {cfg : Config}.

Lemma dq_focus_window hwnd : degraded_quiet (focus_window hwnd).
Proof. unfold focus_window. dq_auto. Qed.
Hint Resolve dq_focus_window : dq.

Lemma dq_launch_subprocess : degraded_quiet _launch_notepad_subprocess.
Proof. unfold _launch_notepad_subprocess. dq_auto. Qed.
Hint Resolve dq_launch_subprocess : dq.

Lemma dq_forced_clean_launch : degraded_quiet forced_clean_launch.
Proof. unfold forced_clean_launch. dq_auto. Qed.

Lemma dq_verify_attempt : degraded_quiet verify_attempt.
Proof. unfold verify_attempt. dq_auto. Qed.

Lemma dq_verify_loop attempts : degraded_quiet (verify_loop attempts).
Proof.
  induction attempts as [| a rest IH]; simpl.
  - apply dq_forced_clean_launch.
  - apply dq_bind; [apply dq_verify_attempt |].
    intros [h |]; [apply dq_ret | exact IH].
Qed.
Hint Resolve dq_verify_loop : dq.

Lemma dq_launch_phase engine : degraded_quiet (launch_phase engine).
Proof.
  intros st st' r H Hd. unfold launch_phase, bind, get_grounding_disabled in H.
  rewrite Hd in H. exact (dq_launch_subprocess _ H Hd).
Qed.
Hint Resolve dq_launch_phase : dq.

Lemma dq_launch_notepad engine : degraded_quiet (launch_notepad engine).
Proof. unfold launch_notepad, verify_blank_document. dq_auto. Qed.

Lemma dq_type_post_content post : degraded_quiet (type_post_content post).
Proof. unfold type_post_content, type_text. dq_auto. Qed.

Lemma dq_confirm_overwrite attempts : degraded_quiet (confirm_overwrite attempts).
Proof.
  induction attempts as [| a rest IH]; simpl; dq_auto.
Qed.
Hint Resolve dq_confirm_overwrite : dq.

Lemma dq_save_file_as f d : degraded_quiet (save_file_as f d).
Proof. unfold save_file_as. dq_auto. Qed.
Hint Resolve dq_save_file_as : dq.

Lemma dq_save_post post d : degraded_quiet (save_post post d).
Proof. unfold save_post. dq_auto. Qed.

Lemma dq_close_notepad hwnd : degraded_quiet (close_notepad hwnd).
Proof. unfold close_notepad, close_window. dq_auto. Qed.
Hint Resolve dq_launch_notepad dq_type_post_content dq_save_post
  dq_close_notepad : dq.

Lemma dq_process_post engine post : degraded_quiet (process_post engine post).
Proof.
  unfold process_post, item_try, item_except. dq_auto.
Qed.

Lemma dq_run_posts engine posts :
  forall results, degraded_quiet (run_posts engine posts results).
Proof.
  induction posts as [| post rest IH]; intros results; simpl.
  - apply dq_ret.
  - apply dq_bind; [apply dq_process_post |]. intros r.
    apply dq_bind; [apply dq_sleep |]. intros _. apply IH.
Qed.

Lemma launch_phase_when_disabled engine st :
  _grounding_disabled st = true ->
  launch_phase engine st = _launch_notepad_subprocess st.
Proof.
  intros Hd. unfold launch_phase. unfold bind at 1.
  unfold get_grounding_disabled. rewrite Hd. reflexivity.
Qed.

Lemma launch_notepad_when_disabled engine st :
  _grounding_disabled st = true ->
  launch_notepad engine st = subprocess_launch st.
Proof.
  intros Hd. unfold launch_notepad, subprocess_launch.
  apply bind_ext_at. intros [] st1 H1.
  assert (Hd1 : _grounding_disabled st1 = true).
  { refine (proj1 (dq_call _ _ _ H1 Hd)). reflexivity. }
  apply bind_ext_fun. apply launch_phase_when_disabled. exact Hd1.
Qed.

(** C1. Once the degradation flag is set it stays set for the rest of the
    run, the remaining work items never invoke the grounding backend
    (the count of backend invocations does not move), and every launch
    made while it is set is the direct subprocess launch. *)
Theorem degradation_flag_monotonic engine posts results st st' r :
  _grounding_disabled st = true ->
  run_posts engine posts results st = (st', r) ->
  _grounding_disabled st' = true /\
  backend_invocations st' = backend_invocations st /\
  (forall s, _grounding_disabled s = true ->
             launch_notepad engine s = subprocess_launch s).
Proof.
  intros Hd Hrun.
  destruct (dq_run_posts engine posts results _ Hrun Hd) as [H1 H2].
  split; [exact H1 |]. split; [exact H2 |].
  intros s Hs. apply launch_notepad_when_disabled. exact Hs.
Qed.
End Degradation.

Lemma degradation_flag_monotonic_witness :
  let st := @degraded_state world_ok 0%nat in
  let out := @run_posts world_ok config_1080p engine0 [post1] [] st in
  _grounding_disabled st = true /\
  _grounding_disabled (fst out) = true /\
  backend_invocations (fst out) = backend_invocations st.
Proof.
  intros st out. split; [reflexivity |].
  destruct (@degradation_flag_monotonic world_ok config_1080p engine0
              [post1] [] st (fst out) (snd out) eq_refl
              (surjective_pairing out)) as (H1 & H2 & _).
  exact (conj H1 H2).
Defined.

(* ================================================================== *)
(** * Save verification *)
(* ================================================================== *)

(** Splits a hypothesis [bind m f st = (st', Return v)] into the run of [m]
    and the run of [f]. *)
Ltac bind_ok H :=
  let st1 := fresh "st" in
  let a := fresh "a" in
  let H1 := fresh "H" in
  let e := fresh "e" in
  apply bind_inv in H;
  destruct H as [(st1 & a & H1 & H) | (e & H1 & H)]; [| discriminate H].

Section SaveVerification.
Context {Sigma : World} {cfg : Config}.

Lemma file_nonempty_b_spec w p :
  file_nonempty_b w p = true <-> file_nonempty w p.
Proof.
  unfold file_nonempty_b, file_nonempty.
  destruct (fs w p) as [[n | n] |]; split.
  - intros H. exists n. split; [reflexivity | lia].
  - intros (m & Hm & Hpos). inversion Hm; subst. apply Z.ltb_lt. exact Hpos.
  - discriminate.
  - intros (m & Hm & _). discriminate.
  - discriminate.
  - intros (m & Hm & _). discriminate.
Qed.

Lemma save_file_as_returns filename directory st st' p :
  save_file_as filename directory st = (st', Return p) ->
  p = os_path_join directory filename.
Proof.
  unfold save_file_as. intros H.
  repeat bind_ok H. inversion H. reflexivity.
Qed.

(** [save_post] is the save action followed by the check of the disk. *)
Lemma save_post_unfold post target_dir st :
  save_post post target_dir st =
  match save_file_as (post_filename post) target_dir st with
  | (st1, Return p) => (st1, Return (file_nonempty_b (world st1) p))
  | (st1, Raise e) => (st1, Raise e)
  end.
Proof.
  unfold save_post. unfold bind at 1.
  destruct (save_file_as (post_filename post) target_dir st) as [st1 [p | e]];
    [| reflexivity].
  unfold bind, os_path_isfile, os_path_getsize, ret, file_nonempty_b.
  destruct (fs (world st1) p) as [[n | n] |] eqn:E;
    cbv beta iota zeta; rewrite ?E; cbv beta iota zeta; try reflexivity.
  destruct (0 <? n); cbv beta iota zeta; rewrite ?E; reflexivity.
Qed.

Lemma save_post_checks_disk post target_dir st st' b :
  save_post post target_dir st = (st', Return b) ->
  (b = true <->
   file_nonempty (world st') (os_path_join target_dir (post_filename post))).
Proof.
  rewrite save_post_unfold.
  destruct (save_file_as (post_filename post) target_dir st)
    as [st1 [p | e]] eqn:E; intros H; inversion H; subst; clear H.
  apply save_file_as_returns in E. subst p. apply file_nonempty_b_spec.
Qed.

Lemma item_except_is_error post exc st st' r :
  item_except post exc st = (st', r) ->
  exists x, r = Return x /\ status x = error (Because exc).
Proof.
  unfold item_except, ret. intros H.
  destruct (isinstance exc TimeoutError);
    [| destruct (isinstance exc RuntimeError)];
    inversion H; subst; eexists; split; reflexivity.
Qed.

(** The [try] statement of an item always completes: whatever is raised
    inside is recorded in the item's result. *)
Lemma process_post_returns engine post st :
  exists st' r, process_post engine post st = (st', Return r).
Proof.
  unfold process_post.
  destruct (try_except (item_try engine post) (item_except post) st)
    as [st1 [r | e]] eqn:E.
  - erewrite bind_Return by exact E.
    destruct (is_ok r).
    + unfold bind, ret. eauto.
    + unfold bind at 1.
      destruct (try_except (close_notepad None) (fun _ => ret tt) st1)
        as [st2 [[] | e]] eqn:E2.
      * unfold ret. eauto.
      * apply try_except_inv in E2.
        destruct E2 as [(a & _ & Ha) | (st3 & e3 & _ & Hh)]; discriminate.
  - apply try_except_inv in E.
    destruct E as [(a & _ & Ha) | (st3 & e3 & _ & Hh)]; [discriminate |].
    apply item_except_is_error in Hh. destruct Hh as (x & Hx & _).
    discriminate.
Qed.

(** C7. [save_post] reports success exactly when, after the save action,
    the destination file exists on disk with a size greater than zero;
    and an item is reported [ok] only when that check of the disk
    succeeded, so a save that left a zero-byte file makes the item fail
    whether or not a dialog or an error showed up. *)
Theorem save_verified_on_disk engine post target_dir st st' b :
  save_post post target_dir st = (st', Return b) ->
  (b = true <->
   file_nonempty (world st') (os_path_join target_dir (post_filename post))) /\
  (forall s s' r,
      process_post engine post s = (s', Return r) ->
      status r = ok ->
      exists s1 s2,
        save_post post TARGET_DIR s1 = (s2, Return true) /\
        file_nonempty (world s2)
                      (os_path_join TARGET_DIR (post_filename post))) /\
  (forall s s' r,
      item_try engine post s = (s', Return r) ->
      exists s1 s2 saved,
        save_post post TARGET_DIR s1 = (s2, Return saved) /\
        status r = if saved then ok else error SaveNotVerified).
Proof.
  intros Hsave. split; [exact (save_post_checks_disk _ _ _ Hsave) |].
  assert (Htry : forall s s' r,
             item_try engine post s = (s', Return r) ->
             exists s1 s2 saved,
               save_post post TARGET_DIR s1 = (s2, Return saved) /\
               status r = if saved then ok else error SaveNotVerified).
  { intros s s' r H. unfold item_try in H. repeat bind_ok H.
    exists st1, st2, a1. split; [assumption |].
    destruct a1; inversion H; reflexivity. }
  split; [| exact Htry].
  intros s s' r H Hok. unfold process_post in H. repeat bind_ok H.
  inversion H; subst; clear H.
  apply try_except_inv in H0.
  destruct H0 as [(a & Ha & Hr) | (st3 & e3 & _ & Hh)].
  - inversion Hr; subst. destruct (Htry _ _ _ Ha) as (s1 & s2 & saved & Hs & Hst).
    destruct saved; [| rewrite Hok in Hst; discriminate].
    exists s1, s2. split; [assumption |].
    apply (save_post_checks_disk _ _ _ Hs). reflexivity.
  - apply item_except_is_error in Hh. destruct Hh as (x & Hx & Hst).
    inversion Hx; subst. rewrite Hok in Hst. discriminate.
Qed.
End SaveVerification.

Lemma save_verified_on_disk_witness :
  let st := @initial_state world_zero_byte 0%nat in
  let out := @save_post world_zero_byte post1 (txt "out") st in
  snd out = Return false /\
  ~ @file_nonempty world_zero_byte (@world world_zero_byte (fst out))
      (@os_path_join world_zero_byte (txt "out") (post_filename post1)).
Proof.
  intros st out. split; [reflexivity |].
  destruct (@save_verified_on_disk world_zero_byte config_1080p engine0 post1
              (txt "out") st (fst out) false eq_refl) as (H & _).
  intros Hne. apply H in Hne. discriminate Hne.
Defined.

(* ================================================================== *)
(** * The retry loop of the grounding engine *)
(* ================================================================== *)

Section Lists.

Lemma range_nil a b : b <= a -> range a b = [].
Proof.
  intros H. unfold range. replace (Z.to_nat (b - a)) with 0%nat by lia.
  reflexivity.
Qed.

Lemma range_cons a b : a < b -> range a b = a :: range (a + 1) b.
Proof.
  intros H. unfold range.
  replace (Z.to_nat (b - a)) with (S (Z.to_nat (b - (a + 1)))) by lia.
  simpl. f_equal; [lia |].
  rewrite <- seq_shift, map_map. apply map_ext. intros i. lia.
Qed.

Lemma range_length a b : List.length (range a b) = Z.to_nat (b - a).
Proof. unfold range. rewrite length_map, length_seq. reflexivity. Qed.

Lemma count_cons p e tr :
  count p (e :: tr) = ((if p e then 1 else 0) + count p tr)%nat.
Proof. unfold count. simpl. destruct (p e); reflexivity. Qed.

End Lists.

Section RetryLoop.
Context {Sigma : World} {cfg : Config}.

Lemma call_inv A (op : Op A) st st' r :
  call op st = (st', r) ->
  trace st' = EvCall op r :: trace st /\
  _grounding_disabled st' = _grounding_disabled st /\
  exists w', handle op (world st) = (w', r) /\ world st' = w'.
Proof.
  unfold call. destruct (handle op (world st)) as [w' r'].
  intros H. inversion H; subst. simpl. eauto.
Qed.

Lemma sleep_ok d st :
  Qle_bool 0 d = true ->
  exists st', sleep d st = (st', Return tt) /\
              trace st' = EvSleep d :: trace st /\
              _grounding_disabled st' = _grounding_disabled st.
Proof. intros H. unfold sleep. rewrite H. eexists. simpl. eauto. Qed.

Lemma sleep_inv d st st' r :
  sleep d st = (st', r) ->
  (r = Return tt /\ trace st' = EvSleep d :: trace st) \/
  (r = Raise NegativeSleep /\ st' = st).
Proof.
  unfold sleep. destruct (Qle_bool 0 d); intros H; inversion H; subst; auto.
Qed.

(** One invocation of a backend runs the model exactly once. *)
Lemma backend_ground_invokes_once b img description st st' r :
  backend_ground b img description st = (st', r) ->
  backend_invocations st' = S (backend_invocations st).
Proof.
  unfold backend_ground. intros H.
  apply bind_inv in H. destruct H as [(st1 & t & H1 & H) | (e & H1 & _)].
  - apply call_inv in H1. destruct H1 as (Ht & _).
    assert (st' = st1).
    { unfold bind, lift in H.
      destruct (_parse_coordinates t) as [[nx ny] | e]; inversion H; reflexivity. }
    subst st1. unfold backend_invocations. rewrite Ht, count_cons. reflexivity.
  - apply call_inv in H1. destruct H1 as (Ht & _).
    unfold backend_invocations. rewrite Ht, count_cons. reflexivity.
Qed.

Lemma capture_not_invocation st st' (r : result Image) :
  call CaptureDesktop st = (st', r) ->
  backend_invocations st' = backend_invocations st.
Proof.
  intros H. apply call_inv in H. destruct H as (Ht & _).
  unfold backend_invocations. rewrite Ht, count_cons. reflexivity.
Qed.


(** What the handler of the loop does with the exception of an attempt. *)
Lemma retry_loop_handles self description screenshot retries
      attempt rest last st st1 e :
  attempt_body self description screenshot attempt st = (st1, Raise e) ->
  retry_loop self description screenshot retries (attempt :: rest) last st
  = ((if attempt <? retries then sleep GROUNDING_RETRY_DELAY else ret tt) ;;
     retry_loop self description screenshot retries rest (Some e)) st1.
Proof. intros H. simpl. unfold try_except. rewrite H. reflexivity. Qed.

Lemma retry_loop_returns self description screenshot retries
      attempt rest last st st1 xy :
  attempt_body self description screenshot attempt st = (st1, Return xy) ->
  retry_loop self description screenshot retries (attempt :: rest) last st
  = (st1, Return xy).
Proof. intros H. simpl. unfold try_except. rewrite H. reflexivity. Qed.

(** ** Annotations *)

Lemma counters_after_call A (op : Op A) r st st' :
  trace st' = EvCall op r :: trace st ->
  annotation_calls st' =
    ((if is_annotate_call (EvCall op r) then 1 else 0) + annotation_calls st)%nat /\
  annotations_saved st' =
    ((if is_annotation_saved (EvCall op r) then 1 else 0) + annotations_saved st)%nat /\
  decoded_answers st' =
    ((if is_decoded (EvCall op r) then 1 else 0) + decoded_answers st)%nat.
Proof.
  intros Ht. unfold annotation_calls, annotations_saved, decoded_answers.
  rewrite Ht, !count_cons. auto.
Qed.

Lemma capture_counters st st' (r : result Image) :
  call CaptureDesktop st = (st', r) ->
  annotation_calls st' = annotation_calls st /\
  annotations_saved st' = annotations_saved st /\
  decoded_answers st' = decoded_answers st.
Proof.
  intros H. apply call_inv in H. destruct H as (Ht & _).
  destruct (counters_after_call _ _ Ht) as (H1 & H2 & H3).
  rewrite H1, H2, H3. destruct r; auto.
Qed.

(** The backend's answer is counted as decoded exactly when the backend
    returns. *)
Lemma backend_ground_counters b img description st st' r :
  backend_ground b img description st = (st', r) ->
  annotation_calls st' = annotation_calls st /\
  annotations_saved st' = annotations_saved st /\
  decoded_answers st' =
    ((match r with Return _ => 1 | Raise _ => 0 end) + decoded_answers st)%nat.
Proof.
  unfold backend_ground. intros H.
  apply bind_inv in H. destruct H as [(st1 & t & H1 & H) | (e & H1 & ->)].
  - apply call_inv in H1. destruct H1 as (Ht & _).
    destruct (counters_after_call _ _ Ht) as (K1 & K2 & K3).
    simpl in K1, K2, K3. unfold decode in K3.
    unfold bind, lift in H.
    destruct (_parse_coordinates t) as [[nx ny] | e]; simpl in K3.
    + inversion H; subst.
      destruct (_norm_to_pixels nx ny); auto.
    + inversion H; subst. auto.
  - apply call_inv in H1. destruct H1 as (Ht & _).
    destruct (counters_after_call _ _ Ht) as (K1 & K2 & K3).
    simpl in K1, K2, K3. auto.
Qed.

Lemma ground_counters self img description suffix st st' r :
  ANNOTATE_SCREENSHOTS = true ->
  ground self img description true suffix st = (st', r) ->
  (annotation_calls st' + decoded_answers st =
   annotation_calls st + decoded_answers st')%nat /\
  annotations_saved st' =
    ((match r with Return _ => 1 | Raise _ => 0 end) + annotations_saved st)%nat.
Proof.
  intros Hann H. unfold ground in H. rewrite Hann in H. simpl in H.
  apply bind_inv in H. destruct H as [(st1 & [x y] & H1 & H) | (e & H1 & ->)].
  - apply backend_ground_counters in H1. destruct H1 as (B1 & B2 & B3).
    apply bind_inv in H. destruct H as [(st2 & [] & H2 & H) | (e & H2 & ->)].
    + apply call_inv in H2. destruct H2 as (Ht & _).
      destruct (counters_after_call _ _ Ht) as (K1 & K2 & K3).
      simpl in K1, K2, K3. inversion H; subst. lia.
    + apply call_inv in H2. destruct H2 as (Ht & _).
      destruct (counters_after_call _ _ Ht) as (K1 & K2 & K3).
      simpl in K1, K2, K3. lia.
  - apply backend_ground_counters in H1. destruct H1 as (B1 & B2 & B3). lia.
Qed.

Lemma attempt_counters self description screenshot attempt st st' r :
  ANNOTATE_SCREENSHOTS = true ->
  attempt_body self description screenshot attempt st = (st', r) ->
  (annotation_calls st' + decoded_answers st =
   annotation_calls st + decoded_answers st')%nat /\
  annotations_saved st' =
    ((match r with Return _ => 1 | Raise _ => 0 end) + annotations_saved st)%nat.
Proof.
  intros Hann H. unfold attempt_body in H.
  apply bind_inv in H. destruct H as [(st1 & img & H1 & H) | (e & H1 & ->)].
  - assert (Hc : annotation_calls st1 = annotation_calls st /\
                 annotations_saved st1 = annotations_saved st /\
                 decoded_answers st1 = decoded_answers st).
    { destruct screenshot as [i |]; [destruct (attempt =? 1) |];
        try (apply capture_counters in H1; exact H1).
      inversion H1; subst. auto. }
    destruct Hc as (K1 & K2 & K3).
    destruct (ground_counters _ _ _ _ _ Hann H) as (G1 & G2). lia.
  - assert (Hc : annotation_calls st' = annotation_calls st /\
                 annotations_saved st' = annotations_saved st /\
                 decoded_answers st' = decoded_answers st).
    { destruct screenshot as [i |]; [destruct (attempt =? 1) |];
        try (apply capture_counters in H1; exact H1).
      inversion H1. }
    lia.
Qed.

Lemma sleep_counters d st st' r :
  sleep d st = (st', r) ->
  annotation_calls st' = annotation_calls st /\
  annotations_saved st' = annotations_saved st /\
  decoded_answers st' = decoded_answers st.
Proof.
  intros H. apply sleep_inv in H. destruct H as [(_ & Ht) | (_ & ->)]; [| auto].
  unfold annotation_calls, annotations_saved, decoded_answers.
  rewrite Ht, !count_cons. auto.
Qed.

Lemma retry_loop_counters self description screenshot retries :
  ANNOTATE_SCREENSHOTS = true ->
  forall attempts last st st' r,
    retry_loop self description screenshot retries attempts last st = (st', r) ->
    (annotation_calls st' + decoded_answers st =
     annotation_calls st + decoded_answers st')%nat /\
    annotations_saved st' =
      ((match r with Return _ => 1 | Raise _ => 0 end) + annotations_saved st)%nat.
Proof.
  intros Hann. induction attempts as [| a rest IH]; intros last st st' r H.
  - inversion H; subst. auto.
  - destruct (attempt_body self description screenshot a st)
      as [st1 [xy | e]] eqn:E.
    + erewrite retry_loop_returns in H by exact E. inversion H; subst.
      exact (attempt_counters _ _ _ _ _ Hann E).
    + erewrite retry_loop_handles in H by exact E.
      destruct (attempt_counters _ _ _ _ _ Hann E) as (A1 & A2).
      apply bind_inv in H. destruct H as [(st2 & [] & H2 & H) | (e2 & H2 & ->)].
      * assert (Hs : annotation_calls st2 = annotation_calls st1 /\
                     annotations_saved st2 = annotations_saved st1 /\
                     decoded_answers st2 = decoded_answers st1).
        { destruct (a <? retries); [exact (sleep_counters _ _ H2) |].
          inversion H2; subst. auto. }
        destruct (IH _ _ _ _ H) as (I1 & I2). lia.
      * assert (Hs : annotation_calls st' = annotation_calls st1 /\
                     annotations_saved st' = annotations_saved st1 /\
                     decoded_answers st' = decoded_answers st1).
        { destruct (a <? retries); [exact (sleep_counters _ _ H2) |].
          inversion H2. }
        lia.
Qed.
(** C8 (as amended). With annotation enabled, the annotation step is
    entered once for every attempt whose backend answer was inferred and
    decoded, and for no other attempt; an attempt whose annotation is saved
    ends the call, so a call that returns a coordinate has saved exactly one
    annotated image and a call that raises has saved none. *)
Theorem annotation_follows_decoding self description max_retries screenshot
        st st' r :
  ANNOTATE_SCREENSHOTS = true ->
  ground_with_retry self description max_retries screenshot st = (st', r) ->
  (annotation_calls st' + decoded_answers st =
   annotation_calls st + decoded_answers st')%nat /\
  annotations_saved st' =
    ((match r with Return _ => 1 | Raise _ => 0 end) + annotations_saved st)%nat.
Proof.
  intros Hann H. unfold ground_with_retry in H.
  exact (retry_loop_counters _ _ _ _ Hann _ _ _ H).
Qed.
End RetryLoop.



Lemma annotation_follows_decoding_witness :
  let st := @initial_state world_backend_flaky 0%nat in
  let out := @ground_with_retry world_backend_flaky config_1080p engine0
               _NOTEPAD_DESC None None st in
  @ANNOTATE_SCREENSHOTS config_1080p = true /\
  @annotations_saved world_backend_flaky (fst out) = 1%nat.
Proof.
  intros st out. split; [reflexivity |].
  destruct (@annotation_follows_decoding world_backend_flaky config_1080p
              engine0 _NOTEPAD_DESC None None st (fst out) (snd out)
              eq_refl (surjective_pairing out)) as (_ & H).
  exact H.
Defined.

(** C8 as stated fails: when the first attempt fails in the backend and the
    second succeeds, two attempts were made and one image was saved. *)
Lemma annotation_not_per_attempt :
  ~ @one_image_per_attempt world_backend_flaky config_1080p.
Proof.
  intros H.
  specialize (H engine0 _NOTEPAD_DESC (@initial_state world_backend_flaky 0%nat)
                _ _ eq_refl (surjective_pairing _)).
  vm_compute in H. discriminate H.
Qed.

(* ================================================================== *)
(** * Invariants of runs *)
(* ================================================================== *)

Section Respects.
Context {Sigma : World} {cfg : Config}.
Variable R : State -> State -> Prop.
Hypothesis R_refl : forall st, R st st.
Hypothesis R_trans : forall a b c, R a b -> R b c -> R a c.

Lemma respects_ret A (a : A) : respects R (ret a).
Proof. intros st st' r H. inversion H; subst. apply R_refl. Qed.

Lemma respects_raise A e : respects R (@raise _ A e).
Proof. intros st st' r H. inversion H; subst. apply R_refl. Qed.

Lemma respects_lift A (x : result A) : respects R (lift x).
Proof. intros st st' r H. inversion H; subst. apply R_refl. Qed.

Lemma respects_bind A B (m : M A) (f : A -> M B) :
  respects R m -> (forall a, respects R (f a)) -> respects R (bind m f).
Proof.
  intros Hm Hf st st' r H.
  destruct (bind_inv _ _ _ H) as [(st1 & a & H1 & H2) | (e & H1 & _)].
  - eapply R_trans; [eapply Hm | eapply Hf]; eassumption.
  - eapply Hm; eassumption.
Qed.

Lemma respects_try_except A (m : M A) (h : exn -> M A) :
  respects R m -> (forall e, respects R (h e)) -> respects R (try_except m h).
Proof.
  intros Hm Hh st st' r H.
  destruct (try_except_inv _ _ _ H) as [(a & H1 & _) | (st1 & e & H1 & H2)].
  - eapply Hm; eassumption.
  - eapply R_trans; [eapply Hm | eapply Hh]; eassumption.
Qed.

Lemma respects_try_except_class A (m : M A) c (h : exn -> M A) :
  respects R m -> (forall e, respects R (h e)) ->
  respects R (try_except_class m c h).
Proof.
  intros Hm Hh. apply respects_try_except; [assumption |].
  intros e. destruct (isinstance e c); [apply Hh | apply respects_raise].
Qed.
End Respects.

(** Walks through a computation, leaving the operations and the calls of
    other functions as goals. *)
Ltac respects_step :=
  lazymatch goal with
  | |- respects _ (bind _ _) => apply respects_bind; [| | intros ? ]
  | |- respects _ (try_except_class _ _ _) =>
      apply respects_try_except_class; [| | | intros ? ]
  | |- respects _ (try_except _ _) => apply respects_try_except; [| | intros ? ]
  | |- respects _ (ret _) => apply respects_ret
  | |- respects _ (raise _) => apply respects_raise
  | |- respects _ (lift _) => apply respects_lift
  | |- respects _ (match ?x with _ => _ end) => destruct x
  end.

Ltac respects_auto refl trans :=
  repeat respects_step; try exact refl; try exact trans.

Section Exhaustion.
Context {Sigma : World} {cfg : Config}.

Lemma no_launch_refl st : no_launch st st.
Proof. split; reflexivity. Qed.

Lemma no_launch_trans a b c : no_launch a b -> no_launch b c -> no_launch a c.
Proof. intros [H1 H2] [H3 H4]. split; congruence. Qed.

Hint Resolve no_launch_refl no_launch_trans : core.

Lemma no_launch_call A (op : Op A) :
  is_popen (EvCall op (Raise NegativeSleep)) = false ->
  respects no_launch (call op).
Proof.
  intros Hop st st' r H. apply call_inv in H. destruct H as (Ht & Hf & _).
  split; [exact Hf |]. unfold process_launches. rewrite Ht, count_cons.
  destruct op; simpl in *; try reflexivity; discriminate.
Qed.

Lemma no_launch_sleep d : respects no_launch (sleep d).
Proof.
  intros st st' r H. unfold sleep in H.
  destruct (Qle_bool 0 d); inversion H; subst; split; reflexivity.
Qed.

Lemma no_launch_attempt self description screenshot attempt :
  respects no_launch (attempt_body self description screenshot attempt).
Proof.
  unfold attempt_body, ground, backend_ground.
  respects_auto no_launch_refl no_launch_trans;
    apply no_launch_call; reflexivity.
Qed.

Lemma no_launch_retry_loop self description screenshot retries attempts :
  forall last,
    respects no_launch
             (retry_loop self description screenshot retries attempts last).
Proof.
  induction attempts as [| a rest IH]; intros last; simpl.
  - apply respects_raise. exact no_launch_refl.
  - respects_auto no_launch_refl no_launch_trans;
      auto using no_launch_attempt, no_launch_sleep.
Qed.

Lemma no_launch_ground_with_retry self description max_retries screenshot :
  respects no_launch
           (ground_with_retry self description max_retries screenshot).
Proof. unfold ground_with_retry. apply no_launch_retry_loop. Qed.

Lemma item_except_result post exc st :
  item_except post exc st
  = (st, Return {| result_id := post_id post; status := error (Because exc) |}).
Proof.
  unfold item_except.
  destruct (isinstance exc TimeoutError);
    [| destruct (isinstance exc RuntimeError)]; reflexivity.
Qed.

Lemma best_effort_close_returns st :
  exists st', try_except (close_notepad None) (fun _ => ret tt) st
              = (st', Return tt).
Proof.
  unfold try_except.
  destruct (close_notepad None st) as [st1 [[] | e]]; eexists; reflexivity.
Qed.

(** An exception that leaves [launch_notepad] is recorded as the failure of
    the item, after a best-effort close. *)
Lemma process_post_of_failed_launch engine post st st2 e :
  launch_notepad engine st = (st2, Raise e) ->
  exists st3,
    process_post engine post st
    = (st3, Return {| result_id := post_id post;
                      status := error (Because e) |}).
Proof.
  intros Hl. unfold process_post.
  assert (Ht : try_except (item_try engine post) (item_except post) st
               = (st2, Return {| result_id := post_id post;
                                 status := error (Because e) |})).
  { unfold try_except, item_try. erewrite bind_Raise by exact Hl.
    apply item_except_result. }
  erewrite bind_Return by exact Ht. simpl.
  destruct (best_effort_close_returns st2) as (st3 & Hc).
  erewrite bind_Return by exact Hc. exists st3. reflexivity.
Qed.
End Exhaustion.

(** C3 as stated fails: with a backend that is down, the exhaustion error
    leaves [launch_notepad]; no fallback launch is made for the item. *)
Lemma exhaustion_is_not_recovered :
  ~ @falls_back_on_exhaustion world_backend_down config_1080p.
Proof.
  intros H.
  apply (H engine0 (@initial_state world_backend_down 0%nat) _ _
           (surjective_pairing _) 3 (Some inference_error)).
  reflexivity.
Qed.

(* ================================================================== *)
(** * The verify-blank-document loop *)
(* ================================================================== *)

Section VerifyLoop.
Context {Sigma : World} {cfg : Config}.

Lemma same_checks_refl st : same_checks st st.
Proof. reflexivity. Qed.

Lemma same_checks_trans a b c :
  same_checks a b -> same_checks b c -> same_checks a c.
Proof. unfold same_checks. congruence. Qed.

Lemma same_view_refl st : same_view st st.
Proof. split; reflexivity. Qed.

Lemma same_view_trans a b c : same_view a b -> same_view b c -> same_view a c.
Proof. intros [H1 H2] [H3 H4]. split; congruence. Qed.

Lemma same_checks_call A (op : Op A) :
  is_title_check (EvCall op (Raise NegativeSleep)) = false ->
  respects same_checks (call op).
Proof.
  intros Hop st st' r H. apply call_inv in H. destruct H as (Ht & _).
  unfold same_checks, title_checks. rewrite Ht, count_cons.
  destruct op; simpl in *; try reflexivity; discriminate.
Qed.

Lemma same_view_call A (op : Op A) :
  is_title_check (EvCall op (Raise NegativeSleep)) = false ->
  is_close_all (EvCall op (Raise NegativeSleep)) = false ->
  respects same_view (call op).
Proof.
  intros Hop Hop2 st st' r H. apply call_inv in H. destruct H as (Ht & _).
  unfold same_view, title_checks, forced_relaunches. rewrite Ht, !count_cons.
  destruct op; simpl in *; try (split; reflexivity); discriminate.
Qed.

Lemma same_view_sleep d : respects same_view (sleep d).
Proof.
  intros st st' r H. apply sleep_inv in H.
  destruct H as [(_ & Ht) | (_ & ->)]; [| apply same_view_refl].
  unfold same_view, title_checks, forced_relaunches. rewrite Ht, !count_cons.
  split; reflexivity.
Qed.

Lemma same_checks_sleep d : respects same_checks (sleep d).
Proof. intros st st' r H. exact (proj1 (same_view_sleep _ _ H)). Qed.

Lemma same_view_focus_window hwnd : respects same_view (focus_window hwnd).
Proof.
  unfold focus_window. respects_auto same_view_refl same_view_trans;
    first [apply same_view_sleep | apply same_view_call; reflexivity].
Qed.

Lemma same_checks_focus_window hwnd : respects same_checks (focus_window hwnd).
Proof. intros st st' r H. exact (proj1 (same_view_focus_window _ _ H)). Qed.

(** The forced relaunch inspects no title. *)
Lemma forced_clean_launch_checks_nothing :
  respects same_checks forced_clean_launch.
Proof.
  unfold forced_clean_launch.
  respects_auto same_checks_refl same_checks_trans;
    first [ apply same_checks_sleep
          | apply same_checks_focus_window
          | apply same_checks_call; reflexivity ].
Qed.

(** The window that the forced relaunch returns is the one its wait found. *)
Lemma forced_clean_launch_handle st st' hwnd :
  forced_clean_launch st = (st', Return hwnd) ->
  exists s s',
    call (WaitForWindow Notepad 10) s = (s', Return hwnd) /\
    same_checks s' st'.
Proof.
  unfold forced_clean_launch. intros H. repeat bind_ok H.
  inversion H; subst. exists st2, st3. split; [assumption |].
  eapply same_checks_trans.
  - eapply same_checks_focus_window. eassumption.
  - eapply same_checks_sleep. eassumption.
Qed.
Lemma same_view_find_window :
  respects same_view
    (try_except_class
       (call (WaitForWindow Notepad 3)) TimeoutError
       (fun _ =>
          call (Popen [txt "notepad.exe"]) ;;
          sleep (15 # 10) ;;
          call (WaitForWindow Notepad 10))).
Proof.
  respects_auto same_view_refl same_view_trans;
    first [apply same_view_sleep | apply same_view_call; reflexivity].
Qed.

Lemma same_view_close_stale_tab :
  respects same_view
    (call (Hotkey [key "ctrl"; key "w"]) ;;
     sleep (8 # 10) ;;
     call (DismissNotepadDialogs 3 (3 # 10)) ;;
     sleep (3 # 10) ;;
     ret (@None Z)).
Proof.
  respects_auto same_view_refl same_view_trans;
    first [apply same_view_sleep | apply same_view_call; reflexivity].
Qed.

Lemma title_check_counts hwnd st st' (r : result text) :
  call (GetWindowText hwnd) st = (st', r) ->
  title_checks st' = S (title_checks st) /\
  forced_relaunches st' = forced_relaunches st.
Proof.
  intros H. apply call_inv in H. destruct H as (Ht & _).
  unfold title_checks, forced_relaunches. rewrite Ht, !count_cons.
  split; reflexivity.
Qed.

(** One pass of the loop inspects at most one title, exactly one if it ends
    without a blank document, and forces nothing. *)
Lemma verify_attempt_checks st st' r :
  verify_attempt st = (st', r) ->
  forced_relaunches st' = forced_relaunches st /\
  (title_checks st' <= S (title_checks st))%nat /\
  (r = Return None -> title_checks st' = S (title_checks st)).
Proof.
  unfold verify_attempt. intros H.
  apply bind_inv in H. destruct H as [(s1 & n & H1 & H) | (e & H1 & ->)].
  2:{ assert (V : same_view st st')
        by (eapply same_view_call; [| | exact H1]; reflexivity).
      destruct V as [A B].
      split; [exact B |]. split; [lia | discriminate]. }
  assert (V1 : same_view st s1)
    by (eapply same_view_call; [| | exact H1]; reflexivity).
  destruct V1 as [A1 B1].
  apply bind_inv in H. destruct H as [(s2 & hwnd & H2 & H) | (e & H2 & ->)].
  2:{ destruct (same_view_find_window _ H2) as [A B].
      split; [congruence |]. split; [lia | discriminate]. }
  destruct (same_view_find_window _ H2) as [A2 B2].
  apply bind_inv in H. destruct H as [(s3 & u & H3 & H) | (e & H3 & ->)].
  2:{ destruct (same_view_focus_window _ _ H3) as [A B].
      split; [congruence |]. split; [lia | discriminate]. }
  destruct (same_view_focus_window _ _ H3) as [A3 B3].
  apply bind_inv in H. destruct H as [(s4 & u4 & H4 & H) | (e & H4 & ->)].
  2:{ destruct (same_view_sleep _ _ H4) as [A B].
      split; [congruence |]. split; [lia | discriminate]. }
  destruct (same_view_sleep _ _ H4) as [A4 B4].
  apply bind_inv in H. destruct H as [(s5 & title & H5 & H) | (e & H5 & ->)].
  2:{ destruct (title_check_counts _ _ H5) as [A B].
      split; [congruence |]. split; [lia | discriminate]. }
  destruct (title_check_counts _ _ H5) as [A5 B5].
  destruct (contains (txt "untitled") (lower title)).
  - inversion H; subst. split; [congruence |]. split; [lia | discriminate].
  - destruct (same_view_close_stale_tab _ H) as [A6 B6].
    split; [congruence |]. split; [lia |]. intros _. lia.
Qed.

Lemma verify_loop_checks attempts :
  forall st st' r,
    verify_loop attempts st = (st', r) ->
    (title_checks st' <= title_checks st + List.length attempts)%nat /\
    (forced_relaunches st' <> forced_relaunches st ->
     title_checks st' = (title_checks st + List.length attempts)%nat).
Proof.
  induction attempts as [| a rest IH]; intros st st' r H; simpl in H.
  - pose proof (forced_clean_launch_checks_nothing _ H) as Hs.
    unfold same_checks in Hs. simpl. split; [lia |]. intros _. lia.
  - apply bind_inv in H. destruct H as [(s1 & o & H1 & H) | (e & H1 & ->)].
    + destruct (verify_attempt_checks _ H1) as (F & Hle & Hex).
      destruct o as [hwnd |].
      * inversion H; subst. simpl. split; [lia |]. intros Hn. congruence.
      * specialize (Hex eq_refl). destruct (IH _ _ _ H) as (I1 & I2).
        simpl. split; [lia |]. intros Hn.
        rewrite I2 by congruence. lia.
    + destruct (verify_attempt_checks _ H1) as (F & Hle & _).
      simpl. split; [lia |]. intros Hn. congruence.
Qed.

Lemma verify_loop_after_stale n st s :
  stale_attempts n st s ->
  forall attempts,
    (n <= List.length attempts)%nat ->
    verify_loop attempts st = verify_loop (skipn n attempts) s.
Proof.
  induction 1 as [| n st s st' Hv _ IH]; intros attempts Hn; [reflexivity |].
  destruct attempts as [| a rest]; [cbn in Hn; lia |].
  cbn [List.length] in Hn. cbn [skipn verify_loop].
  erewrite bind_Return by exact Hv. apply IH. lia.
Qed.

Lemma stale_attempts_checks n st s :
  stale_attempts n st s ->
  title_checks s = (title_checks st + n)%nat /\
  forced_relaunches s = forced_relaunches st.
Proof.
  induction 1 as [| n st s st' Hv _ [IH1 IH2]]; [split; [lia | reflexivity] |].
  destruct (verify_attempt_checks _ Hv) as (F & _ & Hex).
  specialize (Hex eq_refl). split; [lia | congruence].
Qed.

Lemma stale_attempts_snoc n st s s' :
  stale_attempts n st s ->
  verify_attempt s = (s', Return None) ->
  stale_attempts (S n) st s'.
Proof.
  induction 1 as [| n st s0 st' Hv _ IH]; intros H.
  - econstructor; [exact H | constructor].
  - econstructor; [exact Hv | apply IH; exact H].
Qed.

(** Every run of the loop: some pass ends it - with a blank document or
    with an exception - after stale passes only, or all passes were stale
    and the run is that of the forced clean launch. *)
Lemma verify_loop_cases attempts :
  forall st st' r,
    verify_loop attempts st = (st', r) ->
    (exists n s,
        (n < List.length attempts)%nat /\ stale_attempts n st s /\
        ((exists hwnd,
             verify_attempt s = (st', Return (Some hwnd)) /\ r = Return hwnd) \/
         (exists e, verify_attempt s = (st', Raise e) /\ r = Raise e))) \/
    (exists s,
        stale_attempts (List.length attempts) st s /\
        forced_clean_launch s = (st', r)).
Proof.
  induction attempts as [| a rest IH]; intros st st' r H; cbn [verify_loop] in H.
  - right. exists st. split; [constructor | exact H].
  - apply bind_inv in H. destruct H as [(s1 & o & H1 & H) | (e & H1 & ->)].
    + destruct o as [hwnd |].
      * inversion H; subst. left. exists 0%nat, st.
        split; [cbn; lia |]. split; [constructor |]. left. eauto.
      * destruct (IH _ _ _ H) as [(n & s & Hn & Hs & Hc) | (s & Hs & Hf)].
        -- left. exists (S n), s. split; [cbn; lia |].
           split; [econstructor; eassumption | exact Hc].
        -- right. exists s. split; [| exact Hf].
           cbn [List.length]. econstructor; eassumption.
    + left. exists 0%nat, st. split; [cbn; lia |].
      split; [constructor |]. right. eauto.
Qed.

(** A pass returns a handle only for a window whose title holds
    "untitled". *)
Lemma verify_attempt_blank st st' hwnd :
  verify_attempt st = (st', Return (Some hwnd)) ->
  exists sx sy title,
    call (GetWindowText hwnd) sx = (sy, Return title) /\
    contains (txt "untitled") (lower title) = true.
Proof.
  unfold verify_attempt. intros H.
  apply bind_inv in H. destruct H as [(s1 & n & H1 & H) | (e & _ & E)];
    [| discriminate E].
  apply bind_inv in H. destruct H as [(s2 & h & H2 & H) | (e & _ & E)];
    [| discriminate E].
  apply bind_inv in H. destruct H as [(s3 & u & H3 & H) | (e & _ & E)];
    [| discriminate E].
  apply bind_inv in H. destruct H as [(s4 & u4 & H4 & H) | (e & _ & E)];
    [| discriminate E].
  apply bind_inv in H. destruct H as [(s5 & title & H5 & H) | (e & _ & E)];
    [| discriminate E].
  destruct (contains (txt "untitled") (lower title)) eqn:Hc.
  - inversion H; subst. exists s4, st', title. split; [exact H5 | exact Hc].
  - repeat bind_ok H. inversion H.
Qed.

(** A forced clean launch whose wait for the window raises, raises. *)
Lemma forced_clean_launch_times_out s s1 s2 s3 s4 e :
  call CloseAllNotepadWindows s = (s1, Return tt) ->
  call (Popen [txt "notepad.exe"]) s1 = (s2, Return tt) ->
  sleep (15 # 10) s2 = (s3, Return tt) ->
  call (WaitForWindow Notepad 10) s3 = (s4, Raise e) ->
  forced_clean_launch s = (s4, Raise e).
Proof.
  intros H1 H2 H3 H4. unfold forced_clean_launch.
  erewrite bind_Return by exact H1. erewrite bind_Return by exact H2.
  erewrite bind_Return by exact H3. apply bind_Raise. exact H4.
Qed.

(** C9 (as amended). The verify loop makes at most 5 passes, each of which
    inspects the title once.  A run is ended by the first pass that finds
    a title holding "untitled", whose window is returned, or that raises;
    no close-all is forced then.  When all 5 passes found a stale
    document, the run goes on as the forced close-all-and-relaunch, made
    in the state that the fifth pass left: nothing is inspected any more,
    and the outcome of the whole is the outcome of that relaunch - the
    handle of the window that its wait found, or, when that wait times
    out, the exception, with which the launch fails. *)
Theorem verify_loop_budget st st' r :
  verify_blank_document st = (st', r) ->
  (title_checks st' <= title_checks st + 5)%nat /\
  (forced_relaunches st' <> forced_relaunches st ->
   title_checks st' = (title_checks st + 5)%nat) /\
  ((exists n s,
       (n < 5)%nat /\ stale_attempts n st s /\
       forced_relaunches st' = forced_relaunches st /\
       ((exists hwnd,
            verify_attempt s = (st', Return (Some hwnd)) /\ r = Return hwnd) \/
        (exists e, verify_attempt s = (st', Raise e) /\ r = Raise e))) \/
   (exists s5,
       stale_attempts 5 st s5 /\
       title_checks s5 = (title_checks st + 5)%nat /\
       forced_clean_launch s5 = (st', r) /\
       title_checks st' = title_checks s5)) /\
  (forall s5,
      stale_attempts 5 st s5 ->
      verify_blank_document st = forced_clean_launch s5) /\
  (forall s s' hwnd,
      forced_clean_launch s = (s', Return hwnd) ->
      title_checks s' = title_checks s /\
      exists sw sw',
        call (WaitForWindow Notepad 10) sw = (sw', Return hwnd)) /\
  (forall s s1 s2 s3 s4 e,
      call CloseAllNotepadWindows s = (s1, Return tt) ->
      call (Popen [txt "notepad.exe"]) s1 = (s2, Return tt) ->
      sleep (15 # 10) s2 = (s3, Return tt) ->
      call (WaitForWindow Notepad 10) s3 = (s4, Raise e) ->
      forced_clean_launch s = (s4, Raise e)) /\
  (forall s s' hwnd,
      verify_attempt s = (s', Return (Some hwnd)) ->
      exists sx sy title,
        call (GetWindowText hwnd) sx = (sy, Return title) /\
        contains (txt "untitled") (lower title) = true).
Proof.
  intros H. unfold verify_blank_document in H |- *.
  destruct (verify_loop_checks _ _ H) as (H1 & H2).
  change (List.length (range 1 6)) with 5%nat in H1, H2.
  split; [exact H1 |]. split; [exact H2 |]. split; [| split; [| split; [| split]]].
  - destruct (verify_loop_cases _ _ H)
      as [(n & s & Hn & Hs & Hc) | (s & Hs & Hf)];
      change (List.length (range 1 6)) with 5%nat in *.
    + left. exists n, s. split; [exact Hn |]. split; [exact Hs |].
      split; [| exact Hc].
      destruct (stale_attempts_checks Hs) as [_ F].
      destruct Hc as [(hwnd & Hv & _) | (e & Hv & _)];
        destruct (verify_attempt_checks _ Hv) as (F' & _); congruence.
    + right. exists s. destruct (stale_attempts_checks Hs) as [T _].
      split; [exact Hs |]. split; [exact T |]. split; [exact Hf |].
      exact (forced_clean_launch_checks_nothing _ Hf).
  - intros s5 Hs.
    rewrite (verify_loop_after_stale Hs) by (rewrite range_length; lia).
    reflexivity.
  - intros s s' hwnd Hf. split.
    + exact (forced_clean_launch_checks_nothing _ Hf).
    + destruct (forced_clean_launch_handle _ Hf) as (sw & sw' & Hw & _). eauto.
  - exact forced_clean_launch_times_out.
  - exact verify_attempt_blank.
Qed.
End VerifyLoop.

Lemma verify_loop_budget_witness :
  let st := @initial_state world_stale_tab 0%nat in
  let out := @verify_blank_document world_stale_tab st in
  @title_checks world_stale_tab (fst out) = 5%nat /\
  snd out = Return 4242 /\
  exists s5,
    @stale_attempts world_stale_tab 5 st s5 /\
    @forced_clean_launch world_stale_tab s5 = out.
Proof.
  intros st out.
  destruct (@verify_loop_budget world_stale_tab st (fst out) (snd out)
              (surjective_pairing out)) as (_ & H & Hc & _).
  split; [| split; [reflexivity |]].
  - rewrite H; [reflexivity |]. vm_compute. discriminate.
  - destruct Hc as [(n & s & _ & _ & F & _) | (s5 & Hs & _ & Hf & _)].
    + vm_compute in F. discriminate F.
    + exists s5. split; [exact Hs |]. rewrite Hf. symmetry.
      apply surjective_pairing.
Defined.

(** C9 as stated fails twice: a document that stays stale is given up
    after five inspections, not six; and when no window appears after the
    forced relaunch, the launch fails with the time-out instead of
    returning a handle. *)
Lemma verify_budget_not_six_nor_total :
  ~ @verify_budget_is_six world_stale_tab /\
  ~ @forced_relaunch_returns_handle world_stale_no_relaunch.
Proof.
  split; intros H.
  - specialize (H (@initial_state world_stale_tab 0%nat) _ _
                  (surjective_pairing _)).
    vm_compute in H. specialize (H ltac:(discriminate)). discriminate H.
  - specialize (H (@initial_state world_stale_no_relaunch 0%nat) _ _
                  (surjective_pairing _)).
    vm_compute in H. destruct (H ltac:(discriminate)) as (hwnd & Hh).
    discriminate Hh.
Qed.

(* ================================================================== *)
(** * Pixel scaling *)
(* ================================================================== *)

Section PixelScaling.

Lemma forallb_range (p : Z -> bool) (n : nat) :
  forallb p (map Z.of_nat (seq 0 n)) = true ->
  forall z, 0 <= z < Z.of_nat n -> p z = true.
Proof.
  intros H z Hz. rewrite forallb_forall in H. apply H.
  apply in_map_iff. exists (Z.to_nat z). split; [lia |].
  apply in_seq. lia.
Qed.

(** On the normalised range and a 1920x1080 screen the double arithmetic of
    the code agrees with the exact floor. *)
Lemma scale_exact_1080p n :
  0 <= n < 1000 ->
  scale 1920 n = Return (n * 1920 / 1000) /\
  scale 1080 n = Return (n * 1080 / 1000).
Proof.
  intros Hn.
  pose (p := fun z =>
               match scale 1920 z, scale 1080 z with
               | Return a, Return b =>
                   (a =? z * 1920 / 1000) && (b =? z * 1080 / 1000)
               | _, _ => false
               end).
  assert (Hp : p n = true).
  { apply (forallb_range p 1000); [vm_compute; reflexivity | exact Hn]. }
  unfold p in Hp.
  destruct (scale 1920 n) as [a |]; [| discriminate].
  destruct (scale 1080 n) as [b |]; [| discriminate].
  apply andb_prop in Hp. destruct Hp as [Ha Hb].
  apply Z.eqb_eq in Ha. apply Z.eqb_eq in Hb. subst. split; reflexivity.
Qed.

Lemma norm_to_pixels_exact_1080p nx ny :
  0 <= nx < 1000 -> 0 <= ny < 1000 ->
  @_norm_to_pixels config_1080p nx ny
  = Return (nx * 1920 / 1000, ny * 1080 / 1000).
Proof.
  intros Hx Hy. unfold _norm_to_pixels. simpl.
  destruct (scale_exact_1080p Hx) as [-> _].
  destruct (scale_exact_1080p Hy) as [_ ->]. reflexivity.
Qed.

(** The values of the unit tests. *)
Lemma norm_to_pixels_examples :
  @_norm_to_pixels config_1080p 500 500 = Return (960, 540) /\
  @_norm_to_pixels config_1080p 0 0 = Return (0, 0) /\
  @_norm_to_pixels config_1080p 999 999 = Return (1918, 1078) /\
  @_norm_to_pixels config_1080p 250 250 = Return (480, 270).
Proof. repeat split; vm_compute; reflexivity. Qed.

(** No clamping: a degenerate answer maps beyond the screen. *)
Lemma norm_to_pixels_no_clamp :
  @_norm_to_pixels config_1080p 2000 2000 = Return (3840, 2160).
Proof. vm_compute. reflexivity. Qed.

(** C5. The scaling is computed in double precision:
    [int((nx / 1000) * width)].  At [nx = 1025] on a 1920-pixel-wide screen
    the quotient 1.025 is not a double, the product falls just below 1968
    and the code answers 1967, where [floor (1025 / 1000 * 1920)] is 1968;
    likewise [ny = 175] on a 720-pixel-high screen gives 125, not 126. *)
Theorem norm_to_pixels_falls_short :
  @_norm_to_pixels config_1080p 1025 500 = Return (1967, 540) /\
  1025 * 1920 / 1000 = 1968 /\
  @_norm_to_pixels config_720p 500 175 = Return (640, 125) /\
  175 * 720 / 1000 = 126.
Proof. repeat split; vm_compute; reflexivity. Qed.

End PixelScaling.

(* ================================================================== *)
(** * The backtracking matcher against the meaning of the patterns *)
(* ================================================================== *)

Section Matcher.

Lemma star_loop_sound R p (k : text -> option R) :
  forall s x,
    star_loop p s k = Some x ->
    exists s1 s2, s = s1 ++ s2 /\ all_in p s1 /\ k s2 = Some x.
Proof.
  induction s as [| c s IH]; intros x H; simpl in H.
  - exists [], []. split; [reflexivity |]. split; [constructor | exact H].
  - destruct (p c) eqn:Hc.
    + destruct (star_loop p s k) as [y |] eqn:E.
      * inversion H; subst. destruct (IH _ eq_refl) as (s1 & s2 & -> & Ha & Hk).
        exists (c :: s1), s2. split; [reflexivity |].
        split; [constructor; assumption | exact Hk].
      * exists [], (c :: s). split; [reflexivity |].
        split; [constructor | exact H].
    + exists [], (c :: s). split; [reflexivity |].
      split; [constructor | exact H].
Qed.

Lemma star_loop_complete R p (k : text -> option R) :
  forall s1 s2,
    all_in p s1 -> k s2 <> None -> star_loop p (s1 ++ s2) k <> None.
Proof.
  induction s1 as [| c s1 IH]; intros s2 Ha Hk; simpl.
  - destruct s2 as [| c s2]; simpl; [exact Hk |].
    destruct (p c); [| exact Hk].
    destruct (star_loop p s2 k); [discriminate | exact Hk].
  - inversion Ha; subst. rewrite H1.
    specialize (IH s2 H2 Hk).
    destruct (star_loop p (s1 ++ s2) k); [discriminate | contradiction].
Qed.

Lemma matcher_sound r :
  forall s caps k m,
    rmatch r s caps k = Some m ->
    exists s1 s2 caps',
      s = s1 ++ s2 /\ matches r s1 caps caps' /\ k s2 caps' = Some m.
Proof.
  induction r as [c | cl | cl | r IH | r1 IH1 r2 IH2 | i r IH];
    intros s caps k m H; simpl in H.
  - destruct s as [| c' s]; [discriminate |].
    destruct (Ascii.eqb c c') eqn:E; [| discriminate].
    apply Ascii.eqb_eq in E. subst c'.
    exists [c], s, caps. split; [reflexivity |]. split; [constructor | exact H].
  - apply star_loop_sound in H. destruct H as (s1 & s2 & -> & Ha & Hk).
    exists s1, s2, caps. split; [reflexivity |].
    split; [constructor; exact Ha | exact Hk].
  - unfold plus_loop in H. destruct s as [| c s]; [discriminate |].
    destruct (in_class cl c) eqn:Hc; [| discriminate].
    apply star_loop_sound in H. destruct H as (s1 & s2 & -> & Ha & Hk).
    exists (c :: s1), s2, caps. split; [reflexivity |].
    split; [| exact Hk].
    constructor; [discriminate | constructor; assumption].
  - destruct (rmatch r s caps k) as [m' |] eqn:E.
    + inversion H; subst. destruct (IH _ _ _ _ E) as (s1 & s2 & caps' & -> & Hm & Hk).
      exists s1, s2, caps'. split; [reflexivity |].
      split; [apply M_Opt_take; exact Hm | exact Hk].
    + exists [], s, caps. split; [reflexivity |].
      split; [apply M_Opt_skip | exact H].
  - apply IH1 in H. destruct H as (s1 & s2 & caps1 & -> & Hm1 & H).
    apply IH2 in H. destruct H as (s3 & s4 & caps2 & -> & Hm2 & Hk).
    exists (s1 ++ s3), s4, caps2. split; [apply app_assoc |].
    split; [econstructor; eassumption | exact Hk].
  - apply IH in H. destruct H as (s1 & s2 & caps' & -> & Hm & Hk).
    exists s1, s2, ((i, s1) :: caps'). split; [reflexivity |].
    split; [constructor; exact Hm |].
    rewrite length_app, Nat.add_sub, firstn_app, Nat.sub_diag, firstn_all in Hk.
    simpl in Hk. rewrite app_nil_r in Hk. exact Hk.
Qed.

Lemma matcher_complete r s1 caps0 caps0' :
  matches r s1 caps0 caps0' ->
  forall s2 caps k,
    (forall c, k s2 c <> None) ->
    rmatch r (s1 ++ s2) caps k <> None.
Proof.
  induction 1 as [c caps0 | cl s caps0 Ha | cl s caps0 Hne Ha | r caps0
                 | r s caps0 caps0' Hm IH
                 | r1 r2 s1 s3 caps0 caps1 caps2 Hm1 IH1 Hm2 IH2
                 | i r s caps0 caps0' Hm IH];
    intros s2 caps k Hk; simpl.
  - rewrite Ascii.eqb_refl. apply Hk.
  - apply star_loop_complete; [assumption | apply Hk].
  - destruct s as [| c s]; [congruence |]. simpl.
    inversion Ha; subst.
    match goal with H : in_class _ _ = true |- _ => rewrite H end.
    apply star_loop_complete; [assumption | apply Hk].
  - destruct (rmatch r s2 caps k); [discriminate | apply Hk].
  - specialize (IH s2 caps k Hk).
    destruct (rmatch r (s ++ s2) caps k); [discriminate | contradiction].
  - rewrite <- app_assoc. apply IH1. intros c. apply IH2. exact Hk.
  - apply IH. intros c. apply Hk.
Qed.

(** [re.search] finds a match exactly when the pattern occurs. *)
Lemma re_search_sound r :
  forall t m, re_search r t = Some m ->
    exists pre s post, t = pre ++ s ++ post /\ matches r s [] m.
Proof.
  induction t as [| c t IH]; intros m H; simpl in H.
  - destruct (match_here r []) as [m' |] eqn:E; [| discriminate].
    inversion H; subst. unfold match_here in E.
    apply matcher_sound in E. destruct E as (s1 & s2 & caps' & Hs & Hm & Hk).
    inversion Hk; subst. exists [], s1, s2. split; [exact Hs | exact Hm].
  - destruct (match_here r (c :: t)) as [m' |] eqn:E.
    + inversion H; subst. unfold match_here in E.
      apply matcher_sound in E. destruct E as (s1 & s2 & caps' & Hs & Hm & Hk).
      inversion Hk; subst. exists [], s1, s2. split; [exact Hs | exact Hm].
    + destruct (IH _ H) as (pre & s & post & -> & Hm).
      exists (c :: pre), s, post. split; [reflexivity | exact Hm].
Qed.

Lemma match_here_complete r s post caps caps' :
  matches r s caps caps' -> match_here r (s ++ post) <> None.
Proof.
  intros Hm. unfold match_here.
  eapply matcher_complete; [exact Hm |]. intros c. discriminate.
Qed.

Lemma re_search_complete r :
  forall pre s post caps caps',
    matches r s caps caps' -> re_search r (pre ++ s ++ post) <> None.
Proof.
  induction pre as [| c pre IH]; intros s post caps caps' Hm.
  - simpl. pose proof (match_here_complete post Hm) as Hh.
    destruct (s ++ post) as [| c t]; simpl;
      destruct (match_here r _); congruence.
  - simpl. destruct (match_here r (c :: pre ++ s ++ post));
      [discriminate | eapply IH; exact Hm].
Qed.

Lemma re_search_none_iff r t :
  re_search r t = None <-> ~ occurs r t.
Proof.
  split.
  - intros H (pre & m & post & caps & -> & Hm).
    exact (re_search_complete pre post Hm H).
  - intros Hno. destruct (re_search r t) as [m |] eqn:E; [| reflexivity].
    exfalso. apply Hno. apply re_search_sound in E.
    destruct E as (pre & s & post & -> & Hm). exists pre, s, post, m. auto.
Qed.

(** The match that [re.search] returns starts at the left-most offset at
    which the pattern matches at all. *)
Lemma re_search_leftmost r :
  forall t m, re_search r t = Some m ->
    exists pre rest,
      t = pre ++ rest /\ match_here r rest = Some m /\
      forall pre' s' post' c c',
        t = pre' ++ s' ++ post' -> matches r s' c c' ->
        (List.length pre <= List.length pre')%nat.
Proof.
  induction t as [| a t IH]; intros m H; simpl in H.
  - destruct (match_here r []) as [m' |] eqn:E; [| discriminate].
    inversion H; subst. exists [], []. split; [reflexivity |].
    split; [exact E |]. intros. simpl. lia.
  - destruct (match_here r (a :: t)) as [m' |] eqn:E.
    + inversion H; subst. exists [], (a :: t). split; [reflexivity |].
      split; [exact E |]. intros. simpl. lia.
    + destruct (IH _ H) as (pre & rest & -> & Hh & Hleft).
      exists (a :: pre), rest. split; [reflexivity |]. split; [exact Hh |].
      intros pre' s' post' c c' Ht Hm. destruct pre' as [| b pre'].
      * simpl in Ht. exfalso. rewrite Ht in E.
        exact (match_here_complete post' Hm E).
      * simpl in Ht. inversion Ht; subst. simpl.
        apply le_n_S. eapply Hleft; eassumption.
Qed.

End Matcher.

(** Inverts the hypotheses that a composite pattern matches. *)
Ltac inv_matches :=
  repeat match goal with
    | H : matches (Cat _ _) _ _ _ |- _ => inversion H; subst; clear H
    | H : matches (Lit _) _ _ _ |- _ => inversion H; subst; clear H
    | H : matches (Star _) _ _ _ |- _ => inversion H; subst; clear H
    | H : matches (Plus _) _ _ _ |- _ => inversion H; subst; clear H
    | H : matches (Group _ _) _ _ _ |- _ => inversion H; subst; clear H
    | H : matches (Opt _) _ _ _ |- _ => inversion H; subst; clear H
    end.

Section Shapes.

Lemma matches_number s c c' :
  matches number s c c' <-> numeral s /\ c' = c.
Proof.
  unfold number. split.
  - intros H. inv_matches.
    + rewrite app_nil_r. split; [left; split; assumption | reflexivity].
    + split; [| reflexivity]. right. simpl.
      eexists. eexists. split; [reflexivity |]. split; split; assumption.
  - intros [[[Hne Ha] | (ip & fp & -> & [Hn1 Ha1] & [Hn2 Ha2])] ->].
    + rewrite <- (app_nil_r s). econstructor.
      * constructor; assumption.
      * apply M_Opt_skip.
    + econstructor.
      * constructor; eassumption.
      * apply M_Opt_take. change ("."%char :: fp) with (["."%char] ++ fp).
        econstructor; constructor; assumption.
Qed.

Lemma matches_pat_paren m c' :
  matches pat_paren m [] c' <->
  exists x y, paren_pair m x y /\ c' = [(2%nat, y); (1%nat, x)].
Proof.
  unfold pat_paren. split.
  - intros H.
    repeat match goal with
      | H : matches (Cat _ _) _ _ _ |- _ => inversion H; subst; clear H
      | H : matches (Lit _) _ _ _ |- _ => inversion H; subst; clear H
      | H : matches (Star _) _ _ _ |- _ => inversion H; subst; clear H
      | H : matches (Group _ _) _ _ _ |- _ => inversion H; subst; clear H
      end.
    repeat match goal with
      | H : matches number _ _ _ |- _ => apply matches_number in H; destruct H as [? ?]
      end. subst.
    eexists. eexists. split; [| reflexivity].
    unfold paren_pair.
    match goal with
    | |- context [ ["("%char] ++ ?w1 ++ ?x ++ ?w2 ++ [","%char] ++ ?w3 ++ ?y ++ ?w4 ++ [")"%char] ] =>
        exists w1, w2, w3, w4
    end.
    simpl. repeat split; assumption.
  - intros (x & y & (w1 & w2 & w3 & w4 & -> & S1 & S2 & S3 & S4 & Nx & Ny) & ->).
    change ("("%char :: w1 ++ x ++ w2 ++ ","%char :: w3 ++ y ++ w4 ++ [")"%char])
      with (["("%char] ++ w1 ++ x ++ w2 ++ [","%char] ++ w3 ++ y ++ w4 ++ [")"%char]).
    repeat first
      [ eapply M_Cat
      | apply M_Lit
      | apply M_Star; assumption
      | apply M_Group
      | apply matches_number; split; [assumption | reflexivity] ].
Qed.

Ltac inv_pattern :=
  repeat match goal with
    | H : matches (Cat _ _) _ _ _ |- _ => inversion H; subst; clear H
    | H : matches (Lit _) _ _ _ |- _ => inversion H; subst; clear H
    | H : matches (Star _) _ _ _ |- _ => inversion H; subst; clear H
    | H : matches (Plus _) _ _ _ |- _ => inversion H; subst; clear H
    | H : matches (Group _ _) _ _ _ |- _ => inversion H; subst; clear H
    end;
  repeat match goal with
    | H : matches number _ _ _ |- _ =>
        apply matches_number in H; destruct H as [? ?]
    end;
  subst.

Ltac build_pattern :=
  repeat first
    [ eapply M_Cat
    | apply M_Lit
    | apply M_Star; assumption
    | apply M_Plus; assumption
    | apply M_Group
    | apply matches_number; split; [assumption | reflexivity] ].

Lemma matches_pat_comma m c' :
  matches pat_comma m [] c' <->
  exists x y, comma_pair m x y /\ c' = [(2%nat, y); (1%nat, x)].
Proof.
  unfold pat_comma. split.
  - intros H. inv_pattern.
    eexists. eexists. split; [| reflexivity].
    unfold comma_pair.
    match goal with
    | |- context [ ?x ++ ?w1 ++ [","%char] ++ ?w2 ++ ?y ] => exists w1, w2
    end.
    simpl. repeat split; assumption.
  - intros (x & y & (w1 & w2 & -> & S1 & S2 & Nx & Ny) & ->).
    change (x ++ w1 ++ ","%char :: w2 ++ y)
      with (x ++ w1 ++ [","%char] ++ w2 ++ y).
    build_pattern.
Qed.

Lemma matches_pat_space m c' :
  matches pat_space m [] c' <->
  exists x y, space_pair m x y /\ c' = [(2%nat, y); (1%nat, x)].
Proof.
  unfold pat_space. split.
  - intros H. inv_pattern.
    eexists. eexists. split; [| reflexivity].
    unfold space_pair.
    match goal with
    | |- context [ ?x ++ ?w ++ ?y ] => exists w
    end.
    repeat split; assumption.
  - intros (x & y & (w & -> & Hne & S1 & Nx & Ny) & ->).
    build_pattern.
Qed.

(** The three patterns are the three shapes of the specification. *)
Lemma shape_occurs_iff t :
  shape_occurs t <->
  occurs pat_paren t \/ occurs pat_comma t \/ occurs pat_space t.
Proof.
  split.
  - intros (pre & m & post & x & y & -> & [H | [H | H]]).
    + left. exists pre, m, post, [(2%nat, y); (1%nat, x)].
      split; [reflexivity |]. apply matches_pat_paren. eauto.
    + right. left. exists pre, m, post, [(2%nat, y); (1%nat, x)].
      split; [reflexivity |]. apply matches_pat_comma. eauto.
    + right. right. exists pre, m, post, [(2%nat, y); (1%nat, x)].
      split; [reflexivity |]. apply matches_pat_space. eauto.
  - intros [H | [H | H]]; destruct H as (pre & m & post & caps & -> & Hm).
    + apply matches_pat_paren in Hm. destruct Hm as (x & y & Hp & _).
      exists pre, m, post, x, y. auto.
    + apply matches_pat_comma in Hm. destruct Hm as (x & y & Hp & _).
      exists pre, m, post, x, y. auto.
    + apply matches_pat_space in Hm. destruct Hm as (x & y & Hp & _).
      exists pre, m, post, x, y. auto.
Qed.

Lemma first_match_none_iff t :
  first_match patterns t = None <-> ~ shape_occurs t.
Proof.
  rewrite shape_occurs_iff. unfold patterns. simpl.
  pose proof (re_search_none_iff pat_paren t) as H1.
  pose proof (re_search_none_iff pat_comma t) as H2.
  pose proof (re_search_none_iff pat_space t) as H3.
  destruct (re_search pat_paren t) as [m1 |].
  { split; [discriminate |]. intros Hn. exfalso.
    assert (Hno : ~ occurs pat_paren t) by tauto.
    apply H1 in Hno. discriminate. }
  destruct (re_search pat_comma t) as [m2 |].
  { split; [discriminate |]. intros Hn. exfalso.
    assert (Hno : ~ occurs pat_comma t) by tauto.
    apply H2 in Hno. discriminate. }
  destruct (re_search pat_space t) as [m3 |].
  { split; [discriminate |]. intros Hn. exfalso.
    assert (Hno : ~ occurs pat_space t) by tauto.
    apply H3 in Hno. discriminate. }
  split; [| reflexivity]. intros _.
  pose proof (proj1 H1 eq_refl). pose proof (proj1 H2 eq_refl).
  pose proof (proj1 H3 eq_refl). tauto.
Qed.

(** Whatever the loop over the patterns finds has two numerals as groups. *)
Lemma first_match_groups t m :
  first_match patterns t = Some m ->
  exists x y, m = [(2%nat, y); (1%nat, x)] /\ numeral x /\ numeral y.
Proof.
  unfold patterns. simpl. intros H.
  destruct (re_search pat_paren t) as [m1 |] eqn:E1.
  { inversion H; subst. apply re_search_sound in E1.
    destruct E1 as (pre & s & post & _ & Hm).
    apply matches_pat_paren in Hm.
    destruct Hm as (x & y & (w1 & w2 & w3 & w4 & _ & _ & _ & _ & _ & Nx & Ny) & ->).
    eauto. }
  destruct (re_search pat_comma t) as [m2 |] eqn:E2.
  { inversion H; subst. apply re_search_sound in E2.
    destruct E2 as (pre & s & post & _ & Hm).
    apply matches_pat_comma in Hm.
    destruct Hm as (x & y & (w1 & w2 & _ & _ & _ & Nx & Ny) & ->).
    eauto. }
  destruct (re_search pat_space t) as [m3 |] eqn:E3; [| discriminate].
  inversion H; subst. apply re_search_sound in E3.
  destruct E3 as (pre & s & post & _ & Hm).
  apply matches_pat_space in Hm.
  destruct Hm as (x & y & (w & _ & _ & _ & Nx & Ny) & ->).
  eauto.
Qed.

End Shapes.


(* ================================================================== *)
(** * Converting the captured numerals *)
(* ================================================================== *)

Section Numerals.

Lemma dot_is_no_digit : is_digit "."%char = false.
Proof. reflexivity. Qed.

Lemma split_dot_digits s :
  all_in is_digit s -> split_dot s = (s, None).
Proof.
  induction 1 as [| c s Hc Hs IH]; simpl; [reflexivity |].
  destruct (Ascii.eqb c ".") eqn:E.
  - apply Ascii.eqb_eq in E. subst c. rewrite dot_is_no_digit in Hc.
    discriminate.
  - rewrite IH. reflexivity.
Qed.

Lemma split_dot_fraction ip fp :
  all_in is_digit ip -> split_dot (ip ++ "."%char :: fp) = (ip, Some fp).
Proof.
  induction 1 as [| c s Hc Hs IH]; simpl; [reflexivity |].
  destruct (Ascii.eqb c ".") eqn:E.
  - apply Ascii.eqb_eq in E. subst c. rewrite dot_is_no_digit in Hc.
    discriminate.
  - rewrite IH. reflexivity.
Qed.

Lemma is_numeral_part_digits s : digits s -> is_numeral_part s = true.
Proof.
  intros [Hne Ha]. destruct s as [| c s]; [congruence |].
  unfold is_numeral_part. apply forallb_forall. intros x Hx.
  unfold all_in in Ha. rewrite Forall_forall in Ha. auto.
Qed.

(** [float] accepts every numeral that a group can hold. *)
Lemma py_float_numeral x :
  numeral x -> exists p q, py_float x = Return (round_ratio p q).
Proof.
  intros [Hd | (ip & fp & -> & Hi & Hf)]; unfold py_float.
  - rewrite (split_dot_digits (proj2 Hd)), (is_numeral_part_digits Hd). eauto.
  - rewrite (split_dot_fraction fp (proj2 Hi)),
      (is_numeral_part_digits Hi), (is_numeral_part_digits Hf). simpl. eauto.
Qed.

Lemma round_pos_not_nan p q : round_pos p q <> NaN.
Proof.
  unfold round_pos.
  match goal with |- (if ?b then _ else _) <> _ => destruct b end;
    discriminate.
Qed.

Lemma round_ratio_not_nan p q : round_ratio p q <> NaN.
Proof.
  unfold round_ratio. destruct p; [discriminate | apply round_pos_not_nan |].
  pose proof (round_pos_not_nan (- Z.neg p) q) as H.
  destruct (round_pos (- Z.neg p) q); simpl; congruence.
Qed.

(** Converting a numeral never raises a [ValueError]: it yields an integer,
    or an [OverflowError] when the numeral is too large for a double. *)
Lemma int_float_numeral x :
  numeral x ->
  (exists z, rbind (py_float x) py_int = Return z) \/
  (exists e, rbind (py_float x) py_int = Raise e /\
             class_of e = OverflowError).
Proof.
  intros Hx. destruct (py_float_numeral Hx) as (p & q & ->). simpl.
  pose proof (round_ratio_not_nan p q) as Hn.
  destruct (round_ratio p q) as [m e | b |]; simpl.
  - left. eauto.
  - right. eexists. split; reflexivity.
  - congruence.
Qed.

Lemma parse_of_match t m x y :
  first_match patterns (clean t) = Some m ->
  m = [(2%nat, y); (1%nat, x)] ->
  _parse_coordinates t =
  rbind (rbind (py_float x) py_int) (fun a =>
  rbind (rbind (py_float y) py_int) (fun b => Return (a, b))).
Proof.
  intros Hm ->. unfold _parse_coordinates. rewrite Hm. reflexivity.
Qed.

Lemma parse_error_without_shape t :
  ~ shape_occurs (clean t) ->
  _parse_coordinates t = Raise (CannotParse (clean t)).
Proof.
  intros H. apply first_match_none_iff in H.
  unfold _parse_coordinates. rewrite H. reflexivity.
Qed.

Lemma no_parse_error_with_shape t :
  shape_occurs (clean t) -> ~ raises_parse_error t.
Proof.
  intros Hs (e & He & Hc).
  destruct (first_match patterns (clean t)) as [m |] eqn:E.
  2:{ apply first_match_none_iff in E. contradiction. }
  destruct (first_match_groups _ E) as (x & y & Hm & Nx & Ny).
  rewrite (parse_of_match _ E Hm) in He.
  destruct (int_float_numeral Nx) as [(a & Ha) | (e1 & Ha & Hc1)];
    rewrite Ha in He; simpl in He.
  - destruct (int_float_numeral Ny) as [(b & Hb) | (e2 & Hb & Hc2)];
      rewrite Hb in He; simpl in He; [discriminate |].
    inversion He; subst. unfold isinstance in Hc. rewrite Hc2 in Hc.
    discriminate.
  - inversion He; subst. unfold isinstance in Hc. rewrite Hc1 in Hc.
    discriminate.
Qed.
End Numerals.

(* ================================================================== *)
(** * Cleaning the model's text *)
(* ================================================================== *)

Section Cleaning.

Lemma lstrip_solid s : starts_solid s -> lstrip s = s.
Proof. intros (c & s' & -> & Hc). simpl. rewrite Hc. reflexivity. Qed.

Lemma lstrip_app pre s :
  starts_solid s ->
  exists pre1, lstrip (pre ++ s) = pre1 ++ s /\ incl pre1 pre.
Proof.
  intros Hs. induction pre as [| c pre IH]; simpl.
  - exists []. split; [apply lstrip_solid; exact Hs | apply incl_refl].
  - destruct (is_space c).
    + destruct IH as (pre1 & H1 & H2). exists pre1.
      split; [exact H1 | apply incl_tl; exact H2].
    + exists (c :: pre). split; [reflexivity | apply incl_refl].
Qed.

Lemma starts_solid_app s t : starts_solid s -> starts_solid (s ++ t).
Proof. intros (c & s' & -> & Hc). exists c, (s' ++ t). auto. Qed.

Lemma ends_solid_rev s : ends_solid s -> starts_solid (rev s).
Proof.
  intros (s' & c & -> & Hc). rewrite rev_app_distr. simpl.
  exists c, (rev s'). auto.
Qed.

Lemma strip_keeps_core pre core post :
  starts_solid core -> ends_solid core ->
  exists pre1 post1,
    strip (pre ++ core ++ post) = pre1 ++ core ++ post1 /\
    incl pre1 pre /\ incl post1 post.
Proof.
  intros Hs He. unfold strip, rstrip.
  destruct (lstrip_app pre (starts_solid_app post Hs)) as (pre1 & -> & Hi1).
  rewrite !rev_app_distr, <- app_assoc.
  destruct (lstrip_app (rev post)
              (starts_solid_app (rev pre1) (ends_solid_rev He)))
    as (q & -> & Hq).
  exists pre1, (rev q). rewrite !rev_app_distr, !rev_involutive, <- app_assoc.
  split; [reflexivity |]. split; [exact Hi1 |].
  intros x Hx. apply in_rev in Hx. apply Hq in Hx. apply in_rev. exact Hx.
Qed.

Lemma remove_fences_triple c1 c2 c3 s3 :
  remove_fences (c1 :: c2 :: c3 :: s3) =
  if Ascii.eqb c1 backtick && Ascii.eqb c2 backtick && Ascii.eqb c3 backtick
  then remove_fences s3
  else c1 :: remove_fences (c2 :: c3 :: s3).
Proof. reflexivity. Qed.

Lemma remove_fences_short c1 s1 :
  (List.length s1 <= 1)%nat ->
  remove_fences (c1 :: s1) = c1 :: remove_fences s1.
Proof.
  destruct s1 as [| c2 [| c3 s3]]; simpl; intros H; try reflexivity. lia.
Qed.

Lemma remove_fences_solid c1 s1 :
  Ascii.eqb c1 backtick = false ->
  remove_fences (c1 :: s1) = c1 :: remove_fences s1.
Proof.
  intros Hc. destruct s1 as [| c2 [| c3 s3]]; try reflexivity.
  rewrite remove_fences_triple, Hc. reflexivity.
Qed.

Lemma remove_fences_incl : forall n s,
  (List.length s <= n)%nat -> incl (remove_fences s) s.
Proof.
  induction n as [| n IH]; intros s Hn.
  - destruct s; [apply incl_refl | simpl in Hn; lia].
  - destruct s as [| c1 [| c2 [| c3 s3]]]; try apply incl_refl.
    rewrite remove_fences_triple. simpl in Hn.
    destruct (Ascii.eqb c1 backtick && Ascii.eqb c2 backtick &&
              Ascii.eqb c3 backtick).
    + do 3 apply incl_tl. apply IH. lia.
    + apply incl_cons; [left; reflexivity |].
      apply incl_tl. apply (IH (c2 :: c3 :: s3)). simpl. lia.
Qed.

Lemma remove_fences_fence_free core post :
  fence_free core ->
  remove_fences (core ++ post) = core ++ remove_fences post.
Proof.
  induction 1 as [| c core Hc Hcore IH]; [reflexivity |].
  change ((c :: core) ++ post) with (c :: (core ++ post)).
  rewrite remove_fences_solid by exact Hc. rewrite IH. reflexivity.
Qed.

Lemma remove_fences_before : forall n pre s,
  (List.length pre <= n)%nat ->
  (exists c s', s = c :: s' /\ Ascii.eqb c backtick = false) ->
  remove_fences (pre ++ s) = remove_fences pre ++ remove_fences s.
Proof.
  induction n as [| n IH]; intros pre s Hn Hs.
  - destruct pre; [reflexivity | simpl in Hn; lia].
  - destruct pre as [| c1 [| c2 [| c3 p3]]].
    + reflexivity.
    + destruct Hs as (x & s' & -> & Hx).
      change ([c1] ++ x :: s') with (c1 :: x :: s').
      destruct s' as [| y s'].
      * reflexivity.
      * rewrite remove_fences_triple, Hx, andb_false_r. reflexivity.
    + destruct Hs as (x & s' & -> & Hx).
      change ([c1; c2] ++ x :: s') with (c1 :: c2 :: x :: s').
      rewrite remove_fences_triple, Hx, andb_false_r.
      change (c2 :: x :: s') with ([c2] ++ x :: s').
      rewrite (IH [c2] (x :: s')); [reflexivity | simpl in *; lia | eauto].
    + change ((c1 :: c2 :: c3 :: p3) ++ s)
        with (c1 :: c2 :: c3 :: (p3 ++ s)).
      rewrite !remove_fences_triple.
      destruct (Ascii.eqb c1 backtick && Ascii.eqb c2 backtick &&
                Ascii.eqb c3 backtick).
      * apply IH; [simpl in Hn; lia | exact Hs].
      * change (c2 :: c3 :: p3 ++ s) with ((c2 :: c3 :: p3) ++ s).
        rewrite (IH (c2 :: c3 :: p3) s); [reflexivity | simpl in *; lia | exact Hs].
Qed.

Lemma remove_fences_keeps_core pre core post :
  core <> [] -> fence_free core ->
  remove_fences (pre ++ core ++ post)
  = remove_fences pre ++ core ++ remove_fences post.
Proof.
  intros Hne Hf. rewrite remove_fences_before with (n := List.length pre).
  - rewrite remove_fences_fence_free by exact Hf. reflexivity.
  - lia.
  - destruct core as [| c core]; [congruence |].
    inversion Hf; subst. exists c, (core ++ post). auto.
Qed.

(** Cleaning leaves a solid, fence-free piece of the text in place and only
    removes characters around it. *)
Lemma clean_keeps_core pre core post :
  starts_solid core -> ends_solid core -> fence_free core ->
  exists pre' post',
    clean (pre ++ core ++ post) = pre' ++ core ++ post' /\
    incl pre' pre /\ incl post' post.
Proof.
  intros Hs He Hf. unfold clean.
  destruct (strip_keeps_core pre post Hs He) as (pre1 & post1 & -> & H1 & H2).
  rewrite remove_fences_keeps_core.
  - exists (remove_fences pre1), (remove_fences post1).
    split; [reflexivity |]. split.
    + eapply incl_tran; [apply remove_fences_incl with (n := List.length pre1); lia | exact H1].
    + eapply incl_tran; [apply remove_fences_incl with (n := List.length post1); lia | exact H2].
  - destruct Hs as (c & s' & -> & _). discriminate.
  - exact Hf.
Qed.

End Cleaning.

(* ================================================================== *)
(** * The characters of a coordinate pair *)
(* ================================================================== *)

Section PairCharacters.

Ltac by_cases_on_char c :=
  destruct c as [[] [] [] [] [] [] [] []]; try reflexivity; discriminate.

Lemma digit_is_solid c : is_digit c = true -> is_space c = false.
Proof. by_cases_on_char c. Qed.

Lemma digit_is_no_fence c : is_digit c = true -> Ascii.eqb c backtick = false.
Proof. by_cases_on_char c. Qed.

Lemma space_is_no_fence c : is_space c = true -> Ascii.eqb c backtick = false.
Proof. by_cases_on_char c. Qed.

Lemma space_is_no_digit c : is_space c = true -> is_digit c = false.
Proof. by_cases_on_char c. Qed.

Lemma fence_free_app s t : fence_free s -> fence_free t -> fence_free (s ++ t).
Proof. intros Hs Ht. apply Forall_app. split; assumption. Qed.

Lemma fence_free_cons c s :
  Ascii.eqb c backtick = false -> fence_free s -> fence_free (c :: s).
Proof. intros. constructor; assumption. Qed.

Lemma digits_fence_free s : all_in is_digit s -> fence_free s.
Proof.
  intros H. eapply Forall_impl; [| exact H]. apply digit_is_no_fence.
Qed.

Lemma spaces_fence_free s : spaces s -> fence_free s.
Proof.
  intros H. eapply Forall_impl; [| exact H]. apply space_is_no_fence.
Qed.

Lemma numeral_fence_free x : numeral x -> fence_free x.
Proof.
  intros [[_ H] | (ip & fp & -> & [_ Hi] & [_ Hf])].
  - apply digits_fence_free. exact H.
  - apply fence_free_app; [apply digits_fence_free; exact Hi |].
    apply fence_free_cons; [reflexivity | apply digits_fence_free; exact Hf].
Qed.

Lemma digits_starts_solid s t : digits s -> starts_solid (s ++ t).
Proof.
  intros [Hne Ha]. destruct s as [| c s]; [congruence |].
  inversion Ha; subst. exists c, (s ++ t). split; [reflexivity |].
  apply digit_is_solid. assumption.
Qed.

Lemma digits_ends_solid s t : digits s -> ends_solid (t ++ s).
Proof.
  intros [Hne Ha]. destruct (exists_last Hne) as (s' & c & ->).
  exists (t ++ s'), c. split; [apply app_assoc |].
  apply digit_is_solid. apply Forall_app in Ha. destruct Ha as [_ Hc].
  inversion Hc; subst. assumption.
Qed.

Lemma numeral_starts_solid x t : numeral x -> starts_solid (x ++ t).
Proof.
  intros [Hd | (ip & fp & -> & Hi & Hf)].
  - apply digits_starts_solid. exact Hd.
  - rewrite <- app_assoc. apply digits_starts_solid. exact Hi.
Qed.

Lemma numeral_ends_solid x t : numeral x -> ends_solid (t ++ x).
Proof.
  intros [Hd | (ip & fp & -> & Hi & Hf)].
  - apply digits_ends_solid. exact Hd.
  - replace (t ++ ip ++ "."%char :: fp) with ((t ++ ip ++ ["."%char]) ++ fp)
      by (rewrite <- !app_assoc; reflexivity).
    apply digits_ends_solid. exact Hf.
Qed.

(** Every accepted shape begins and ends with a visible character and
    holds no fence marker. *)
Lemma shape_is_solid m x y :
  paren_pair m x y \/ comma_pair m x y \/ space_pair m x y ->
  starts_solid m /\ ends_solid m /\ fence_free m.
Proof.
  intros [H | [H | H]].
  - destruct H as (w1 & w2 & w3 & w4 & -> & S1 & S2 & S3 & S4 & Nx & Ny).
    split; [eexists; eexists; split; reflexivity |]. split.
    + exists ("("%char :: w1 ++ x ++ w2 ++ ","%char :: w3 ++ y ++ w4), ")"%char.
      split; [| reflexivity]. simpl. rewrite <- !app_assoc. simpl.
      rewrite <- !app_assoc. reflexivity.
    + apply fence_free_cons; [reflexivity |].
      repeat first
        [ apply fence_free_app
        | apply fence_free_cons; [reflexivity |]
        | apply spaces_fence_free; assumption
        | apply numeral_fence_free; assumption
        | constructor ].
  - destruct H as (w1 & w2 & -> & S1 & S2 & Nx & Ny).
    split; [apply numeral_starts_solid; exact Nx |]. split.
    + replace (x ++ w1 ++ ","%char :: w2 ++ y)
        with ((x ++ w1 ++ ","%char :: w2) ++ y)
        by (rewrite <- !app_assoc; simpl; reflexivity).
      apply numeral_ends_solid. exact Ny.
    + repeat first
        [ apply fence_free_app
        | apply fence_free_cons; [reflexivity |]
        | apply spaces_fence_free; assumption
        | apply numeral_fence_free; assumption ].
  - destruct H as (w & -> & Hne & S1 & Nx & Ny).
    split; [apply numeral_starts_solid; exact Nx |]. split.
    + rewrite app_assoc. apply numeral_ends_solid. exact Ny.
    + repeat first
        [ apply fence_free_app
        | apply spaces_fence_free; assumption
        | apply numeral_fence_free; assumption ].
Qed.

(** A shape of the raw text is still there after cleaning. *)
Lemma clean_keeps_shape t : shape_occurs t -> shape_occurs (clean t).
Proof.
  intros (pre & m & post & x & y & -> & Hm).
  destruct (shape_is_solid Hm) as (Hs & He & Hf).
  destruct (clean_keeps_core pre post Hs He Hf) as (pre' & post' & -> & _).
  exists pre', m, post', x, y. auto.
Qed.

End PairCharacters.

(* ================================================================== *)
(** * When parsing fails *)
(* ================================================================== *)

Section ParseFailure.

Lemma lstrip_inside s : exists a, s = a ++ lstrip s.
Proof.
  induction s as [| c s IH]; simpl.
  - exists []. reflexivity.
  - destruct (is_space c).
    + destruct IH as (a & Ha). exists (c :: a). simpl. congruence.
    + exists []. reflexivity.
Qed.

Lemma strip_inside s : exists a b, s = a ++ strip s ++ b.
Proof.
  unfold strip, rstrip. destruct (lstrip_inside s) as (a & Ha).
  destruct (lstrip_inside (rev (lstrip s))) as (b & Hb).
  exists a, (rev b). rewrite Ha at 1. f_equal.
  rewrite <- rev_app_distr, <- Hb, rev_involutive. reflexivity.
Qed.

Lemma remove_fences_id s : fence_free s -> remove_fences s = s.
Proof.
  intros H. rewrite <- (app_nil_r s) at 1.
  rewrite remove_fences_fence_free by exact H. simpl. apply app_nil_r.
Qed.

Lemma fence_free_strip s : fence_free s -> fence_free (strip s).
Proof.
  intros H. destruct (strip_inside s) as (a & b & Hs). rewrite Hs in H.
  apply Forall_app in H. destruct H as [_ H].
  apply Forall_app in H. tauto.
Qed.

(** Without fence markers, what occurs in the cleaned text occurs in the
    text itself. *)
Lemma shape_of_clean t :
  fence_free t -> shape_occurs (clean t) -> shape_occurs t.
Proof.
  intros Hf (pre & m & post & x & y & Hc & Hm). unfold clean in Hc.
  rewrite remove_fences_id in Hc by (apply fence_free_strip; exact Hf).
  destruct (strip_inside t) as (a & b & Ht). rewrite Hc in Ht.
  exists (a ++ pre), m, (post ++ b), x, y. split; [| exact Hm].
  rewrite Ht, <- !app_assoc. reflexivity.
Qed.

(** C6. [parse] fails with a [ParseError] - the [ValueError] raised at the
    end of [_parse_coordinates], never another kind of error and never a
    made-up pair - exactly when no accepted coordinate shape occurs in the
    text that is searched: the input stripped of surrounding white space
    and with every fence marker deleted.  A shape of the input itself is
    never missed; for an input without fence markers the failure happens
    exactly when no shape occurs in the input; and the empty string fails
    in this way. *)
Theorem parse_error_iff_no_shape t :
  (raises_parse_error t <-> ~ shape_occurs (clean t)) /\
  (~ shape_occurs (clean t) ->
   _parse_coordinates t = Raise (CannotParse (clean t))) /\
  (shape_occurs t -> shape_occurs (clean t)) /\
  (fence_free t -> (shape_occurs (clean t) <-> shape_occurs t)) /\
  _parse_coordinates [] = Raise (CannotParse []).
Proof.
  split; [| split; [| split; [| split]]].
  - split.
    + intros Hr Hs. exact (no_parse_error_with_shape Hs Hr).
    + intros Hn. exists (CannotParse (clean t)).
      split; [apply parse_error_without_shape; exact Hn | reflexivity].
  - apply parse_error_without_shape.
  - apply clean_keeps_shape.
  - intros Hf. split; [apply shape_of_clean; exact Hf | apply clean_keeps_shape].
  - reflexivity.
Qed.

End ParseFailure.

Lemma parse_error_iff_no_shape_witness :
  ~ shape_occurs (clean (txt "no coordinates here")) /\
  _parse_coordinates (txt "no coordinates here")
  = Raise (CannotParse (txt "no coordinates here")).
Proof.
  assert (H : ~ shape_occurs (clean (txt "no coordinates here"))).
  { apply first_match_none_iff. reflexivity. }
  split; [exact H |].
  exact (proj1 (proj2 (parse_error_iff_no_shape (txt "no coordinates here"))) H).
Defined.

(** C6, the input text itself.  No accepted shape occurs in [1```, 2]: the
    fence marker stands between the numeral and the comma.  The parser
    deletes the marker first and reads the pair (1, 2) from what is left,
    so the absence of a shape in the input does not make it fail. *)
Lemma fence_marker_joins_a_pair :
  ~ shape_occurs (txt "1```, 2") /\
  _parse_coordinates (txt "1```, 2") = Return (1, 2) /\
  ~ fails_exactly_without_shape.
Proof.
  assert (Hn : ~ shape_occurs (txt "1```, 2")).
  { apply first_match_none_iff. vm_compute. reflexivity. }
  assert (Hp : _parse_coordinates (txt "1```, 2") = Return (1, 2)).
  { vm_compute. reflexivity. }
  split; [exact Hn | split; [exact Hp |]].
  intros H. apply (H (txt "1```, 2")) in Hn.
  destruct Hn as (e & He & _). rewrite Hp in He. discriminate He.
Qed.

(* ================================================================== *)
(** * Where the double arithmetic is exact *)
(* ================================================================== *)

Section FloatExact.

Lemma rhe_bounds a b : 0 < b ->
  a / b <= round_half_even a b <= a / b + 1 /\
  (round_half_even a b = a / b + 1 -> b <= 2 * (a mod b)).
Proof.
  intros Hb. unfold round_half_even.
  destruct (Z.compare_spec (2 * (a mod b)) b) as [E | E | E].
  - destruct (Z.even (a / b)); split; try lia.
  - split; [lia |]. lia.
  - split; lia.
Qed.


Lemma rhe_scaled_floor n d s :
  0 <= n -> 0 < d -> 0 < s -> d < 2 ^ (s + 1) ->
  round_half_even (n * 2 ^ s) d / 2 ^ s = n / d.
Proof.
  intros Hn Hd Hs Hlt.
  assert (Hp : 0 < 2 ^ s) by (apply Z.pow_pos_nonneg; lia).
  assert (Hp1 : 2 ^ (s + 1) = 2 * 2 ^ s) by (rewrite Z.pow_add_r by lia; lia).
  set (I := n / d). set (N := n * 2 ^ s).
  pose proof (Z.div_mod n d ltac:(lia)) as Hnd.
  pose proof (Z.mod_pos_bound n d Hd) as Hr.
  pose proof (Z.div_mod N d ltac:(lia)) as HNd.
  pose proof (Z.mod_pos_bound N d Hd) as HR.
  destruct (@rhe_bounds N d Hd) as ((Hlo & Hhi) & Hup).
  fold I in Hnd. 
  symmetry. apply Z.div_unique_pos with (r := round_half_even N d - I * 2 ^ s).
  2: lia.
  assert (Hq1 : I * 2 ^ s <= N / d).
  { apply Z.div_le_lower_bound; [lia |]. unfold N. nia. }
  assert (Hq2 : N / d < (I + 1) * 2 ^ s).
  { apply Z.div_lt_upper_bound; [lia |]. unfold N. nia. }
  split; [lia |].
  destruct (Z.eq_dec (round_half_even N d) (N / d + 1)) as [E | E]; [| lia].
  specialize (Hup E).
  (* q + 1 < (I+1) 2^s *)
  assert (N / d + 1 < (I + 1) * 2 ^ s); [| lia].
  destruct (Z.lt_ge_cases (N / d + 1) ((I + 1) * 2 ^ s)) as [|Hge]; [assumption | exfalso].
  assert (Hq : N / d = (I + 1) * 2 ^ s - 1) by lia.
  rewrite Hq in HNd. unfold N in *. 
  assert (((I + 1) * d - n) * 2 ^ s * 2 <= d) by nia.
  assert (1 <= (I + 1) * d - n) by nia.
  nia.
Qed.

Lemma floor_log2_ratio_spec p q :
  0 < p -> 0 < q ->
  let E := floor_log2_ratio p q in
  E <= Z.log2 p /\ (0 <= E -> q * 2 ^ E <= p).
Proof.
  intros Hp Hq E. unfold E, floor_log2_ratio.
  pose proof (Z.log2_nonneg q) as Hlq.
  pose proof (Z.log2_spec p Hp) as [Hp1 Hp2].
  pose proof (Z.log2_spec q Hq) as [Hq1 Hq2].
  set (l := Z.log2 p - Z.log2 q).
  destruct (Z.leb_spec 0 l) as [Hl | Hl].
  - destruct (Z.leb_spec (q * 2 ^ l) p) as [H | H].
    + split; [lia | intros _; exact H].
    + split; [lia |]. intros Hl1.
      assert (2 ^ (Z.log2 q + 1 + (l - 1)) = 2 ^ Z.log2 p) by (f_equal; lia).
      rewrite Z.pow_add_r in H0 by lia.
      assert (0 < 2 ^ (l - 1)) by (apply Z.pow_pos_nonneg; lia).
      nia.
  - destruct (Z.leb_spec q (p * 2 ^ (- l))); split; lia.
Qed.

Lemma round_ratio_exact_floor n d :
  0 <= n -> 0 < d -> n + d <= 2 ^ 53 ->
  py_int (round_ratio n d) = Return (n / d).
Proof.
  intros Hn Hd Hb. unfold round_ratio.
  destruct n as [| n | n]; [rewrite Z.div_0_l by lia; reflexivity | | lia].
  set (p := Z.pos n) in *. assert (Hp : 0 < p) by (unfold p; lia).
  unfold round_pos.
  destruct (@floor_log2_ratio_spec p d Hp Hd) as [HE1 HE2].
  set (E := floor_log2_ratio p d) in *.
  assert (HL : Z.log2 p <= 52).
  { assert (Z.log2 p < 53); [| lia]. apply Z.log2_lt_pow2; lia. }
  set (e := Z.max (E - 52) (-1074)).
  destruct (Z.leb_spec 0 e) as [He | He].
  - (* e = 0, E = 52, d = 1 *)
    assert (E = 52) by lia. assert (He0 : e = 0) by lia.
    specialize (HE2 ltac:(lia)). rewrite H in HE2.
    assert (d = 1) by lia. subst d. rewrite He0.
    change (0 <=? 0) with true. cbv iota. change (2 ^ 0) with 1.
    assert (Hr : round_half_even p (1 * 1) = p).
    { unfold round_half_even. change (1 * 1) with 1.
      rewrite Z.mod_1_r, Z.div_1_r. reflexivity. }
    rewrite Hr.
    destruct (Z.leb_spec (2 ^ 1024) (p * 1)) as [Hov | Hov].
    + exfalso. assert (2 ^ 53 < 2 ^ 1024) by (apply Z.pow_lt_mono_r; lia). lia.
    + simpl andb. cbv iota. unfold py_int. change (0 <=? 0) with true.
      cbv iota. rewrite Z.mul_1_r, Z.div_1_r. reflexivity.
  - destruct (Z.leb_spec 0 e) as [|_]; [lia |].
    simpl andb. cbv iota. unfold py_int.
    destruct (Z.leb_spec 0 e) as [|_]; [lia |].
    f_equal. set (s := - e). assert (Hs : 0 < s) by lia.
    assert (Hm : 0 <= round_half_even (p * 2 ^ s) d).
    { destruct (@rhe_bounds (p * 2 ^ s) d Hd) as ((Hlo & _) & _).
      assert (0 <= p * 2 ^ s / d); [| lia].
      apply Z.div_pos; [| lia]. apply Z.mul_nonneg_nonneg; [lia |].
      apply Z.pow_nonneg. lia. }
    rewrite Z.quot_div_nonneg by (try assumption; apply Z.pow_pos_nonneg; lia).
    apply rhe_scaled_floor; try lia.
    (* d < 2 ^ (s + 1) *)
    destruct (Z.le_gt_cases E 0) as [HE0 | HE0].
    + assert (2 ^ 53 <= 2 ^ (s + 1)) by (apply Z.pow_le_mono_r; lia). lia.
    + specialize (HE2 ltac:(lia)).
      assert (s = 52 - E) by lia.
      assert (Hpow : 2 ^ (s + 1) * 2 ^ E = 2 ^ 53).
      { rewrite <- Z.pow_add_r by lia. f_equal. lia. }
      assert (0 < 2 ^ E) by (apply Z.pow_pos_nonneg; lia).
      nia.
Qed.

Lemma digit_value_bounds c : is_digit c = true -> 0 <= digit_value c <= 9.
Proof.
  unfold is_digit, digit_value. intros H. apply andb_prop in H.
  destruct H as [H1 H2]. apply N.leb_le in H1. apply N.leb_le in H2. lia.
Qed.

Lemma digits_value_from acc s :
  fold_left (fun a c => 10 * a + digit_value c) s acc
  = acc * 10 ^ Z.of_nat (List.length s) + digits_value s.
Proof.
  unfold digits_value. revert acc.
  induction s as [| c s IH]; intros acc; cbn [fold_left List.length].
  - change (10 ^ Z.of_nat 0) with 1. lia.
  - rewrite (IH (10 * acc + digit_value c)), (IH (10 * 0 + digit_value c)).
    rewrite Nat2Z.inj_succ, Z.pow_succ_r by lia. lia.
Qed.

Lemma digits_value_app a b :
  digits_value (a ++ b)
  = digits_value a * 10 ^ Z.of_nat (List.length b) + digits_value b.
Proof.
  unfold digits_value at 1. rewrite fold_left_app.
  fold (digits_value a). apply digits_value_from.
Qed.

Lemma digits_value_bound s :
  all_in is_digit s -> 0 <= digits_value s < 10 ^ Z.of_nat (List.length s).
Proof.
  induction s as [| c s IH] using rev_ind; intros H.
  - simpl. unfold digits_value. simpl. lia.
  - apply Forall_app in H. destruct H as [Hs Hc]. inversion Hc; subst.
    specialize (IH Hs). rewrite digits_value_app, length_app.
    pose proof (digit_value_bounds _ H1) as Hd.
    replace (digits_value [c]) with (digit_value c)
      by (unfold digits_value; simpl; lia).
    simpl List.length.
    replace (Z.of_nat (List.length s + 1)) with (Z.of_nat (List.length s) + 1)
      by lia.
    rewrite Z.pow_add_r by lia. change (10 ^ Z.of_nat 1) with 10.
    change (10 ^ 1) with 10. lia.
Qed.

Lemma pow10_le_2_53 k : 0 <= k <= 15 -> 10 ^ k + 10 ^ (k - 1) <= 2 ^ 53.
Proof.
  intros Hk.
  assert (H15 : 10 ^ k <= 10 ^ 15) by (apply Z.pow_le_mono_r; lia).
  assert (H14 : 10 ^ (k - 1) <= 10 ^ 14).
  { destruct (Z.eq_dec k 0) as [-> | Hn]; [vm_compute; discriminate |].
    apply Z.pow_le_mono_r; lia. }
  assert (10 ^ 15 + 10 ^ 14 <= 2 ^ 53) by (vm_compute; discriminate).
  lia.
Qed.

(** A numeral of at most 15 digits is converted by exact truncation. *)
Lemma int_float_short_integer ip :
  digits ip -> (List.length ip <= 15)%nat ->
  rbind (py_float ip) py_int = Return (digits_value ip).
Proof.
  intros Hd Hl. unfold py_float.
  rewrite (split_dot_digits (proj2 Hd)), (is_numeral_part_digits Hd).
  simpl rbind. pose proof (digits_value_bound (proj2 Hd)) as Hb.
  rewrite round_ratio_exact_floor; [rewrite Z.div_1_r; reflexivity | lia | lia |].
  assert (10 ^ Z.of_nat (List.length ip) <= 10 ^ 15)
    by (apply Z.pow_le_mono_r; lia).
  assert (10 ^ 15 + 1 <= 2 ^ 53) by (vm_compute; discriminate). lia.
Qed.

Lemma int_float_short_fraction ip fp :
  digits ip -> digits fp -> (List.length ip + List.length fp <= 15)%nat ->
  rbind (py_float (ip ++ "."%char :: fp)) py_int = Return (digits_value ip).
Proof.
  intros Hi Hf Hl. unfold py_float.
  rewrite (split_dot_fraction fp (proj2 Hi)),
    (is_numeral_part_digits Hi), (is_numeral_part_digits Hf).
  simpl rbind.
  pose proof (digits_value_bound (proj2 Hi)) as Bi.
  pose proof (digits_value_bound (proj2 Hf)) as Bf.
  set (d := 10 ^ Z.of_nat (List.length fp)) in *.
  assert (Hd : 0 < d) by (apply Z.pow_pos_nonneg; lia).
  assert (Hip : (1 <= List.length ip)%nat).
  { destruct Hi as [Hne _]. destruct ip; [congruence | simpl; lia]. }
  rewrite digits_value_app. fold d.
  rewrite round_ratio_exact_floor; [| nia | lia |].
  - f_equal. symmetry. apply Z.div_unique_pos with (r := digits_value fp); lia.
  - set (k := Z.of_nat (List.length ip + List.length fp)).
    assert (Hk : 10 ^ k = 10 ^ Z.of_nat (List.length ip) * d).
    { unfold k, d. rewrite Nat2Z.inj_add, Z.pow_add_r by lia. reflexivity. }
    assert (Hd1 : d <= 10 ^ (k - 1)).
    { unfold d, k. apply Z.pow_le_mono_r; lia. }
    pose proof (pow10_le_2_53 (k := k) ltac:(unfold k; lia)). nia.
Qed.

End FloatExact.

(* ================================================================== *)
(** * Running the matcher forward on a well-formed pair *)
(* ================================================================== *)

Section GreedyRuns.

Lemma star_loop_run R p (k : text -> option R) s1 s2 x :
  all_in p s1 -> stops p s2 -> k s2 = Some x ->
  star_loop p (s1 ++ s2) k = Some x.
Proof.
  intros Ha Hs Hk. induction Ha as [| c s1 Hc Ha IH]; simpl.
  - destruct s2 as [| c s2]; [exact Hk |]. simpl in *. rewrite Hs. exact Hk.
  - rewrite Hc, IH. reflexivity.
Qed.

Lemma plus_loop_run R p (k : text -> option R) s1 s2 x :
  s1 <> [] -> all_in p s1 -> stops p s2 -> k s2 = Some x ->
  plus_loop p (s1 ++ s2) k = Some x.
Proof.
  intros Hne Ha Hs Hk. destruct s1 as [| c s1]; [congruence |].
  inversion Ha; subst. simpl. rewrite H1.
  apply star_loop_run; assumption.
Qed.

Lemma plus_loop_stops R p (k : text -> option R) s :
  stops p s -> plus_loop p s k = None.
Proof.
  intros H. destruct s as [| c s]; [reflexivity |]. simpl in *.
  rewrite H. reflexivity.
Qed.

Lemma rmatch_lit_hit c s caps k :
  rmatch (Lit c) (c :: s) caps k = k s caps.
Proof. cbn [rmatch]. rewrite Ascii.eqb_refl. reflexivity. Qed.

Lemma rmatch_lit_miss c s caps k :
  match s with [] => True | c' :: _ => Ascii.eqb c c' = false end ->
  rmatch (Lit c) s caps k = None.
Proof.
  intros H. cbn [rmatch]. destruct s as [| c' s]; [reflexivity |].
  rewrite H. reflexivity.
Qed.

Lemma rmatch_cat r1 r2 s caps k :
  rmatch (Cat r1 r2) s caps k
  = rmatch r1 s caps (fun s' caps' => rmatch r2 s' caps' k).
Proof. reflexivity. Qed.

Lemma rmatch_opt_skip r s caps k :
  rmatch r s caps k = None -> rmatch (Opt r) s caps k = k s caps.
Proof. intros H. cbn [rmatch]. rewrite H. reflexivity. Qed.

Lemma rmatch_star_run cl s1 s2 caps k x :
  all_in (in_class cl) s1 -> stops (in_class cl) s2 ->
  k s2 caps = Some x ->
  rmatch (Star cl) (s1 ++ s2) caps k = Some x.
Proof.
  intros Ha Hs Hk. cbn [rmatch].
  apply (star_loop_run (fun s' => k s' caps)); assumption.
Qed.

Lemma rmatch_plus_run cl s1 s2 caps k x :
  s1 <> [] -> all_in (in_class cl) s1 -> stops (in_class cl) s2 ->
  k s2 caps = Some x ->
  rmatch (Plus cl) (s1 ++ s2) caps k = Some x.
Proof.
  intros Hne Ha Hs Hk. cbn [rmatch].
  apply (plus_loop_run (fun s' => k s' caps)); assumption.
Qed.

Lemma rmatch_plus_stops cl s caps k :
  stops (in_class cl) s -> rmatch (Plus cl) s caps k = None.
Proof. intros H. cbn [rmatch]. apply plus_loop_stops. exact H. Qed.

Lemma fraction_fails rest caps k :
  stops is_digit rest -> no_fraction rest ->
  rmatch (Cat (Lit ".") (Plus Digit)) rest caps k = None.
Proof.
  intros Hs Hf. rewrite rmatch_cat.
  destruct rest as [| c rest]; [reflexivity |].
  destruct (Ascii.eqb "." c) eqn:E.
  - apply Ascii.eqb_eq in E. subst c. rewrite rmatch_lit_hit.
    apply rmatch_plus_stops. destruct rest as [| c2 rest]; [exact I |].
    apply Hf. reflexivity.
  - apply rmatch_lit_miss. exact E.
Qed.

(** A run of digits that is not followed by a fraction is taken whole. *)
Lemma number_run d rest caps k x :
  digits d -> stops is_digit rest -> no_fraction rest ->
  k rest caps = Some x ->
  rmatch number (d ++ rest) caps k = Some x.
Proof.
  intros [Hne Ha] Hs Hf Hk. unfold number. rewrite rmatch_cat.
  apply rmatch_plus_run; try assumption.
  rewrite rmatch_opt_skip by (apply fraction_fails; assumption).
  exact Hk.
Qed.

Lemma group_number_run i d rest caps k x :
  digits d -> stops is_digit rest -> no_fraction rest ->
  k rest ((i, d) :: caps) = Some x ->
  rmatch (Group i number) (d ++ rest) caps k = Some x.
Proof.
  intros Hd Hs Hf Hk. cbn [rmatch]. apply number_run; try assumption.
  rewrite length_app, Nat.add_sub, firstn_app, Nat.sub_diag, firstn_all.
  cbn [firstn]. rewrite app_nil_r. exact Hk.
Qed.

Lemma digits_stop_space d rest : digits d -> stops is_space (d ++ rest).
Proof.
  intros [Hne Ha]. destruct d as [| c d]; [congruence |].
  inversion Ha; subst. apply digit_is_solid. assumption.
Qed.

Lemma digit_free_stops s : digit_free s -> stops is_digit s.
Proof. intros H. destruct s; [exact I |]. inversion H; subst. assumption. Qed.

Lemma digit_free_no_fraction s : digit_free s -> no_fraction s.
Proof.
  intros H. destruct s as [| c [| c2 s]]; try exact I.
  intros _. inversion H; subst.
  match goal with X : Forall _ (c2 :: s) |- _ => inversion X; subst end.
  assumption.
Qed.

(** [x, y] followed by prose: the comma pattern takes both numbers whole. *)
Lemma comma_pattern_here da db post :
  digits da -> digits db -> digit_free post ->
  match_here pat_comma (da ++ ","%char :: " "%char :: db ++ post)
  = Some (pair_groups da db).
Proof.
  intros Ha Hb Hp. unfold match_here, pat_comma. rewrite rmatch_cat.
  apply group_number_run;
    [exact Ha | reflexivity | intros H; cbv in H; discriminate H |].
  rewrite rmatch_cat.
  apply rmatch_star_run
    with (s1 := []) (s2 := ","%char :: " "%char :: db ++ post);
    [constructor | reflexivity |].
  rewrite rmatch_cat, rmatch_lit_hit, rmatch_cat.
  apply rmatch_star_run with (s1 := [" "%char]) (s2 := db ++ post).
  - constructor; [reflexivity | constructor].
  - apply digits_stop_space. exact Hb.
  - apply group_number_run; try assumption.
    + apply digit_free_stops. exact Hp.
    + apply digit_free_no_fraction. exact Hp.
    + reflexivity.
Qed.

(** [x y] followed by prose: the whitespace pattern takes both numbers. *)
Lemma space_pattern_here da db post :
  digits da -> digits db -> digit_free post ->
  match_here pat_space (da ++ " "%char :: db ++ post)
  = Some (pair_groups da db).
Proof.
  intros Ha Hb Hp. unfold match_here, pat_space. rewrite rmatch_cat.
  apply group_number_run; [exact Ha | reflexivity | |].
  { destruct Hb as [Hne _]. destruct db as [| b db']; [congruence |].
    intros H. cbv in H. discriminate H. }
  rewrite rmatch_cat.
  apply rmatch_plus_run with (s1 := [" "%char]) (s2 := db ++ post).
  - discriminate.
  - constructor; [reflexivity | constructor].
  - apply digits_stop_space. exact Hb.
  - apply group_number_run; try assumption.
    + apply digit_free_stops. exact Hp.
    + apply digit_free_no_fraction. exact Hp.
    + reflexivity.
Qed.

(** A pattern that begins with a number cannot start on prose. *)
Lemma number_first_skips r c s :
  is_digit c = false ->
  match_here (Cat (Group 1 number) r) (c :: s) = None.
Proof.
  intros Hc. unfold match_here, number. rewrite rmatch_cat. cbn [rmatch].
  unfold plus_loop. cbn [in_class]. rewrite Hc. reflexivity.
Qed.

Lemma re_search_skips_prose r pre s :
  digit_free pre -> s <> [] ->
  re_search (Cat (Group 1 number) r) (pre ++ s)
  = re_search (Cat (Group 1 number) r) s.
Proof.
  intros Hp Hs. induction Hp as [| c pre Hc Hp IH]; [reflexivity |].
  change ((c :: pre) ++ s) with (c :: (pre ++ s)).
  cbn [re_search]. rewrite number_first_skips by exact Hc. exact IH.
Qed.

Lemma re_search_here r s m :
  match_here r s = Some m -> re_search r s = Some m.
Proof. intros H. destruct s; cbn [re_search]; rewrite H; reflexivity. Qed.

Lemma comma_pattern_found pre da db post :
  digit_free pre -> digits da -> digits db -> digit_free post ->
  re_search pat_comma (pre ++ da ++ ","%char :: " "%char :: db ++ post)
  = Some (pair_groups da db).
Proof.
  intros Hp Ha Hb Hq. unfold pat_comma.
  rewrite re_search_skips_prose; [| exact Hp |].
  - apply re_search_here. apply comma_pattern_here; assumption.
  - destruct Ha as [Hne _]. destruct da; [congruence | discriminate].
Qed.

Lemma space_pattern_found pre da db post :
  digit_free pre -> digits da -> digits db -> digit_free post ->
  re_search pat_space (pre ++ da ++ " "%char :: db ++ post)
  = Some (pair_groups da db).
Proof.
  intros Hp Ha Hb Hq. unfold pat_space.
  rewrite re_search_skips_prose; [| exact Hp |].
  - apply re_search_here. apply space_pattern_here; assumption.
  - destruct Ha as [Hne _]. destruct da; [congruence | discriminate].
Qed.

End GreedyRuns.

(* ================================================================== *)
(** * Reading a pair back from a text *)
(* ================================================================== *)

(** Brings both sides of an equation between concatenations to the
    right-nested form. *)
Ltac norm_app :=
  repeat first [rewrite <- app_assoc | rewrite <- app_comm_cons];
  cbn [app].

Section Uniqueness.

(** Two maximal runs of one class that start at the same place are equal. *)
Lemma span_unique (p : ascii -> bool) :
  forall a b r r',
    all_in p a -> all_in p b -> stops p r -> stops p r' ->
    a ++ r = b ++ r' -> a = b /\ r = r'.
Proof.
  induction a as [| c a IH]; intros b r r' Ha Hb Hr Hr' E.
  - destruct b as [| d b]; [auto |].
    simpl in E. subst r. inversion Hb; subst. simpl in Hr. congruence.
  - destruct b as [| d b].
    + simpl in E. subst r'. inversion Ha; subst. simpl in Hr'. congruence.
    + simpl in E. inversion E; subst. inversion Ha; subst. inversion Hb; subst.
      destruct (IH b r r') as [-> ->]; auto.
Qed.

Lemma digit_free_app a b : digit_free a -> digit_free b -> digit_free (a ++ b).
Proof. intros Ha Hb. apply Forall_app. split; assumption. Qed.

Lemma digit_free_incl a b : incl a b -> digit_free b -> digit_free a.
Proof.
  intros Hi Hb. apply Forall_forall. intros x Hx.
  unfold digit_free in Hb. rewrite Forall_forall in Hb. auto.
Qed.

Lemma digit_free_no_digit s : digit_free s -> has_digit s -> False.
Proof.
  intros Hf Hd. apply Exists_exists in Hd. destruct Hd as (c & Hin & Hc).
  unfold digit_free in Hf. rewrite Forall_forall in Hf.
  rewrite (Hf c Hin) in Hc. discriminate.
Qed.

Lemma has_digit_app_l a b : has_digit a -> has_digit (a ++ b).
Proof. intros H. apply Exists_app. left. exact H. Qed.

Lemma has_digit_app_r a b : has_digit b -> has_digit (a ++ b).
Proof. intros H. apply Exists_app. right. exact H. Qed.

Lemma digits_have_digit s : digits s -> has_digit s.
Proof.
  intros [Hne Ha]. destruct s as [| c s]; [congruence |].
  inversion Ha; subst. left. assumption.
Qed.

Lemma numeral_has_digit x : numeral x -> has_digit x.
Proof.
  intros [Hd | (ip & fp & -> & Hi & _)].
  - apply digits_have_digit. exact Hd.
  - apply has_digit_app_l. apply digits_have_digit. exact Hi.
Qed.

(** A character with digits on both sides lies between the first and the
    last digit of the text. *)
Lemma between_digits pre mid post L ch R :
  pre ++ mid ++ post = L ++ ch :: R ->
  digit_free pre -> digit_free post ->
  has_digit L -> has_digit R ->
  In ch mid.
Proof.
  intros E Hpre Hpost HL HR.
  apply app_eq_app in E. destruct E as (l & [[E1 E2] | [E1 E2]]).
  - exfalso. subst pre. apply Forall_app in Hpre.
    exact (digit_free_no_digit (proj1 Hpre) HL).
  - apply app_eq_app in E2. destruct E2 as (l' & [[E3 E4] | [E3 E4]]).
    + destruct l' as [| x l'].
      * exfalso. simpl in E4. subst post.
        inversion Hpost; subst.
        match goal with X : Forall _ R |- _ =>
          exact (digit_free_no_digit X HR) end.
      * simpl in E4. inversion E4; subst.
        apply in_or_app. right. left. reflexivity.
    + exfalso. subst post. apply Forall_app in Hpost.
      destruct Hpost as [_ Hp]. inversion Hp; subst.
      match goal with X : Forall _ R |- _ =>
        exact (digit_free_no_digit X HR) end.
Qed.

Lemma comma_not_in_space_pair da db :
  digits da -> digits db -> ~ In ","%char (da ++ " "%char :: db).
Proof.
  intros [_ Ha] [_ Hb] Hin. apply in_app_or in Hin.
  unfold all_in in Ha, Hb. rewrite Forall_forall in Ha, Hb.
  destruct Hin as [Hin | [Hin | Hin]].
  - apply Ha in Hin. discriminate.
  - discriminate.
  - apply Hb in Hin. discriminate.
Qed.

(** In [x y] surrounded by prose no pattern with a comma can match. *)
Lemma comma_patterns_absent pre da db post :
  digit_free pre -> digits da -> digits db -> digit_free post ->
  ~ occurs pat_paren (pre ++ (da ++ " "%char :: db) ++ post) /\
  ~ occurs pat_comma (pre ++ (da ++ " "%char :: db) ++ post).
Proof.
  intros Hp Ha Hb Hq. split; intros (A & m & B & caps & E & Hm).
  - apply matches_pat_paren in Hm.
    destruct Hm as (x & y & (w1 & w2 & w3 & w4 & -> & _ & _ & _ & _ & Nx & Ny) & _).
    apply (comma_not_in_space_pair Ha Hb).
    apply between_digits with (pre := pre) (post := post)
             (L := A ++ "("%char :: w1 ++ x ++ w2)
             (R := w3 ++ y ++ w4 ++ ")"%char :: B); try assumption.
    + rewrite E. norm_app. reflexivity.
    + apply has_digit_app_r. right. apply has_digit_app_r.
      apply has_digit_app_l. apply numeral_has_digit. exact Nx.
    + apply has_digit_app_r. apply has_digit_app_l.
      apply numeral_has_digit. exact Ny.
  - apply matches_pat_comma in Hm.
    destruct Hm as (x & y & (w1 & w2 & -> & _ & _ & Nx & Ny) & _).
    apply (comma_not_in_space_pair Ha Hb).
    apply between_digits with (pre := pre) (post := post)
             (L := A ++ x ++ w1) (R := w2 ++ y ++ B); try assumption.
    + rewrite E. norm_app. reflexivity.
    + apply has_digit_app_r. apply has_digit_app_l.
      apply numeral_has_digit. exact Nx.
    + apply has_digit_app_r. apply has_digit_app_l.
      apply numeral_has_digit. exact Ny.
Qed.

Lemma numeral_split x :
  numeral x ->
  exists ip frac,
    x = ip ++ frac /\ digits ip /\
    (frac = [] \/ exists fp, frac = "."%char :: fp /\ digits fp).
Proof.
  intros [Hd | (ip & fp & -> & Hi & Hf)].
  - exists x, []. rewrite app_nil_r. auto.
  - exists ip, ("."%char :: fp). split; [reflexivity |]. split; [exact Hi |].
    right. eauto.
Qed.

Lemma digit_free_all_in s :
  digit_free s <-> all_in (fun c => negb (is_digit c)) s.
Proof.
  unfold digit_free, all_in. split; intros H;
    (eapply Forall_impl; [| exact H]); intros c Hc; simpl in *;
    destruct (is_digit c); simpl in *; congruence.
Qed.

Lemma digit_free_or_not s : digit_free s \/ has_digit s.
Proof.
  induction s as [| c s IH]; [left; constructor |].
  destruct (is_digit c) eqn:Hc.
  - right. left. exact Hc.
  - destruct IH as [IH | IH]; [left; constructor; assumption | right; right; exact IH].
Qed.

Lemma spaces_digit_free w : spaces w -> digit_free w.
Proof.
  intros H. eapply Forall_impl; [| exact H]. apply space_is_no_digit.
Qed.

Lemma stops_digit_after_number frac w c rest :
  (frac = [] \/ exists fp, frac = "."%char :: fp /\ digits fp) ->
  spaces w -> is_digit c = false ->
  stops is_digit (frac ++ w ++ c :: rest).
Proof.
  intros [-> | (fp & -> & _)] Hw Hc; [| reflexivity].
  destruct w as [| d w]; [exact Hc |].
  inversion Hw; subst. apply space_is_no_digit. assumption.
Qed.

(** In [x, y] surrounded by prose, a parenthesized pair can only be read
    with [x] and [y] as its two numbers. *)
Lemma paren_pair_unique pre da db post A s B x y :
  digit_free pre -> digits da -> digits db -> digit_free post ->
  pre ++ da ++ ","%char :: " "%char :: db ++ post = A ++ s ++ B ->
  paren_pair s x y ->
  x = da /\ y = db.
Proof.
  intros Hp Ha Hb Hq E (w1 & w2 & w3 & w4 & -> & S1 & S2 & S3 & S4 & Nx & Ny).
  destruct (numeral_split Nx) as (ip & fr & -> & Hip & Hfr).
  destruct (numeral_split Ny) as (ip2 & fr2 & -> & Hip2 & Hfr2).
  (* the text before the first number is prose *)
  assert (HA : digit_free A).
  { destruct (digit_free_or_not A) as [H | H]; [exact H | exfalso].
    assert (Hin : In "("%char (da ++ ","%char :: " "%char :: db)).
    { apply between_digits with (pre := pre) (post := post) (L := A)
        (R := w1 ++ (ip ++ fr) ++ w2 ++ ","%char :: w3 ++ (ip2 ++ fr2) ++ w4
                 ++ [")"%char] ++ B); try assumption.
      - etransitivity; [| etransitivity; [exact E |]]; norm_app; reflexivity.
      - apply has_digit_app_r. apply has_digit_app_l. apply has_digit_app_l.
        apply digits_have_digit. exact Hip. }
    destruct Ha as [_ Ha]. destruct Hb as [_ Hb].
    unfold all_in in Ha, Hb. rewrite Forall_forall in Ha, Hb.
    apply in_app_or in Hin. destruct Hin as [Hin | [Hin | [Hin | Hin]]].
    - apply Ha in Hin. discriminate.
    - discriminate.
    - discriminate.
    - apply Hb in Hin. discriminate. }
  assert (E1 : pre ++ (da ++ ","%char :: " "%char :: db ++ post)
               = (A ++ "("%char :: w1) ++
                 (ip ++ fr ++ w2 ++ ","%char :: w3 ++ (ip2 ++ fr2) ++ w4
                     ++ ")"%char :: B)).
  { rewrite E. norm_app. reflexivity. }
  apply (span_unique (p := fun c => negb (is_digit c))) in E1.
  2:{ apply digit_free_all_in. exact Hp. }
  2:{ apply digit_free_all_in. apply digit_free_app; [exact HA |].
      constructor; [reflexivity | apply spaces_digit_free; exact S1]. }
  2:{ destruct Ha as [Hne Ha]. destruct da as [| c da]; [congruence |].
      inversion Ha; subst. simpl.
      match goal with X : is_digit c = true |- _ => rewrite X end. reflexivity. }
  2:{ destruct Hip as [Hne Hi]. destruct ip as [| c ip]; [congruence |].
      inversion Hi; subst. simpl.
      match goal with X : is_digit c = true |- _ => rewrite X end. reflexivity. }
  destruct E1 as [_ E2].
  (* the first number *)
  apply (span_unique (p := is_digit)) in E2;
    [| exact (proj2 Ha) | exact (proj2 Hip) | reflexivity
     | apply stops_digit_after_number; [exact Hfr | exact S2 | reflexivity] ].
  destruct E2 as [<- E3].
  assert (fr = []).
  { destruct Hfr as [-> | (fp & -> & _)]; [reflexivity |].
    simpl in E3. inversion E3. }
  subst fr. rewrite app_nil_r. simpl in E3.
  (* the separator *)
  change (","%char :: " "%char :: db ++ post)
    with ([] ++ ","%char :: " "%char :: db ++ post) in E3.
  apply (span_unique (p := is_space)) in E3;
    [| constructor | exact S2 | reflexivity | reflexivity].
  destruct E3 as [<- E4]. simpl in E4. inversion E4 as [E5]. clear E4.
  change (" "%char :: db ++ post) with ([" "%char] ++ (db ++ post)) in E5.
  rewrite <- app_assoc in E5.
  apply (span_unique (p := is_space) (a := [" "%char]) (b := w3)) in E5;
    [| repeat constructor | exact S3
     | apply digits_stop_space; exact Hb
     | apply digits_stop_space; exact Hip2 ].
  destruct E5 as [_ E6].
  (* the second number *)
  apply (span_unique (p := is_digit)) in E6;
    [| exact (proj2 Hb) | exact (proj2 Hip2)
     | apply digit_free_stops; exact Hq
     | apply stops_digit_after_number; [exact Hfr2 | exact S4 | reflexivity] ].
  destruct E6 as [<- E7].
  assert (fr2 = []).
  { destruct Hfr2 as [-> | (fp & -> & Hfp)]; [reflexivity | exfalso].
    apply (digit_free_no_digit Hq). rewrite E7.
    right. apply has_digit_app_l. apply digits_have_digit. exact Hfp. }
  subst fr2. rewrite app_nil_r. split; reflexivity.
Qed.

End Uniqueness.

(* ================================================================== *)
(** * The selection rule: priority, left-most match, conversion *)
(* ================================================================== *)

Section Selection.

Lemma match_here_sound r s m :
  match_here r s = Some m ->
  exists s1 s2, s = s1 ++ s2 /\ matches r s1 [] m.
Proof.
  intros H. unfold match_here in H. apply matcher_sound in H.
  destruct H as (s1 & s2 & caps' & -> & Hm & Hk).
  unfold accept in Hk. inversion Hk; subst. eauto.
Qed.

Lemma re_search_is_leftmost r t m :
  re_search r t = Some m -> leftmost r t m.
Proof.
  intros H. apply re_search_leftmost in H.
  destruct H as (pre & rest & -> & Hm & Hleft).
  apply match_here_sound in Hm. destruct Hm as (s1 & s2 & -> & Hm).
  exists pre, s1, s2. split; [reflexivity |]. split; [exact Hm | exact Hleft].
Qed.

Lemma first_match_chosen t m :
  first_match patterns t = Some m -> chosen_by_priority patterns t m.
Proof.
  unfold patterns. cbn [first_match]. intros H.
  destruct (re_search pat_paren t) as [m1 |] eqn:E1.
  { inversion H; subst. exists [], pat_paren, [pat_comma; pat_space].
    split; [reflexivity |]. split; [intros p [] |].
    apply re_search_is_leftmost. exact E1. }
  apply re_search_none_iff in E1.
  destruct (re_search pat_comma t) as [m2 |] eqn:E2.
  { inversion H; subst. exists [pat_paren], pat_comma, [pat_space].
    split; [reflexivity |]. split.
    - intros p [<- | []]. exact E1.
    - apply re_search_is_leftmost. exact E2. }
  apply re_search_none_iff in E2.
  destruct (re_search pat_space t) as [m3 |] eqn:E3; [| discriminate].
  inversion H; subst. exists [pat_paren; pat_comma], pat_space, [].
  split; [reflexivity |]. split.
  - intros p [<- | [<- | []]]; assumption.
  - apply re_search_is_leftmost. exact E3.
Qed.

Lemma parse_by_selection t :
  shape_occurs (clean t) ->
  exists m x y,
    chosen_by_priority patterns (clean t) m /\
    m = pair_groups x y /\ numeral x /\ numeral y /\
    _parse_coordinates t = convert_pair x y.
Proof.
  intros Hs.
  destruct (first_match patterns (clean t)) as [m |] eqn:E.
  2:{ apply first_match_none_iff in E. contradiction. }
  destruct (first_match_groups _ E) as (x & y & Hm & Nx & Ny).
  exists m, x, y. split; [apply first_match_chosen; exact E |].
  split; [exact Hm |]. split; [exact Nx |]. split; [exact Ny |].
  exact (parse_of_match _ E Hm).
Qed.

End Selection.

(* ================================================================== *)
(** * A pair inside prose *)
(* ================================================================== *)

Section PairsInProse.

Lemma comma_text_first_match pre da db post :
  digit_free pre -> digits da -> digits db -> digit_free post ->
  first_match patterns (pre ++ da ++ ","%char :: " "%char :: db ++ post)
  = Some (pair_groups da db).
Proof.
  intros Hp Ha Hb Hq. unfold patterns. cbn [first_match].
  destruct (re_search pat_paren
              (pre ++ da ++ ","%char :: " "%char :: db ++ post))
    as [m |] eqn:E1.
  - apply re_search_sound in E1. destruct E1 as (A & s & B & E & Hm).
    apply matches_pat_paren in Hm. destruct Hm as (x & y & Hxy & ->).
    destruct (@paren_pair_unique pre da db post A s B x y Hp Ha Hb Hq E Hxy)
      as [-> ->]. reflexivity.
  - rewrite comma_pattern_found by assumption. reflexivity.
Qed.

Lemma space_text_first_match pre da db post :
  digit_free pre -> digits da -> digits db -> digit_free post ->
  first_match patterns (pre ++ da ++ " "%char :: db ++ post)
  = Some (pair_groups da db).
Proof.
  intros Hp Ha Hb Hq. unfold patterns. cbn [first_match].
  destruct (comma_patterns_absent Hp Ha Hb Hq) as [N1 N2].
  apply re_search_none_iff in N1. apply re_search_none_iff in N2.
  replace (pre ++ (da ++ " "%char :: db) ++ post)
    with (pre ++ da ++ " "%char :: db ++ post) in N1, N2
    by (norm_app; reflexivity).
  rewrite N1, N2. rewrite space_pattern_found by assumption. reflexivity.
Qed.

Lemma digits_numeral x : digits x -> numeral x.
Proof. intros H. left. exact H. Qed.

Lemma spaces_nil : spaces [].
Proof. constructor. Qed.

Lemma spaces_blank : spaces [" "%char].
Proof. constructor; [reflexivity | constructor]. Qed.

Lemma fmt_paren_shape x y :
  digits x -> digits y -> paren_pair (fmt_paren x y) x y.
Proof.
  intros Hx Hy. exists [], [], [" "%char], [].
  split; [reflexivity |].
  split; [exact spaces_nil |]. split; [exact spaces_nil |].
  split; [exact spaces_blank |]. split; [exact spaces_nil |].
  split; apply digits_numeral; assumption.
Qed.

Lemma fmt_comma_shape x y :
  digits x -> digits y -> comma_pair (fmt_comma x y) x y.
Proof.
  intros Hx Hy. exists [], [" "%char].
  split; [reflexivity |].
  split; [exact spaces_nil |]. split; [exact spaces_blank |].
  split; apply digits_numeral; assumption.
Qed.

Lemma fmt_space_shape x y :
  digits x -> digits y -> space_pair (fmt_space x y) x y.
Proof.
  intros Hx Hy. exists [" "%char].
  split; [reflexivity |]. split; [discriminate |].
  split; [exact spaces_blank |].
  split; apply digits_numeral; assumption.
Qed.

Lemma parse_comma_in_prose pre post x y :
  digit_free pre -> digit_free post -> digits x -> digits y ->
  _parse_coordinates (pre ++ fmt_comma x y ++ post) = convert_pair x y.
Proof.
  intros Hp Hq Hx Hy.
  destruct (shape_is_solid (or_intror (or_introl (fmt_comma_shape Hx Hy))))
    as (S1 & S2 & S3).
  destruct (clean_keeps_core pre post S1 S2 S3) as (pre' & post' & E & I1 & I2).
  unfold convert_pair.
  apply parse_of_match with (m := pair_groups x y); [| reflexivity].
  rewrite E. unfold fmt_comma. norm_app.
  apply comma_text_first_match; try assumption.
  - exact (digit_free_incl I1 Hp).
  - exact (digit_free_incl I2 Hq).
Qed.

Lemma parse_space_in_prose pre post x y :
  digit_free pre -> digit_free post -> digits x -> digits y ->
  _parse_coordinates (pre ++ fmt_space x y ++ post) = convert_pair x y.
Proof.
  intros Hp Hq Hx Hy.
  destruct (shape_is_solid (or_intror (or_intror (fmt_space_shape Hx Hy))))
    as (S1 & S2 & S3).
  destruct (clean_keeps_core pre post S1 S2 S3) as (pre' & post' & E & I1 & I2).
  unfold convert_pair.
  apply parse_of_match with (m := pair_groups x y); [| reflexivity].
  rewrite E. unfold fmt_space. norm_app.
  apply space_text_first_match; try assumption.
  - exact (digit_free_incl I1 Hp).
  - exact (digit_free_incl I2 Hq).
Qed.

Lemma parse_paren_in_prose pre post x y :
  digit_free pre -> digit_free post -> digits x -> digits y ->
  _parse_coordinates (pre ++ fmt_paren x y ++ post) = convert_pair x y.
Proof.
  intros Hp Hq Hx Hy.
  destruct (shape_is_solid (or_introl (fmt_paren_shape Hx Hy)))
    as (S1 & S2 & S3).
  destruct (clean_keeps_core pre post S1 S2 S3) as (pre' & post' & E & I1 & I2).
  unfold convert_pair.
  apply parse_of_match with (m := pair_groups x y); [| reflexivity].
  rewrite E. unfold fmt_paren.
  replace (pre' ++ ("("%char :: x ++ ","%char :: " "%char :: y ++ [")"%char])
                ++ post')
    with ((pre' ++ ["("%char]) ++ x ++ ","%char :: " "%char :: y
                ++ (")"%char :: post'))
    by (norm_app; reflexivity).
  apply comma_text_first_match; try assumption.
  - apply digit_free_app; [exact (digit_free_incl I1 Hp) |].
    constructor; [reflexivity | constructor].
  - constructor; [reflexivity | exact (digit_free_incl I2 Hq)].
Qed.

Lemma convert_pair_short x y :
  digits x -> digits y ->
  (List.length x <= 15)%nat -> (List.length y <= 15)%nat ->
  convert_pair x y = Return (digits_value x, digits_value y).
Proof.
  intros Hx Hy Lx Ly. unfold convert_pair.
  rewrite (int_float_short_integer Hx Lx).
  cbn [rbind]. rewrite (int_float_short_integer Hy Ly). reflexivity.
Qed.

End PairsInProse.

(* ================================================================== *)
(** * Conversion of the groups and the four spellings *)
(* ================================================================== *)

Section Formats.

Lemma filter_digits s : all_in is_digit s -> filter is_digit s = s.
Proof.
  induction 1 as [| c s Hc Hs IH]; [reflexivity |].
  cbn [filter]. rewrite Hc, IH. reflexivity.
Qed.

Lemma digit_count_digits s : digits s -> digit_count s = List.length s.
Proof. intros [_ H]. unfold digit_count. rewrite filter_digits by exact H. reflexivity. Qed.

Lemma digit_count_fraction ip fp :
  digits ip -> digits fp ->
  digit_count (ip ++ "."%char :: fp) = (List.length ip + List.length fp)%nat.
Proof.
  intros [_ Hi] [_ Hf]. unfold digit_count.
  rewrite filter_app. cbn [filter]. rewrite dot_is_no_digit.
  rewrite !filter_digits by assumption. apply length_app.
Qed.

Lemma truncated_digits s : digits s -> truncated s = digits_value s.
Proof.
  intros [_ H]. unfold truncated. rewrite split_dot_digits by exact H.
  reflexivity.
Qed.

Lemma truncated_fraction ip fp :
  digits ip -> truncated (ip ++ "."%char :: fp) = digits_value ip.
Proof.
  intros [_ H]. unfold truncated. rewrite split_dot_fraction by exact H.
  reflexivity.
Qed.

Lemma int_float_short x :
  numeral x -> (digit_count x <= 15)%nat ->
  rbind (py_float x) py_int = Return (truncated x).
Proof.
  intros [Hd | (ip & fp & -> & Hi & Hf)] L.
  - rewrite digit_count_digits in L by exact Hd.
    rewrite truncated_digits by exact Hd.
    apply int_float_short_integer; assumption.
  - rewrite digit_count_fraction in L by assumption.
    rewrite truncated_fraction by exact Hi.
    apply int_float_short_fraction; assumption.
Qed.

Lemma numeral_part_digits s : is_numeral_part s = true -> digits s.
Proof.
  destruct s as [| c s]; [discriminate |]. intros H.
  split; [discriminate |]. unfold all_in. apply Forall_forall.
  apply forallb_forall. exact H.
Qed.

Lemma str_of_Z_small a :
  0 <= a < 1000 ->
  digits (str_of_Z a) /\ (List.length (str_of_Z a) <= 15)%nat /\
  digits_value (str_of_Z a) = a.
Proof.
  intros Ha.
  assert (Hp : prints_itself a = true).
  { apply (forallb_range prints_itself 1000); [vm_compute; reflexivity | exact Ha]. }
  unfold prints_itself in Hp.
  apply andb_prop in Hp. destruct Hp as [Hp H3].
  apply andb_prop in Hp. destruct Hp as [H1 H2].
  split; [apply numeral_part_digits; exact H1 |].
  split; [apply Nat.leb_le in H2; lia | apply Z.eqb_eq; exact H3].
Qed.

Lemma fence_is_prose : digit_free [backtick; backtick; backtick].
Proof. repeat constructor. Qed.

Lemma spellings_read_back a b :
  0 <= a < 1000 -> 0 <= b < 1000 ->
  _parse_coordinates (fmt_paren (str_of_Z a) (str_of_Z b)) = Return (a, b) /\
  _parse_coordinates (fmt_comma (str_of_Z a) (str_of_Z b)) = Return (a, b) /\
  _parse_coordinates (fmt_space (str_of_Z a) (str_of_Z b)) = Return (a, b) /\
  _parse_coordinates (fmt_fenced (str_of_Z a) (str_of_Z b)) = Return (a, b).
Proof.
  intros Ha Hb.
  destruct (str_of_Z_small Ha) as (Da & La & Va).
  destruct (str_of_Z_small Hb) as (Db & Lb & Vb).
  pose proof (convert_pair_short Da Db La Lb) as Hc.
  rewrite Va, Vb in Hc.
  assert (Hnil : digit_free []) by constructor.
  repeat split.
  - rewrite <- Hc.
    rewrite <- (parse_paren_in_prose Hnil Hnil Da Db).
    cbn [app]. rewrite app_nil_r. reflexivity.
  - rewrite <- Hc.
    rewrite <- (parse_comma_in_prose Hnil Hnil Da Db).
    cbn [app]. rewrite app_nil_r. reflexivity.
  - rewrite <- Hc.
    rewrite <- (parse_space_in_prose Hnil Hnil Da Db).
    cbn [app]. rewrite app_nil_r. reflexivity.
  - rewrite <- Hc.
    rewrite <- (parse_paren_in_prose fence_is_prose fence_is_prose Da Db).
    reflexivity.
Qed.

End Formats.

(* ================================================================== *)
(** * A pair in any accepted shape inside prose *)
(* ================================================================== *)

Section PairsInGeneral.

Lemma rmatch_opt_take r s caps k x :
  rmatch r s caps k = Some x -> rmatch (Opt r) s caps k = Some x.
Proof. intros H. cbn [rmatch]. rewrite H. reflexivity. Qed.

(** A numeral that is followed neither by a digit nor by a fraction is
    taken whole. *)
Lemma numeral_run x rest caps k r :
  numeral x -> stops is_digit rest -> no_fraction rest ->
  k rest caps = Some r ->
  rmatch number (x ++ rest) caps k = Some r.
Proof.
  intros [Hd | (ip & fp & -> & [Hne Ha] & [Hnf Hf])] Hs Hn Hk.
  - apply number_run; assumption.
  - unfold number. rewrite rmatch_cat, <- app_assoc.
    apply rmatch_plus_run; [exact Hne | exact Ha | reflexivity |].
    apply rmatch_opt_take. rewrite rmatch_cat. cbn [app].
    rewrite rmatch_lit_hit. apply rmatch_plus_run; assumption.
Qed.

Lemma group_numeral_run i x rest caps k r :
  numeral x -> stops is_digit rest -> no_fraction rest ->
  k rest ((i, x) :: caps) = Some r ->
  rmatch (Group i number) (x ++ rest) caps k = Some r.
Proof.
  intros Hx Hs Hf Hk. cbn [rmatch]. apply numeral_run; try assumption.
  rewrite length_app, Nat.add_sub, firstn_app, Nat.sub_diag, firstn_all.
  cbn [firstn]. rewrite app_nil_r. exact Hk.
Qed.

Lemma space_is_no_dot c : is_space c = true -> Ascii.eqb "." c = false.
Proof.
  destruct c as [[] [] [] [] [] [] [] []]; try reflexivity; discriminate.
Qed.

(** White space and a separator end a numeral. *)
Lemma separator_stops w c R :
  spaces w -> is_digit c = false -> stops is_digit (w ++ c :: R).
Proof.
  intros Hw Hc. destruct w as [| d w]; [exact Hc |].
  inversion Hw; subst. apply space_is_no_digit. assumption.
Qed.

Lemma separator_no_fraction w c R :
  spaces w -> Ascii.eqb "." c = false -> no_fraction (w ++ c :: R).
Proof.
  intros Hw Hc. destruct w as [| d w].
  - cbn [app]. destruct R as [| c2 R]; [exact I |].
    unfold no_fraction. intros H. rewrite Hc in H. discriminate H.
  - inversion Hw; subst. cbn [app].
    destruct (w ++ c :: R) as [| c2 R'] eqn:E; [exact I |].
    unfold no_fraction. intros H.
    match goal with X : is_space d = true |- _ =>
      apply space_is_no_dot in X; rewrite X in H; discriminate H end.
Qed.

Lemma blank_stops w R : w <> [] -> spaces w -> stops is_digit (w ++ R).
Proof.
  intros Hne Hw. destruct w as [| d w]; [congruence |].
  inversion Hw; subst. apply space_is_no_digit. assumption.
Qed.

Lemma blank_no_fraction w R : w <> [] -> spaces w -> no_fraction (w ++ R).
Proof.
  intros Hne Hw. destruct w as [| d w]; [congruence |].
  inversion Hw; subst. cbn [app].
  destruct (w ++ R) as [| c2 R']; [exact I |].
  unfold no_fraction. intros H.
  match goal with X : is_space d = true |- _ =>
    apply space_is_no_dot in X; rewrite X in H; discriminate H end.
Qed.

Lemma numeral_starts_with_digit x :
  numeral x -> exists c x', x = c :: x' /\ is_digit c = true.
Proof.
  intros Hx. destruct (numeral_split Hx) as (ip & fr & -> & [Hne Ha] & _).
  destruct ip as [| c ip]; [congruence |]. inversion Ha; subst.
  exists c, (ip ++ fr). split; [reflexivity | assumption].
Qed.

Lemma numeral_stops_space x rest : numeral x -> stops is_space (x ++ rest).
Proof.
  intros Hx. destruct (numeral_starts_with_digit Hx) as (c & x' & -> & Hc).
  apply digit_is_solid. exact Hc.
Qed.

(** [x , y] followed by prose, with any white space around the comma and
    optional fractions: the comma pattern takes both numerals whole. *)
Lemma comma_pair_here x w1 w2 y post :
  numeral x -> spaces w1 -> spaces w2 -> numeral y -> digit_free post ->
  match_here pat_comma (x ++ w1 ++ ","%char :: w2 ++ y ++ post)
  = Some (pair_groups x y).
Proof.
  intros Hx H1 H2 Hy Hp. unfold match_here, pat_comma. rewrite rmatch_cat.
  apply group_numeral_run;
    [exact Hx | apply separator_stops; [exact H1 | reflexivity]
     | apply separator_no_fraction; [exact H1 | reflexivity] |].
  rewrite rmatch_cat.
  apply rmatch_star_run; [exact H1 | reflexivity |].
  rewrite rmatch_cat, rmatch_lit_hit, rmatch_cat.
  apply rmatch_star_run; [exact H2 | apply numeral_stops_space; exact Hy |].
  apply group_numeral_run; try assumption.
  - apply digit_free_stops. exact Hp.
  - apply digit_free_no_fraction. exact Hp.
  - reflexivity.
Qed.

(** [x y] followed by prose, with any white space between the numerals. *)
Lemma space_pair_here x w y post :
  numeral x -> w <> [] -> spaces w -> numeral y -> digit_free post ->
  match_here pat_space (x ++ w ++ y ++ post) = Some (pair_groups x y).
Proof.
  intros Hx Hne Hw Hy Hp. unfold match_here, pat_space. rewrite rmatch_cat.
  apply group_numeral_run;
    [exact Hx | apply blank_stops; assumption
     | apply blank_no_fraction; assumption |].
  rewrite rmatch_cat.
  apply rmatch_plus_run;
    [exact Hne | exact Hw | apply numeral_stops_space; exact Hy |].
  apply group_numeral_run; try assumption.
  - apply digit_free_stops. exact Hp.
  - apply digit_free_no_fraction. exact Hp.
  - reflexivity.
Qed.

Lemma numeral_not_nil x rest : numeral x -> x ++ rest <> [].
Proof.
  intros Hx. destruct (numeral_starts_with_digit Hx) as (c & x' & -> & _).
  discriminate.
Qed.

Lemma comma_pair_found pre x w1 w2 y post :
  digit_free pre ->
  numeral x -> spaces w1 -> spaces w2 -> numeral y -> digit_free post ->
  re_search pat_comma (pre ++ x ++ w1 ++ ","%char :: w2 ++ y ++ post)
  = Some (pair_groups x y).
Proof.
  intros Hp Hx H1 H2 Hy Hq. unfold pat_comma.
  rewrite re_search_skips_prose;
    [| exact Hp | apply numeral_not_nil; exact Hx].
  apply re_search_here. apply comma_pair_here; assumption.
Qed.

Lemma space_pair_found pre x w y post :
  digit_free pre ->
  numeral x -> w <> [] -> spaces w -> numeral y -> digit_free post ->
  re_search pat_space (pre ++ x ++ w ++ y ++ post) = Some (pair_groups x y).
Proof.
  intros Hp Hx Hne Hw Hy Hq. unfold pat_space.
  rewrite re_search_skips_prose;
    [| exact Hp | apply numeral_not_nil; exact Hx].
  apply re_search_here. apply space_pair_here; assumption.
Qed.

(** Two numerals that start at the same place and are both followed by
    something that ends a numeral are equal. *)
Lemma numeral_unique x x' r r' :
  numeral x -> numeral x' ->
  stops is_digit r -> no_fraction r ->
  stops is_digit r' -> no_fraction r' ->
  x ++ r = x' ++ r' -> x = x' /\ r = r'.
Proof.
  intros Hx Hx' Hs Hn Hs' Hn' E.
  destruct (numeral_split Hx) as (ip & fr & -> & Hip & Hfr).
  destruct (numeral_split Hx') as (ip' & fr' & -> & Hip' & Hfr').
  rewrite <- !app_assoc in E.
  apply (span_unique (p := is_digit)) in E;
    [| exact (proj2 Hip) | exact (proj2 Hip')
     | destruct Hfr as [-> | (fp & -> & _)]; [exact Hs | reflexivity]
     | destruct Hfr' as [-> | (fp & -> & _)]; [exact Hs' | reflexivity] ].
  destruct E as [<- E].
  destruct Hfr as [-> | (fp & -> & [Hne Hf])];
    destruct Hfr' as [-> | (fp' & -> & [Hne' Hf'])].
  - cbn [app] in E. rewrite app_nil_r. auto.
  - exfalso. cbn [app] in E. subst r.
    destruct fp' as [| c fp']; [congruence |]. inversion Hf'; subst.
    cbn in Hn. specialize (Hn eq_refl). congruence.
  - exfalso. cbn [app] in E. subst r'.
    destruct fp as [| c fp]; [congruence |]. inversion Hf; subst.
    cbn in Hn'. specialize (Hn' eq_refl). congruence.
  - cbn [app] in E. inversion E as [E'].
    apply (span_unique (p := is_digit)) in E'; try assumption.
    destruct E' as [<- <-]. auto.
Qed.

Lemma numeral_chars x c :
  numeral x -> In c x -> is_digit c = true \/ c = "."%char.
Proof.
  intros Hx Hin. destruct (numeral_split Hx) as (ip & fr & -> & [_ Hip] & Hfr).
  unfold all_in in Hip. rewrite Forall_forall in Hip.
  apply in_app_or in Hin. destruct Hin as [Hin | Hin]; [left; auto |].
  destruct Hfr as [-> | (fp & -> & [_ Hfp])]; [destruct Hin |].
  unfold all_in in Hfp. rewrite Forall_forall in Hfp.
  destruct Hin as [<- | Hin]; [right; reflexivity | left; auto].
Qed.

(** The characters of [x , y]: digits, dots, white space and the comma. *)
Lemma comma_core_chars x w1 w2 y c :
  numeral x -> spaces w1 -> spaces w2 -> numeral y ->
  In c (x ++ w1 ++ ","%char :: w2 ++ y) ->
  is_digit c = true \/ c = "."%char \/ is_space c = true \/ c = ","%char.
Proof.
  intros Hx H1 H2 Hy Hin.
  unfold spaces, all_in in H1, H2. rewrite Forall_forall in H1, H2.
  apply in_app_or in Hin. destruct Hin as [Hin | Hin].
  { destruct (@numeral_chars _ _ Hx Hin); auto. }
  apply in_app_or in Hin. destruct Hin as [Hin | [<- | Hin]]; auto.
  apply in_app_or in Hin. destruct Hin as [Hin | Hin]; auto.
  destruct (@numeral_chars _ _ Hy Hin); auto.
Qed.

(** In [x , y] surrounded by prose, a parenthesized pair can only be read
    with [x] and [y] as its two numbers. *)
Lemma paren_reads_the_pair pre x w1 w2 y post A s B x' y' :
  digit_free pre ->
  numeral x -> spaces w1 -> spaces w2 -> numeral y -> digit_free post ->
  pre ++ x ++ w1 ++ ","%char :: w2 ++ y ++ post = A ++ s ++ B ->
  paren_pair s x' y' ->
  x' = x /\ y' = y.
Proof.
  intros Hp Hx H1 H2 Hy Hq E
         (v1 & v2 & v3 & v4 & -> & S1 & S2 & S3 & S4 & Nx & Ny).
  (* the text before the first number is prose *)
  assert (HA : digit_free A).
  { destruct (digit_free_or_not A) as [H | H]; [exact H | exfalso].
    assert (Hin : In "("%char (x ++ w1 ++ ","%char :: w2 ++ y)).
    { apply between_digits with (pre := pre) (post := post) (L := A)
        (R := v1 ++ x' ++ v2 ++ ","%char :: v3 ++ y' ++ v4
                 ++ [")"%char] ++ B); try assumption.
      - etransitivity; [| etransitivity; [exact E |]]; norm_app; reflexivity.
      - apply has_digit_app_r. apply has_digit_app_l.
        apply numeral_has_digit. exact Nx. }
    destruct (@comma_core_chars _ _ _ _ _ Hx H1 H2 Hy Hin) as [H0 | [H0 | [H0 | H0]]];
      discriminate H0. }
  destruct (numeral_starts_with_digit Hx) as (cx & tx & Ex & Hcx).
  destruct (numeral_starts_with_digit Nx) as (cx' & tx' & Ex' & Hcx').
  assert (E1 : pre ++ (x ++ w1 ++ ","%char :: w2 ++ y ++ post)
               = (A ++ "("%char :: v1) ++
                 (x' ++ v2 ++ ","%char :: v3 ++ y' ++ v4 ++ ")"%char :: B)).
  { rewrite E. norm_app. reflexivity. }
  apply (span_unique (p := fun c => negb (is_digit c))) in E1.
  2:{ apply digit_free_all_in. exact Hp. }
  2:{ apply digit_free_all_in. apply digit_free_app; [exact HA |].
      constructor; [reflexivity | apply spaces_digit_free; exact S1]. }
  2:{ rewrite Ex. cbn. rewrite Hcx. reflexivity. }
  2:{ rewrite Ex'. cbn. rewrite Hcx'. reflexivity. }
  destruct E1 as [_ E2].
  (* the first number *)
  apply numeral_unique in E2;
    [| exact Hx | exact Nx
     | apply separator_stops; [exact H1 | reflexivity]
     | apply separator_no_fraction; [exact H1 | reflexivity]
     | apply separator_stops; [exact S2 | reflexivity]
     | apply separator_no_fraction; [exact S2 | reflexivity] ].
  destruct E2 as [<- E3].
  (* the separator *)
  apply (span_unique (p := is_space)) in E3;
    [| exact H1 | exact S2 | reflexivity | reflexivity].
  destruct E3 as [_ E4]. inversion E4 as [E5]. clear E4.
  apply (span_unique (p := is_space)) in E5;
    [| exact H2 | exact S3
     | apply numeral_stops_space; exact Hy
     | apply numeral_stops_space; exact Ny ].
  destruct E5 as [_ E6].
  (* the second number *)
  apply numeral_unique in E6;
    [| exact Hy | exact Ny
     | apply digit_free_stops; exact Hq
     | apply digit_free_no_fraction; exact Hq
     | apply separator_stops; [exact S4 | reflexivity]
     | apply separator_no_fraction; [exact S4 | reflexivity] ].
  destruct E6 as [<- _]. split; reflexivity.
Qed.

Lemma comma_not_between x w y :
  numeral x -> spaces w -> numeral y -> ~ In ","%char (x ++ w ++ y).
Proof.
  intros Hx Hw Hy Hin.
  unfold spaces, all_in in Hw. rewrite Forall_forall in Hw.
  apply in_app_or in Hin. destruct Hin as [Hin | Hin].
  { destruct (@numeral_chars _ _ Hx Hin) as [H | H]; discriminate H. }
  apply in_app_or in Hin. destruct Hin as [Hin | Hin].
  { apply Hw in Hin. discriminate Hin. }
  destruct (@numeral_chars _ _ Hy Hin) as [H | H]; discriminate H.
Qed.

(** In [x y] surrounded by prose no pattern with a comma can match. *)
Lemma no_comma_pattern pre x w y post :
  digit_free pre -> numeral x -> spaces w -> numeral y -> digit_free post ->
  ~ occurs pat_paren (pre ++ (x ++ w ++ y) ++ post) /\
  ~ occurs pat_comma (pre ++ (x ++ w ++ y) ++ post).
Proof.
  intros Hp Hx Hw Hy Hq. split; intros (A & m & B & caps & E & Hm).
  - apply matches_pat_paren in Hm.
    destruct Hm as (x' & y' & (w1 & w2 & w3 & w4 & -> & _ & _ & _ & _ & Nx & Ny) & _).
    apply (comma_not_between Hx Hw Hy).
    apply between_digits with (pre := pre) (post := post)
             (L := A ++ "("%char :: w1 ++ x' ++ w2)
             (R := w3 ++ y' ++ w4 ++ ")"%char :: B); try assumption.
    + rewrite E. norm_app. reflexivity.
    + apply has_digit_app_r. right. apply has_digit_app_r.
      apply has_digit_app_l. apply numeral_has_digit. exact Nx.
    + apply has_digit_app_r. apply has_digit_app_l.
      apply numeral_has_digit. exact Ny.
  - apply matches_pat_comma in Hm.
    destruct Hm as (x' & y' & (w1 & w2 & -> & _ & _ & Nx & Ny) & _).
    apply (comma_not_between Hx Hw Hy).
    apply between_digits with (pre := pre) (post := post)
             (L := A ++ x' ++ w1) (R := w2 ++ y' ++ B); try assumption.
    + rewrite E. norm_app. reflexivity.
    + apply has_digit_app_r. apply has_digit_app_l.
      apply numeral_has_digit. exact Nx.
    + apply has_digit_app_r. apply has_digit_app_l.
      apply numeral_has_digit. exact Ny.
Qed.

Lemma comma_core_first_match pre x w1 w2 y post :
  digit_free pre ->
  numeral x -> spaces w1 -> spaces w2 -> numeral y -> digit_free post ->
  first_match patterns (pre ++ x ++ w1 ++ ","%char :: w2 ++ y ++ post)
  = Some (pair_groups x y).
Proof.
  intros Hp Hx H1 H2 Hy Hq. unfold patterns. cbn [first_match].
  destruct (re_search pat_paren
              (pre ++ x ++ w1 ++ ","%char :: w2 ++ y ++ post))
    as [m |] eqn:E1.
  - apply re_search_sound in E1. destruct E1 as (A & s & B & E & Hm).
    apply matches_pat_paren in Hm. destruct Hm as (x' & y' & Hxy & ->).
    destruct (@paren_reads_the_pair pre x w1 w2 y post A s B x' y'
                Hp Hx H1 H2 Hy Hq E Hxy) as [-> ->].
    reflexivity.
  - rewrite comma_pair_found by assumption. reflexivity.
Qed.

Lemma space_core_first_match pre x w y post :
  digit_free pre ->
  numeral x -> w <> [] -> spaces w -> numeral y -> digit_free post ->
  first_match patterns (pre ++ x ++ w ++ y ++ post)
  = Some (pair_groups x y).
Proof.
  intros Hp Hx Hne Hw Hy Hq. unfold patterns. cbn [first_match].
  destruct (no_comma_pattern Hp Hx Hw Hy Hq) as [N1 N2].
  apply re_search_none_iff in N1. apply re_search_none_iff in N2.
  replace (pre ++ (x ++ w ++ y) ++ post)
    with (pre ++ x ++ w ++ y ++ post) in N1, N2
    by (norm_app; reflexivity).
  rewrite N1, N2. rewrite space_pair_found by assumption. reflexivity.
Qed.

(** A pair in any accepted shape, between prose that holds no digit, is
    the pair that the codec converts. *)
Lemma parse_pair_in_prose pre post m x y :
  digit_free pre -> digit_free post ->
  paren_pair m x y \/ comma_pair m x y \/ space_pair m x y ->
  _parse_coordinates (pre ++ m ++ post) = convert_pair x y.
Proof.
  intros Hp Hq Hs.
  destruct (shape_is_solid Hs) as (S1 & S2 & S3).
  destruct (clean_keeps_core pre post S1 S2 S3) as (pre' & post' & E & I1 & I2).
  pose proof (digit_free_incl I1 Hp) as Hp'.
  pose proof (digit_free_incl I2 Hq) as Hq'.
  unfold convert_pair.
  apply parse_of_match with (m := pair_groups x y); [| reflexivity].
  rewrite E.
  destruct Hs as [H | [H | H]].
  - destruct H as (w1 & w2 & w3 & w4 & -> & W1 & W2 & W3 & W4 & Nx & Ny).
    replace (pre' ++ ("("%char :: w1 ++ x ++ w2 ++ ","%char :: w3 ++ y ++ w4
                        ++ [")"%char]) ++ post')
      with ((pre' ++ "("%char :: w1) ++ x ++ w2 ++ ","%char :: w3 ++ y
                  ++ (w4 ++ ")"%char :: post'))
      by (norm_app; reflexivity).
    apply comma_core_first_match; try assumption.
    + apply digit_free_app; [exact Hp' |].
      constructor; [reflexivity | apply spaces_digit_free; exact W1].
    + apply digit_free_app; [apply spaces_digit_free; exact W4 |].
      constructor; [reflexivity | exact Hq'].
  - destruct H as (w1 & w2 & -> & W1 & W2 & Nx & Ny).
    replace (pre' ++ (x ++ w1 ++ ","%char :: w2 ++ y) ++ post')
      with (pre' ++ x ++ w1 ++ ","%char :: w2 ++ y ++ post')
      by (norm_app; reflexivity).
    apply comma_core_first_match; assumption.
  - destruct H as (w & -> & Hne & W & Nx & Ny).
    replace (pre' ++ (x ++ w ++ y) ++ post')
      with (pre' ++ x ++ w ++ y ++ post')
      by (norm_app; reflexivity).
    apply space_core_first_match; assumption.
Qed.

Lemma convert_pair_truncates x y :
  numeral x -> numeral y ->
  (digit_count x <= 15)%nat -> (digit_count y <= 15)%nat ->
  convert_pair x y = Return (truncated x, truncated y).
Proof.
  intros Hx Hy Lx Ly. unfold convert_pair.
  rewrite (int_float_short Hx Lx). cbn [rbind].
  rewrite (int_float_short Hy Ly). reflexivity.
Qed.

Lemma shape_numerals m x y :
  paren_pair m x y \/ comma_pair m x y \/ space_pair m x y ->
  numeral x /\ numeral y.
Proof.
  intros [H | [H | H]].
  - destruct H as (w1 & w2 & w3 & w4 & _ & _ & _ & _ & _ & Nx & Ny). auto.
  - destruct H as (w1 & w2 & _ & _ & _ & Nx & Ny). auto.
  - destruct H as (w & _ & _ & _ & Nx & Ny). auto.
Qed.

Lemma pair_in_prose_truncated pre post m x y :
  digit_free pre -> digit_free post ->
  paren_pair m x y \/ comma_pair m x y \/ space_pair m x y ->
  (digit_count x <= 15)%nat -> (digit_count y <= 15)%nat ->
  _parse_coordinates (pre ++ m ++ post) = Return (truncated x, truncated y).
Proof.
  intros Hp Hq Hs Lx Ly. destruct (shape_numerals Hs) as [Nx Ny].
  rewrite (parse_pair_in_prose Hp Hq Hs).
  apply convert_pair_truncates; assumption.
Qed.
End PairsInGeneral.

(* ================================================================== *)
(** * The codec's selection rule *)
(* ================================================================== *)

(** C4, with the conversion stated as the code has it.
    [_parse_coordinates] strips the text and deletes the fences; of the
    three patterns, in the order parenthesized pair, comma-separated pair,
    whitespace-separated pair, it takes the first one that occurs at all,
    at the left-most offset where it occurs, and converts each of the two
    groups with [int(float(.))].  On a numeral written with at most 15
    digits that conversion is the numeral with its fractional part
    dropped.  So every pair [(a, b)] with [0 <= a, b < 1000] is read back
    from ["(a, b)"], ["a, b"], ["a b"] and the fenced ["(a, b)"]; and a
    pair in any of the three accepted shapes - with whatever white space
    the patterns allow, with or without fractional parts, each numeral
    written with at most 15 digits - placed between prose that holds no
    digit is read as that pair with the fractional parts dropped. *)
Theorem parse_selects_by_priority :
  (forall t,
     shape_occurs (clean t) ->
     exists m x y,
       chosen_by_priority patterns (clean t) m /\
       m = pair_groups x y /\ numeral x /\ numeral y /\
       _parse_coordinates t = convert_pair x y) /\
  (forall x,
     numeral x -> (digit_count x <= 15)%nat ->
     rbind (py_float x) py_int = Return (truncated x)) /\
  (forall a b,
     0 <= a < 1000 -> 0 <= b < 1000 ->
     _parse_coordinates (fmt_paren (str_of_Z a) (str_of_Z b)) = Return (a, b) /\
     _parse_coordinates (fmt_comma (str_of_Z a) (str_of_Z b)) = Return (a, b) /\
     _parse_coordinates (fmt_space (str_of_Z a) (str_of_Z b)) = Return (a, b) /\
     _parse_coordinates (fmt_fenced (str_of_Z a) (str_of_Z b)) = Return (a, b)) /\
  (forall pre post x y,
     digit_free pre -> digit_free post ->
     digits x -> digits y ->
     (List.length x <= 15)%nat -> (List.length y <= 15)%nat ->
     _parse_coordinates (pre ++ fmt_paren x y ++ post)
     = Return (digits_value x, digits_value y) /\
     _parse_coordinates (pre ++ fmt_comma x y ++ post)
     = Return (digits_value x, digits_value y) /\
     _parse_coordinates (pre ++ fmt_space x y ++ post)
     = Return (digits_value x, digits_value y)) /\
  (forall pre post m x y,
     digit_free pre -> digit_free post ->
     paren_pair m x y \/ comma_pair m x y \/ space_pair m x y ->
     (digit_count x <= 15)%nat -> (digit_count y <= 15)%nat ->
     _parse_coordinates (pre ++ m ++ post)
     = Return (truncated x, truncated y)).
Proof.
  split; [exact parse_by_selection |].
  split; [exact int_float_short |].
  split; [exact spellings_read_back |].
  split; [| exact pair_in_prose_truncated].
  intros pre post x y Hp Hq Hx Hy Lx Ly.
  rewrite parse_paren_in_prose, parse_comma_in_prose, parse_space_in_prose
    by assumption.
  rewrite convert_pair_short by assumption.
  repeat split.
Qed.

Lemma parse_selects_by_priority_witness :
  (0 <= 523 < 1000 /\ 0 <= 741 < 1000) /\
  _parse_coordinates (txt "```(523, 741)```") = Return (523, 741) /\
  (digit_free (txt "Answer: ") /\ digit_free (txt " end")) /\
  _parse_coordinates (txt "Answer: (523, 741) end") = Return (523, 741) /\
  (digit_count (txt "523.75") <= 15)%nat /\
  rbind (py_float (txt "523.75")) py_int = Return 523 /\
  shape_occurs (clean (txt "at 523 741 or (1, 2)")) /\
  (exists m x y,
     chosen_by_priority patterns (clean (txt "at 523 741 or (1, 2)")) m /\
     m = pair_groups x y /\
     _parse_coordinates (txt "at 523 741 or (1, 2)") = convert_pair x y) /\
  paren_pair (txt "( 523.7 , 741.2 )") (txt "523.7") (txt "741.2") /\
  _parse_coordinates (txt "Answer: ( 523.7 , 741.2 ) end") = Return (523, 741) /\
  space_pair (txt "12.5   40") (txt "12.5") (txt "40") /\
  _parse_coordinates (txt "Answer: 12.5   40 end") = Return (12, 40).
Proof.
  destruct parse_selects_by_priority as (Hsel & Hconv & Hfmt & Hprose & Hany).
  assert (Ha : 0 <= 523 < 1000) by lia.
  assert (Hb : 0 <= 741 < 1000) by lia.
  assert (Hp : digit_free (txt "Answer: ")) by (repeat constructor).
  assert (Hq : digit_free (txt " end")) by (repeat constructor).
  assert (Hx : digits (txt "523")).
  { split; [discriminate | repeat constructor]. }
  assert (Hy : digits (txt "741")).
  { split; [discriminate | repeat constructor]. }
  assert (Hn : numeral (txt "523.75")).
  { right. exists (txt "523"), (txt "75").
    split; [reflexivity |]. split; [exact Hx |].
    split; [discriminate | repeat constructor]. }
  assert (Hc : (digit_count (txt "523.75") <= 15)%nat) by (vm_compute; lia).
  assert (Hs : shape_occurs (clean (txt "at 523 741 or (1, 2)"))).
  { exists (txt "at 523 741 or "), (txt "(1, 2)"), [], (txt "1"), (txt "2").
    split; [reflexivity |]. left.
    apply (@fmt_paren_shape (txt "1") (txt "2"));
      (split; [discriminate | repeat constructor]). }
  split; [exact (conj Ha Hb) |].
  split; [exact (proj2 (proj2 (proj2 (Hfmt 523 741 Ha Hb)))) |].
  split; [exact (conj Hp Hq) |].
  split.
  { exact (proj1 (Hprose (txt "Answer: ") (txt " end") (txt "523") (txt "741")
                    Hp Hq Hx Hy ltac:(simpl; lia) ltac:(simpl; lia))). }
  split; [exact Hc |].
  split; [exact (Hconv (txt "523.75") Hn Hc) |].
  split; [exact Hs |].
  split.
  { destruct (Hsel _ Hs) as (m & x & y & Hch & Hm & _ & _ & Hparse).
    exists m, x, y. split; [exact Hch |]. split; [exact Hm | exact Hparse]. }
  assert (Hblank : spaces [" "%char]).
  { constructor; [reflexivity | constructor]. }
  assert (Hd : forall s, s <> [] -> forallb is_digit s = true -> digits s).
  { intros s Hne Hf. split; [exact Hne |]. unfold all_in.
    apply Forall_forall. apply forallb_forall. exact Hf. }
  assert (Hfrac : forall ip fp,
             ip <> [] -> forallb is_digit ip = true ->
             fp <> [] -> forallb is_digit fp = true ->
             numeral (ip ++ "."%char :: fp)).
  { intros ip fp H1 H2 H3 H4. right. exists ip, fp.
    split; [reflexivity |]. split; apply Hd; assumption. }
  assert (Hpp : paren_pair (txt "( 523.7 , 741.2 )")
                           (txt "523.7") (txt "741.2")).
  { exists [" "%char], [" "%char], [" "%char], [" "%char].
    split; [reflexivity |]. repeat (split; [exact Hblank |]).
    split.
    - apply (Hfrac (txt "523") (txt "7")); first [discriminate | reflexivity].
    - apply (Hfrac (txt "741") (txt "2")); first [discriminate | reflexivity]. }
  assert (Hsp : space_pair (txt "12.5   40") (txt "12.5") (txt "40")).
  { exists (txt "   "). split; [reflexivity |]. split; [discriminate |].
    split; [repeat constructor |]. split.
    - apply (Hfrac (txt "12") (txt "5")); first [discriminate | reflexivity].
    - left. apply Hd; [discriminate | reflexivity]. }
  split; [exact Hpp |].
  split.
  { exact (Hany (txt "Answer: ") (txt " end") _ _ _ Hp Hq (or_introl Hpp)
             ltac:(vm_compute; lia) ltac:(vm_compute; lia)). }
  split; [exact Hsp |].
  exact (Hany (txt "Answer: ") (txt " end") _ _ _ Hp Hq
           (or_intror (or_intror Hsp))
           ltac:(vm_compute; lia) ltac:(vm_compute; lia)).
Defined.

(** C4 as stated fails: a fraction written with twenty nines is not
    truncated, [int(float(.))] reads it as the next integer. *)
Lemma fraction_rounds_up :
  numeral (txt "0.99999999999999999999") /\
  truncated (txt "0.99999999999999999999") = 0 /\
  _parse_coordinates (txt "(0.99999999999999999999, 5)") = Return (1, 5) /\
  ~ fractions_truncated.
Proof.
  assert (Hx : numeral (txt "0.99999999999999999999")).
  { right. exists (txt "0"), (txt "99999999999999999999").
    split; [reflexivity |].
    split; (split; [discriminate | repeat constructor]). }
  assert (Hy : numeral (txt "5")).
  { left. split; [discriminate | repeat constructor]. }
  split; [exact Hx |]. split; [reflexivity |].
  split; [vm_compute; reflexivity |].
  intros H. specialize (H _ _ Hx Hy). vm_compute in H. discriminate H.
Qed.

(* ================================================================== *)
(** * The run over all posts ([main.py]) *)
(* ================================================================== *)

Section RunLoop.
Context {Sigma : World} {cfg : Config}.

Lemma item_try_result_id engine post st st' r :
  item_try engine post st = (st', Return r) -> result_id r = post_id post.
Proof.
  intros H. unfold item_try in H. repeat bind_ok H.
  destruct a1; inversion H; reflexivity.
Qed.

Lemma process_post_result_id engine post st st' r :
  process_post engine post st = (st', Return r) -> result_id r = post_id post.
Proof.
  intros H. unfold process_post in H. repeat bind_ok H.
  inversion H; subst; clear H.
  apply try_except_inv in H0.
  destruct H0 as [(a & Ha & Hr) | (st3 & e3 & _ & Hh)].
  - inversion Hr; subst. exact (item_try_result_id _ _ _ Ha).
  - rewrite item_except_result in Hh. inversion Hh; reflexivity.
Qed.

End RunLoop.

(* ================================================================== *)
(** * The run over the posts as they arrive *)
(* ================================================================== *)

Section RunLoopOnDicts.
Context {Sigma : World} {cfg : Config}.

Lemma item_except_dict_result post_id exc st :
  item_except_dict post_id exc st
  = (st, Return {| dict_result_id := post_id;
                   dict_status := error (Because exc) |}).
Proof.
  unfold item_except_dict.
  destruct (isinstance exc TimeoutError);
    [| destruct (isinstance exc RuntimeError)]; reflexivity.
Qed.

(** What the [try] block returns is a result under the id that was read
    before it, saying [ok] or that the save was not verified. *)
Lemma item_try_dict_result engine post post_id st st' r :
  item_try_dict engine post post_id st = (st', Return r) ->
  dict_result_id r = post_id /\
  (dict_status r = ok \/ dict_status r = error SaveNotVerified).
Proof.
  intros H. unfold item_try_dict in H. repeat bind_ok H.
  destruct a1; inversion H; cbn; auto.
Qed.

(** The loop body on a post that has an id: the [try] statement always
    completes, and its result says what happened in the [try] block. *)
Lemma process_post_dict_with_id engine post post_id st :
  subscript post "id" = Return post_id ->
  exists st' r s1,
    process_post_dict engine post st = (st', Return r) /\
    dict_result_id r = post_id /\
    ((item_try_dict engine post post_id st = (s1, Return r) /\
      (dict_status r = ok \/ dict_status r = error SaveNotVerified)) \/
     (exists e,
         item_try_dict engine post post_id st = (s1, Raise e) /\
         dict_status r = error (Because e))).
Proof.
  intros Hid. unfold process_post_dict. rewrite Hid.
  unfold bind at 1. unfold lift at 1.
  destruct (item_try_dict engine post post_id st) as [s1 [r | e]] eqn:E.
  - destruct (item_try_dict_result _ _ _ _ E) as [Hi Hs].
    assert (Ht : try_except (item_try_dict engine post post_id)
                            (item_except_dict post_id) st = (s1, Return r)).
    { unfold try_except. rewrite E. reflexivity. }
    erewrite bind_Return by exact Ht.
    destruct (dict_is_ok r).
    + exists s1, r, s1. split; [reflexivity |]. split; [exact Hi |].
      left. split; [reflexivity | exact Hs].
    + destruct (best_effort_close_returns s1) as (s2 & Hc).
      erewrite bind_Return by exact Hc.
      exists s2, r, s1. split; [reflexivity |]. split; [exact Hi |].
      left. split; [reflexivity | exact Hs].
  - assert (Ht : try_except (item_try_dict engine post post_id)
                            (item_except_dict post_id) st
                 = (s1, Return {| dict_result_id := post_id;
                                  dict_status := error (Because e) |})).
    { unfold try_except. rewrite E. apply item_except_dict_result. }
    erewrite bind_Return by exact Ht. cbn [dict_is_ok dict_status].
    destruct (best_effort_close_returns s1) as (s2 & Hc).
    erewrite bind_Return by exact Hc.
    eexists s2, _, s1. split; [reflexivity |]. split; [reflexivity |].
    right. exists e. split; reflexivity.
Qed.

(** The loop body on a post without an id: the subscript raises before
    the [try] is entered, and nothing has been done. *)
Lemma process_post_dict_without_id engine post e st :
  subscript post "id" = Raise e ->
  process_post_dict engine post st = (st, Raise e).
Proof. intros H. unfold process_post_dict. rewrite H. reflexivity. Qed.

Lemma run_posts_dict_with_ids engine posts :
  Forall has_id posts ->
  forall results st,
  exists st' rs,
    run_posts_dict engine posts results st = (st', Return (results ++ rs)) /\
    Forall2 (fun post r => subscript post "id" = Return (dict_result_id r))
            posts rs.
Proof.
  induction 1 as [| post rest [v Hid] _ IH]; intros results st.
  - exists st, []. rewrite app_nil_r. split; [reflexivity | constructor].
  - destruct (process_post_dict_with_id engine post st Hid)
      as (st1 & r & s1 & Hp & Hr & _).
    destruct (@sleep_ok _ 1 st1 eq_refl) as (st2 & Hs & _).
    destruct (IH (results ++ [r]) st2) as (st' & rs & Hrun & Hids).
    exists st', (r :: rs). split.
    + cbn [run_posts_dict]. erewrite bind_Return by exact Hp.
      erewrite bind_Return by exact Hs. rewrite Hrun.
      rewrite <- app_assoc. reflexivity.
    + constructor; [rewrite Hr; exact Hid | exact Hids].
Qed.

Lemma run_posts_dict_aborts engine before :
  Forall has_id before ->
  forall post after e results st,
    subscript post "id" = Raise e ->
    exists st',
      run_posts_dict engine (before ++ post :: after) results st
      = (st', Raise e).
Proof.
  induction 1 as [| p rest [v Hid] _ IH]; intros post after e results st He.
  - exists st. cbn [app run_posts_dict].
    apply bind_Raise. apply process_post_dict_without_id. exact He.
  - destruct (process_post_dict_with_id engine p st Hid)
      as (st1 & r & s1 & Hp & _).
    destruct (@sleep_ok _ 1 st1 eq_refl) as (st2 & Hs & _).
    destruct (IH post after e (results ++ [r]) st2 He) as (st' & Hrun).
    exists st'. cbn [app run_posts_dict]. erewrite bind_Return by exact Hp.
    erewrite bind_Return by exact Hs. exact Hrun.
Qed.

(** On a post that carries an integer id and a title and a body that are
    strings, the loop body is the one on the record [Post]. *)
Lemma process_post_dict_of_post engine user_id post st :
  process_post_dict engine (dict_of_post user_id post) st
  = (let (st', r) := process_post engine post st in
     (st', match r with
           | Return x => Return (dict_result_of x)
           | Raise e => Raise e
           end)).
Proof.
  unfold process_post_dict, process_post.
  change (subscript (dict_of_post user_id post) "id")
    with (Return (JInt (post_id post)) : result json_value).
  unfold bind at 1. unfold lift at 1.
  assert (Ht : forall s,
             item_try_dict engine (dict_of_post user_id post)
                           (JInt (post_id post)) s
             = (let (s', r) := item_try engine post s in
                (s', match r with
                     | Return x => Return (dict_result_of x)
                     | Raise e => Raise e
                     end))).
  { intros s. unfold item_try_dict, item_try.
    change (type_post_content_dict (dict_of_post user_id post))
      with (type_post_content post).
    change (save_post_dict (dict_of_post user_id post) TARGET_DIR)
      with (save_post post TARGET_DIR).
    unfold bind.
    destruct (launch_notepad engine s) as [s1 [hwnd | e]]; [| reflexivity].
    destruct (type_post_content post s1) as [s2 [[] | e]]; [| reflexivity].
    destruct (save_post post TARGET_DIR s2) as [s3 [saved | e]]; [| reflexivity].
    destruct (close_notepad (Some hwnd) s3) as [s4 [[] | e]]; [| reflexivity].
    destruct saved; reflexivity. }
  unfold try_except, bind. rewrite Ht.
  destruct (item_try engine post st) as [s1 [r | e]].
  - destruct r as [id [| reason]]; cbn.
    + reflexivity.
    + destruct (close_notepad None s1) as [s2 [[] | e]]; reflexivity.
  - rewrite item_except_dict_result, item_except_result. cbn.
    destruct (close_notepad None s1) as [s2 [[] | e']]; reflexivity.
Qed.

(** X1.  The loop of [main] on the posts as they arrive, which nothing
    validates.  When every post has a value under ["id"], the loop records
    exactly one result for every post, in the order of the posts and
    under the post's own id, and no exception of an item leaves it: what
    the [try] block raises - a failed launch, a missing title or body, a
    failed save action - becomes an error result that carries the
    exception, and a save that is not verified becomes an error result.
    A post without an id aborts the run: the id is read before the [try],
    so the error of the subscript leaves the loop once the posts before it
    have been processed, and the run returns no results.  On a post with
    an integer id, a title and a body the loop body is the one stated on
    the record [Post]. *)
Theorem run_posts_one_result_per_post engine :
  (forall posts results st,
     Forall has_id posts ->
     exists st' rs,
       run_posts_dict engine posts results st
       = (st', Return (results ++ rs)) /\
       Forall2 (fun post r => subscript post "id" = Return (dict_result_id r))
               posts rs) /\
  (forall post post_id st,
     subscript post "id" = Return post_id ->
     exists st' r s1,
       process_post_dict engine post st = (st', Return r) /\
       dict_result_id r = post_id /\
       ((item_try_dict engine post post_id st = (s1, Return r) /\
         (dict_status r = ok \/ dict_status r = error SaveNotVerified)) \/
        (exists e,
            item_try_dict engine post post_id st = (s1, Raise e) /\
            dict_status r = error (Because e)))) /\
  (forall before post after e results st,
     Forall has_id before ->
     subscript post "id" = Raise e ->
     exists st',
       run_posts_dict engine (before ++ post :: after) results st
       = (st', Raise e)) /\
  (forall user_id post st,
     process_post_dict engine (dict_of_post user_id post) st
     = (let (st', r) := process_post engine post st in
        (st', match r with
              | Return x => Return (dict_result_of x)
              | Raise e => Raise e
              end))).
Proof.
  split; [| split; [| split]].
  - intros posts results st H. apply run_posts_dict_with_ids. exact H.
  - intros post post_id st H. apply process_post_dict_with_id. exact H.
  - intros before post after e results st H He.
    apply run_posts_dict_aborts; assumption.
  - apply process_post_dict_of_post.
Qed.
End RunLoopOnDicts.


Lemma run_posts_one_result_per_post_witness :
  let st := @initial_state world_ok 0%nat in
  let posts := [dict_of_post 1 post1; post_without_id; dict_of_post 1 post1] in
  (exists st',
      @run_posts_dict world_ok config_1080p engine0 posts [] st
      = (st', Raise (Raised KeyError "'id'"))) /\
  snd (@run_posts_dict world_ok config_1080p engine0 [dict_of_post 1 post1]
         [] st)
  = Return [{| dict_result_id := JInt 1; dict_status := ok |}].
Proof.
  intros st posts. split.
  - apply (proj1 (proj2 (proj2 (@run_posts_one_result_per_post
                                  world_ok config_1080p engine0)))
             [dict_of_post 1 post1] post_without_id [dict_of_post 1 post1]).
    + constructor; [| constructor]. eexists. reflexivity.
    + reflexivity.
  - vm_compute. reflexivity.
Defined.

(* ================================================================== *)
(** * Counting events of one kind *)
(* ================================================================== *)

Section Counting.
Context {Sigma : World} {cfg : Config}.
Variable p : Event -> bool.

Lemma adds_none_refl st : adds_none p st st.
Proof. reflexivity. Qed.

Lemma adds_none_trans a b c :
  adds_none p a b -> adds_none p b c -> adds_none p a c.
Proof. unfold adds_none. congruence. Qed.

Lemma adds_none_call A (op : Op A) :
  (forall r, p (EvCall op r) = false) -> respects (adds_none p) (call op).
Proof.
  intros Hop st st' r H. apply call_inv in H. destruct H as (Ht & _).
  unfold adds_none. rewrite Ht, count_cons, Hop. reflexivity.
Qed.

Lemma adds_none_sleep d :
  p (EvSleep d) = false -> respects (adds_none p) (sleep d).
Proof.
  intros Hd st st' r H. apply sleep_inv in H.
  destruct H as [[_ Ht] | [_ ->]]; [| reflexivity].
  unfold adds_none. rewrite Ht, count_cons, Hd. reflexivity.
Qed.

Lemma adds_none_get_flag : respects (adds_none p) get_grounding_disabled.
Proof. intros st st' r H. inversion H; subst. reflexivity. Qed.

Lemma adds_none_set_flag b : respects (adds_none p) (set_grounding_disabled b).
Proof. intros st st' r H. inversion H; subst. reflexivity. Qed.

End Counting.

Ltac quiet_auto :=
  repeat respects_step;
  try (apply adds_none_refl);
  try (apply adds_none_trans);
  try (apply adds_none_call; intros [? | ?]; reflexivity);
  try (apply adds_none_sleep; reflexivity).

(* ================================================================== *)
(** * More on the retry loop *)
(* ================================================================== *)

Section RetryDetails.
Context {Sigma : World} {cfg : Config}.

(** X2.  With no attempt allowed (the attempt count, given or configured,
    is below 1) [ground_with_retry] raises the exhaustion error at once:
    the desktop is not captured, the model is not run, the state is
    untouched, and the error has no cause. *)
Theorem no_retries_no_attempt self description max_retries screenshot st :
  retries_of max_retries <= 0 ->
  ground_with_retry self description max_retries screenshot st
  = (st, Raise (GroundingFailed (retries_of max_retries) None)) /\
  cause_of (GroundingFailed (retries_of max_retries) None) = None.
Proof.
  intros H. split; [| reflexivity].
  unfold ground_with_retry. fold (retries_of max_retries).
  rewrite range_nil by lia. reflexivity.
Qed.






Lemma ground_invokes_once self img description save suffix st st' r :
  ground self img description save suffix st = (st', r) ->
  backend_invocations st' = S (backend_invocations st) /\
  desktop_captures st' = desktop_captures st.
Proof.
  intros H. split.
  - unfold ground in H.
    apply bind_inv in H. destruct H as [(st1 & [x y] & H1 & H) | (e & H1 & _)].
    + apply backend_ground_invokes_once in H1. rewrite <- H1.
      revert H. generalize st1 st' r.
      change (respects (adds_none is_infer)
                ((if ANNOTATE_SCREENSHOTS && save
                  then call (AnnotateResult img x y (description ++ suffix))
                  else ret tt) ;; ret (x, y))).
      quiet_auto.
    + exact (backend_ground_invokes_once _ _ _ _ H1).
  - revert H. generalize st st' r.
    change (respects (adds_none is_captured)
              (ground self img description save suffix)).
    unfold ground, backend_ground. quiet_auto.
Qed.

Lemma capture_counted st st' (r : result Image) :
  call CaptureDesktop st = (st', r) ->
  backend_invocations st' = backend_invocations st /\
  desktop_captures st' =
    ((match r with Return _ => 1 | Raise _ => 0 end) + desktop_captures st)%nat.
Proof.
  intros H. split; [exact (capture_not_invocation _ H) |].
  apply call_inv in H. destruct H as (Ht & _).
  unfold desktop_captures. rewrite Ht, count_cons. destruct r; reflexivity.
Qed.

(** An attempt that captures the desktop itself runs the model exactly when
    the capture returned. *)
Lemma attempt_on_fresh_capture self description screenshot attempt st st' r :
  screenshot = None \/ attempt <> 1 ->
  attempt_body self description screenshot attempt st = (st', r) ->
  (backend_invocations st' + desktop_captures st =
   backend_invocations st + desktop_captures st')%nat.
Proof.
  intros Hfresh H. unfold attempt_body in H.
  assert (E : match screenshot with
              | Some img => if attempt =? 1 then ret img else call CaptureDesktop
              | None => call CaptureDesktop
              end = call CaptureDesktop).
  { destruct screenshot as [img |]; [| reflexivity].
    destruct Hfresh as [Hn | Hn]; [discriminate |].
    apply Z.eqb_neq in Hn. rewrite Hn. reflexivity. }
  rewrite E in H. clear E.
  apply bind_inv in H. destruct H as [(st1 & img & H1 & H) | (e & H1 & _)].
  - apply capture_counted in H1. destruct H1 as [I1 I2].
    apply ground_invokes_once in H. destruct H as [G1 G2]. lia.
  - apply capture_counted in H1. destruct H1 as [I1 I2]. simpl in I2. lia.
Qed.

Lemma attempt_on_supplied_screenshot self description img st st' r :
  attempt_body self description (Some img) 1 st = (st', r) ->
  backend_invocations st' = S (backend_invocations st) /\
  desktop_captures st' = desktop_captures st.
Proof.
  intros H. unfold attempt_body in H. cbn [Z.eqb Pos.eqb] in H.
  unfold bind at 1 in H. cbn [ret] in H.
  exact (ground_invokes_once _ _ _ _ _ _ H).
Qed.

Lemma pause_counts_nothing st st' (r : result unit) (b : bool) :
  ((if b then sleep GROUNDING_RETRY_DELAY else ret tt) st = (st', r)) ->
  backend_invocations st' = backend_invocations st /\
  desktop_captures st' = desktop_captures st.
Proof.
  intros H. split.
  - revert H. generalize st st' r.
    change (respects (adds_none is_infer)
              (if b then sleep GROUNDING_RETRY_DELAY else ret tt)).
    quiet_auto.
  - revert H. generalize st st' r.
    change (respects (adds_none is_captured)
              (if b then sleep GROUNDING_RETRY_DELAY else ret tt)).
    quiet_auto.
Qed.

Lemma retry_loop_on_fresh_captures self description screenshot retries :
  forall attempts last st st' r,
    screenshot = None \/ Forall (fun a => a <> 1) attempts ->
    retry_loop self description screenshot retries attempts last st = (st', r) ->
    (backend_invocations st' + desktop_captures st =
     backend_invocations st + desktop_captures st')%nat.
Proof.
  induction attempts as [| a rest IH]; intros last st st' r Hfresh H.
  - inversion H; subst. reflexivity.
  - cbn [retry_loop] in H.
    assert (Ha : screenshot = None \/ a <> 1).
    { destruct Hfresh as [Hn | Hn]; [left; exact Hn | right].
      inversion Hn; assumption. }
    assert (Hrest : screenshot = None \/ Forall (fun a => a <> 1) rest).
    { destruct Hfresh as [Hn | Hn]; [left; exact Hn | right].
      inversion Hn; assumption. }
    apply try_except_inv in H.
    destruct H as [(xy & Hb & ->) | (st1 & e & Hb & Hh)].
    + exact (attempt_on_fresh_capture _ _ _ Ha Hb).
    + pose proof (attempt_on_fresh_capture _ _ _ Ha Hb) as I1.
      apply bind_inv in Hh.
      destruct Hh as [(st2 & [] & Hs & Hh) | (e' & Hs & _)].
      * apply pause_counts_nothing in Hs. destruct Hs as [S1 S2].
        pose proof (IH _ _ _ _ Hrest Hh) as I2. lia.
      * apply pause_counts_nothing in Hs. destruct Hs as [S1 S2]. lia.
Qed.

Lemma range_from_two n : Forall (fun a => a <> 1) (range 2 n).
Proof.
  unfold range. apply Forall_forall. intros a Ha.
  apply in_map_iff in Ha. destruct Ha as (i & <- & _). lia.
Qed.

(** X4.  Every run of the model is on a fresh capture of the desktop, except
    the first attempt of a call that was handed a screenshot: without a
    screenshot the model runs as often as the desktop was captured, with one
    (and at least one attempt allowed) once more. *)
Theorem inference_runs_on_fresh_captures
        self description max_retries screenshot st st' r :
  ground_with_retry self description max_retries screenshot st = (st', r) ->
  match screenshot with
  | None =>
      (backend_invocations st' + desktop_captures st =
       backend_invocations st + desktop_captures st')%nat
  | Some _ =>
      1 <= retries_of max_retries ->
      (backend_invocations st' + desktop_captures st =
       1 + backend_invocations st + desktop_captures st')%nat
  end.
Proof.
  intros H. unfold ground_with_retry in H.
  fold (retries_of max_retries) in H.
  destruct screenshot as [img |].
  - intros Hn. rewrite range_cons in H by lia.
    cbn [retry_loop] in H. apply try_except_inv in H.
    destruct H as [(xy & Hb & ->) | (st1 & e & Hb & Hh)].
    + apply attempt_on_supplied_screenshot in Hb. lia.
    + apply attempt_on_supplied_screenshot in Hb. destruct Hb as [B1 B2].
      apply bind_inv in Hh.
      destruct Hh as [(st2 & [] & Hs & Hh) | (e' & Hs & _)].
      * apply pause_counts_nothing in Hs. destruct Hs as [S1 S2].
        apply retry_loop_on_fresh_captures in Hh;
          [lia | right; apply range_from_two].
      * apply pause_counts_nothing in Hs. lia.
  - apply retry_loop_on_fresh_captures in H; [exact H | left; reflexivity].
Qed.

End RetryDetails.

Lemma no_retries_no_attempt_witness :
  let st := @initial_state world_ok 0%nat in
  @ground_with_retry world_ok config_1080p engine0 _NOTEPAD_DESC
                     (Some 0) None st
  = (st, Raise (GroundingFailed 0 None)).
Proof.
  intros st.
  exact (proj1 (@no_retries_no_attempt world_ok config_1080p engine0
                  _NOTEPAD_DESC (Some 0) None st ltac:(simpl; lia))).
Defined.


Lemma inference_runs_on_fresh_captures_witness :
  let st := @initial_state world_backend_flaky 0%nat in
  let out := @ground_with_retry world_backend_flaky config_1080p engine0
               _NOTEPAD_DESC None (Some (Screenshot 7)) st in
  (@backend_invocations world_backend_flaky (fst out)
   + @desktop_captures world_backend_flaky st =
   1 + @backend_invocations world_backend_flaky st
   + @desktop_captures world_backend_flaky (fst out))%nat.
Proof.
  intros st out.
  exact (@inference_runs_on_fresh_captures world_backend_flaky config_1080p
           engine0 _NOTEPAD_DESC None (Some (Screenshot 7)) st (fst out)
           (snd out) (surjective_pairing _) ltac:(simpl; lia)).
Defined.

(* ================================================================== *)
(** * The attempts of a locate call, one after the other *)
(* ================================================================== *)

Section RetryChain.
Context {Sigma : World} {cfg : Config}.
Variables (self : GroundingEngine) (description : text)
          (screenshot : option Image) (retries : Z).










End RetryChain.

Section RetryClaims.
Context {Sigma : World} {cfg : Config}.



End RetryClaims.







(* ================================================================== *)
(** * The range of the parsed coordinates *)
(* ================================================================== *)

Section ParseRange.

Lemma round_pos_mantissa p q m e :
  0 < p -> 0 < q -> round_pos p q = Finite m e -> 0 <= m.
Proof.
  intros Hp Hq H. unfold round_pos in H. cbv zeta in H.
  match type of H with
  | (if ?c then _ else _) = _ => destruct c
  end; [discriminate |].
  inversion H; subst m e. clear H.
  destruct (0 <=? Z.max (floor_log2_ratio p q - 52) (-1074)) eqn:He.
  - apply Z.leb_le in He.
    assert (Hb : 0 < q * 2 ^ Z.max (floor_log2_ratio p q - 52) (-1074)).
    { apply Z.mul_pos_pos; [exact Hq | apply Z.pow_pos_nonneg; lia]. }
    pose proof (rhe_bounds p Hb) as [[Hl _] _].
    pose proof (Z.div_pos p _ ltac:(lia) Hb) as H0.
    exact (Z.le_trans _ _ _ H0 Hl).
  - pose proof (rhe_bounds
                  (p * 2 ^ (- Z.max (floor_log2_ratio p q - 52) (-1074))) Hq)
      as [[Hl _] _].
    assert (0 <= p * 2 ^ (- Z.max (floor_log2_ratio p q - 52) (-1074))).
    { apply Z.mul_nonneg_nonneg; [lia | apply Z.pow_nonneg; lia]. }
    pose proof (Z.div_pos _ q H Hq) as H0.
    exact (Z.le_trans _ _ _ H0 Hl).
Qed.

Lemma py_int_of_nonneg_ratio p q z :
  0 <= p -> 0 < q -> py_int (round_ratio p q) = Return z -> 0 <= z.
Proof.
  intros Hp Hq H. destruct p as [| p | p]; [| | lia].
  - inversion H. reflexivity.
  - cbn [round_ratio] in H.
    destruct (round_pos (Z.pos p) q) as [m e | b |] eqn:E;
      [| discriminate | discriminate].
    pose proof (@round_pos_mantissa (Z.pos p) q m e (Pos2Z.is_pos p) Hq E)
      as Hm.
    cbn [py_int] in H. inversion H; subst z. clear H.
    destruct (0 <=? e) eqn:He.
    + apply Z.mul_nonneg_nonneg; [exact Hm | apply Z.pow_nonneg; lia].
    + apply Z.ltb_ge in He || apply Z.leb_gt in He.
      apply Z.quot_pos; [exact Hm | apply Z.pow_pos_nonneg; lia].
Qed.

Lemma py_float_nonneg_ratio x :
  numeral x ->
  exists p q, 0 <= p /\ 0 < q /\ py_float x = Return (round_ratio p q).
Proof.
  intros [Hd | (ip & fp & -> & Hi & Hf)]; unfold py_float.
  - rewrite (split_dot_digits (proj2 Hd)), (is_numeral_part_digits Hd).
    exists (digits_value x), 1. split; [| split; [lia | reflexivity]].
    apply (digits_value_bound (proj2 Hd)).
  - rewrite (split_dot_fraction fp (proj2 Hi)),
      (is_numeral_part_digits Hi), (is_numeral_part_digits Hf).
    cbn [andb].
    exists (digits_value (ip ++ fp)), (10 ^ Z.of_nat (List.length fp)).
    split; [| split; [apply Z.pow_pos_nonneg; lia | reflexivity]].
    apply digits_value_bound. apply Forall_app. split; [apply Hi | apply Hf].
Qed.

Lemma int_float_nonneg x z :
  numeral x -> rbind (py_float x) py_int = Return z -> 0 <= z.
Proof.
  intros Hx H. destruct (py_float_nonneg_ratio Hx) as (p & q & Hp & Hq & E).
  rewrite E in H. cbn [rbind] in H.
  exact (py_int_of_nonneg_ratio Hp Hq H).
Qed.

(** X5.  A parsed coordinate is never negative: the patterns capture no
    sign, so whatever text the model produced, the two numbers that
    [_parse_coordinates] returns are at least 0 (a minus sign in front of
    a number is dropped). *)
Theorem parsed_coordinates_are_nonnegative t x y :
  _parse_coordinates t = Return (x, y) -> 0 <= x /\ 0 <= y.
Proof.
  intros H.
  destruct (first_match patterns (clean t)) as [m |] eqn:E.
  2:{ unfold _parse_coordinates in H. rewrite E in H. discriminate H. }
  destruct (first_match_groups _ E) as (gx & gy & Hm & Nx & Ny).
  rewrite (parse_of_match _ E Hm) in H.
  destruct (rbind (py_float gx) py_int) as [a |] eqn:Ea; [| discriminate H].
  destruct (rbind (py_float gy) py_int) as [b |] eqn:Eb; [| discriminate H].
  cbn [rbind] in H. inversion H; subst a b.
  split; [exact (int_float_nonneg Nx Ea) | exact (int_float_nonneg Ny Eb)].
Qed.

End ParseRange.

Lemma parsed_coordinates_are_nonnegative_witness :
  _parse_coordinates (txt "-5, 7") = Return (5, 7) /\ 0 <= 5 /\ 0 <= 7.
Proof.
  assert (H : _parse_coordinates (txt "-5, 7") = Return (5, 7)).
  { vm_compute. reflexivity. }
  split; [exact H |].
  exact (@parsed_coordinates_are_nonnegative (txt "-5, 7") 5 7 H).
Defined.

(* ================================================================== *)
(** * File names and contents of the posts ([src/api.py]) *)
(* ================================================================== *)

Section PostTexts.

Lemma to_int_not_nil z :
  Z.to_int z <> Decimal.Pos Decimal.Nil /\
  Z.to_int z <> Decimal.Neg Decimal.Nil.
Proof.
  destruct z as [| p | p]; cbn [Z.to_int]; split; try discriminate;
    intros H; inversion H as [E];
    exact (DecimalPos.Unsigned.to_uint_nonnil p E).
Qed.

(** [str] of an integer can be read back. *)
Lemma str_of_Z_inj a b : str_of_Z a = str_of_Z b -> a = b.
Proof.
  intros H. unfold str_of_Z, txt in H.
  apply (f_equal string_of_list_ascii) in H.
  rewrite !string_of_list_ascii_of_string in H.
  apply (f_equal NilZero.int_of_string) in H.
  destruct (to_int_not_nil a) as [A1 A2].
  destruct (to_int_not_nil b) as [B1 B2].
  rewrite !NilZero.isi in H by assumption.
  inversion H as [E].
  apply (f_equal Z.of_int) in E. rewrite !DecimalZ.of_to in E. exact E.
Qed.

(** X6.  Two posts get the same file name exactly when they have the same
    id: files of different posts never overwrite each other. *)
Theorem post_filenames_do_not_collide p q :
  post_filename p = post_filename q <-> post_id p = post_id q.
Proof.
  split.
  - unfold post_filename. intros H.
    apply app_inv_head in H. apply app_inv_tail in H.
    exact (str_of_Z_inj _ _ H).
  - unfold post_filename. intros ->. reflexivity.
Qed.

(** X7.  The text typed for a post determines the post's title and body,
    provided the title is a single line: the title is what stands between
    ["Title: "] and the first line break, the body what follows the blank
    line. *)
Theorem post_content_determines_post p q :
  single_line (post_title p) -> single_line (post_title q) ->
  format_post_content p = format_post_content q ->
  post_title p = post_title q /\ post_body p = post_body q.
Proof.
  unfold format_post_content. intros Hp Hq H.
  apply app_inv_head in H.
  apply (span_unique (p := fun c => negb (Ascii.eqb c newline))) in H;
    [| exact Hp | exact Hq | reflexivity | reflexivity].
  destruct H as [Ht Hb]. split; [exact Ht |].
  cbn [app] in Hb. inversion Hb. reflexivity.
Qed.

End PostTexts.

Lemma post_content_determines_post_witness :
  let q := {| post_id := 2; post_title := post_title post1;
              post_body := post_body post1 |} in
  single_line (post_title post1) /\
  format_post_content post1 = format_post_content q /\
  post_title post1 = post_title q /\ post_body post1 = post_body q.
Proof.
  intros q.
  assert (Hs : single_line (post_title post1)) by (repeat constructor).
  split; [exact Hs |]. split; [reflexivity |].
  exact (@post_content_determines_post post1 q Hs Hs eq_refl).
Defined.

(* ================================================================== *)
(** * Saving: verification and the overwrite confirmation *)
(* ================================================================== *)

Section Saving.
Context {Sigma : World} {cfg : Config}.

(** X8.  The on-disk check of [save_post] adds no way to fail: [save_post]
    raises exactly when [save_file_as] does, with the same exception, and
    otherwise returns; a path that does not exist, or that is a directory,
    gives [False], never an error of [os.path.getsize]. *)
Theorem save_verification_cannot_fail post target_dir st :
  match save_file_as (post_filename post) target_dir st with
  | (st1, Raise e) => save_post post target_dir st = (st1, Raise e)
  | (st1, Return p) =>
      exists b,
        save_post post target_dir st = (st1, Return b) /\
        (fs (world st1) p = None -> b = false) /\
        (forall n, fs (world st1) p = Some (Directory n) -> b = false) /\
        (forall n, fs (world st1) p = Some (File n) -> b = (0 <? n))
  end.
Proof.
  rewrite save_post_unfold.
  destruct (save_file_as (post_filename post) target_dir st)
    as [st1 [p | e]]; [| reflexivity].
  exists (file_nonempty_b (world st1) p). split; [reflexivity |].
  unfold file_nonempty_b.
  split; [intros -> ; reflexivity |].
  split; intros n ->; reflexivity.
Qed.

Lemma focus_window_adds_none p hwnd :
  (forall r, p (EvCall (ShowAndSetForeground hwnd) r) = false) ->
  (forall d, p (EvSleep d) = false) ->
  respects (adds_none p) (focus_window hwnd).
Proof.
  intros Hc Hs. unfold focus_window.
  repeat respects_step;
    try (apply adds_none_refl); try (apply adds_none_trans).
  - apply adds_none_call. exact Hc.
  - apply adds_none_sleep. apply Hs.
Qed.

Lemma poll_counted (title : text) st st' (r : result (option Z)) :
  call (FindWindowByPartialTitle title) st = (st', r) ->
  window_polls st' = S (window_polls st) /\
  button_clicks st' = button_clicks st.
Proof.
  intros H. apply call_inv in H. destruct H as (Ht & _).
  unfold window_polls, button_clicks. rewrite Ht, !count_cons.
  split; reflexivity.
Qed.

Lemma yes_click_counted h st st' (r : result unit) :
  try_except (call (ClickDialogButton h 6))
             (fun _ => call (Hotkey [key "alt"; key "y"])) st = (st', r) ->
  window_polls st' = window_polls st /\
  button_clicks st' = S (button_clicks st).
Proof.
  intros H. apply try_except_inv in H.
  destruct H as [(a & H & _) | (st1 & e & H & Hh)].
  - apply call_inv in H. destruct H as (Ht & _).
    unfold window_polls, button_clicks. rewrite Ht, !count_cons.
    split; reflexivity.
  - apply call_inv in H. destruct H as (Ht & _).
    apply call_inv in Hh. destruct Hh as (Ht' & _).
    unfold window_polls, button_clicks. rewrite Ht', Ht, !count_cons.
    split; reflexivity.
Qed.

Lemma quiet_step_counts (m : M unit) st st' r :
  respects (adds_none is_find_window) m ->
  respects (adds_none is_button_click) m ->
  m st = (st', r) ->
  window_polls st' = window_polls st /\ button_clicks st' = button_clicks st.
Proof. intros H1 H2 H. split; [exact (H1 _ _ _ H) | exact (H2 _ _ _ H)]. Qed.

Lemma sleep_counts_no_poll d st st' r :
  sleep d st = (st', r) ->
  window_polls st' = window_polls st /\ button_clicks st' = button_clicks st.
Proof.
  apply quiet_step_counts; apply adds_none_sleep; reflexivity.
Qed.

Lemma focus_counts_no_poll h st st' r :
  focus_window h st = (st', r) ->
  window_polls st' = window_polls st /\ button_clicks st' = button_clicks st.
Proof.
  apply quiet_step_counts; apply focus_window_adds_none;
    intros; reflexivity.
Qed.

(** Each pass of the loop looks once for the dialog and clicks at most
    once. *)
Lemma confirm_overwrite_counts :
  forall attempts st st' r,
    confirm_overwrite attempts st = (st', r) ->
    (window_polls st' <= window_polls st + List.length attempts)%nat /\
    (button_clicks st' + window_polls st <=
     button_clicks st + window_polls st')%nat.
Proof.
  induction attempts as [| a rest IH]; intros st st' r H.
  - inversion H; subst. simpl. lia.
  - cbn [confirm_overwrite List.length] in H |- *.
    apply bind_inv in H.
    destruct H as [(st1 & [] & H1 & H) | (e & H1 & _)];
      apply sleep_counts_no_poll in H1; destruct H1 as [A1 A2]; [| lia].
    apply bind_inv in H.
    destruct H as [(st2 & found & H2 & H) | (e & H2 & _)];
      apply poll_counted in H2; destruct H2 as [B1 B2]; [| lia].
    destruct found as [h |]; [| inversion H; subst; lia].
    destruct (h =? 0); [inversion H; subst; lia |].
    apply bind_inv in H.
    destruct H as [(st3 & [] & H3 & H) | (e & H3 & _)];
      apply focus_counts_no_poll in H3; destruct H3 as [C1 C2]; [| lia].
    apply bind_inv in H.
    destruct H as [(st4 & [] & H4 & H) | (e & H4 & _)];
      apply yes_click_counted in H4; destruct H4 as [D1 D2]; [| lia].
    apply bind_inv in H.
    destruct H as [(st5 & [] & H5 & H) | (e & H5 & _)];
      apply sleep_counts_no_poll in H5; destruct H5 as [E1 E2]; [| lia].
    destruct (IH _ _ _ H) as [I1 I2]. lia.
Qed.

Lemma call_counts_no_poll A (op : Op A) st st' (r : result A) :
  is_find_window (EvCall op r) = false ->
  is_button_click (EvCall op r) = false ->
  call op st = (st', r) ->
  window_polls st' = window_polls st /\ button_clicks st' = button_clicks st.
Proof.
  intros Hf Hb H. apply call_inv in H. destruct H as (Ht & _).
  unfold window_polls, button_clicks. rewrite Ht, !count_cons, Hf, Hb.
  split; reflexivity.
Qed.

Ltac no_poll_step H :=
  let st1 := fresh "st" in
  let a := fresh "a" in
  let e := fresh "e" in
  let H1 := fresh "Q" in
  let K1 := fresh "K" in
  let K2 := fresh "K" in
  apply bind_inv in H;
  destruct H as [(st1 & a & H1 & H) | (e & H1 & _)];
  [ first [ apply sleep_counts_no_poll in H1
          | apply call_counts_no_poll in H1; [| reflexivity | reflexivity] ];
    destruct H1 as [K1 K2]
  | first [ apply sleep_counts_no_poll in H1
          | apply call_counts_no_poll in H1; [| reflexivity | reflexivity] ];
    destruct H1 as [K1 K2]; lia ].

(** X9.  [save_file_as] looks for the overwrite confirmation at most three
    times, and it answers Yes at most once per look, so at most three
    times in all. *)
Theorem save_as_confirms_at_most_three filename directory st st' r :
  save_file_as filename directory st = (st', r) ->
  (window_polls st' <= window_polls st + 3)%nat /\
  (button_clicks st' + window_polls st <=
   button_clicks st + window_polls st')%nat.
Proof.
  intros H. unfold save_file_as in H.
  do 9 no_poll_step H.
  apply bind_inv in H.
  destruct H as [(st9 & [] & Hc & H) | (e & Hc & _)];
    apply confirm_overwrite_counts in Hc; rewrite range_length in Hc;
    change (Z.to_nat (3 - 0)) with 3%nat in Hc; destruct Hc as [C1 C2].
  - no_poll_step H. inversion H; subst. lia.
  - lia.
Qed.

End Saving.

Lemma save_as_confirms_at_most_three_witness :
  let st := @initial_state world_ok 0%nat in
  let out := @save_file_as world_ok (txt "post_1.txt") (txt "C:/out") st in
  (@window_polls world_ok (fst out) <= @window_polls world_ok st + 3)%nat.
Proof.
  intros st out.
  exact (proj1 (@save_as_confirms_at_most_three world_ok (txt "post_1.txt")
                  (txt "C:/out") st (fst out) (snd out)
                  (surjective_pairing _))).
Defined.

(* ================================================================== *)
(** * When grounding is given up *)
(* ================================================================== *)

Section GivingUp.
Context {Sigma : World} {cfg : Config}.

Lemma retry_loop_adds_none p self description screenshot retries :
  (forall r, p (EvCall CaptureDesktop r) = false) ->
  (forall b img d r, p (EvCall (Infer b img d) r) = false) ->
  (forall img x y l r, p (EvCall (AnnotateResult img x y l) r) = false) ->
  (forall d, p (EvSleep d) = false) ->
  forall attempts last,
    respects (adds_none p)
             (retry_loop self description screenshot retries attempts last).
Proof.
  intros Hc Hi Ha Hs.
  induction attempts as [| a rest IH]; intros last; cbn [retry_loop].
  - apply respects_raise. apply adds_none_refl.
  - unfold attempt_body, ground, backend_ground.
    repeat respects_step;
      try (apply adds_none_refl); try (apply adds_none_trans);
      try (apply adds_none_call; intros r; first [apply Hc | apply Hi | apply Ha]);
      try (apply adds_none_sleep; apply Hs);
      try (apply IH).
Qed.

Lemma ground_with_retry_no_timeout self description max_retries screenshot :
  respects (adds_none is_click_timeout)
           (ground_with_retry self description max_retries screenshot).
Proof.
  unfold ground_with_retry. apply retry_loop_adds_none; intros; reflexivity.
Qed.

Lemma double_click_no_timeout x y :
  respects (adds_none is_click_timeout) (double_click x y).
Proof. unfold double_click. quiet_auto. Qed.

Lemma double_click_no_launch x y : respects no_launch (double_click x y).
Proof.
  unfold double_click.
  respects_auto no_launch_refl no_launch_trans;
    first [apply no_launch_sleep | apply no_launch_call; reflexivity].
Qed.

Lemma ground_click_loop_no_launch engine :
  forall attempts, respects no_launch (ground_click_loop engine attempts).
Proof.
  induction attempts as [| a rest IH]; cbn [ground_click_loop].
  - apply respects_ret. exact no_launch_refl.
  - respects_auto no_launch_refl no_launch_trans;
      first [ apply no_launch_ground_with_retry
            | apply double_click_no_launch
            | apply no_launch_call; reflexivity
            | exact IH ].
Qed.

Lemma click_wait_counted st st' (r : result Z) :
  call (WaitForWindow Notepad 8) st = (st', r) ->
  click_timeouts st' =
    ((match r with
      | Raise e => if isinstance e TimeoutError then 1 else 0
      | Return _ => 0
      end) + click_timeouts st)%nat.
Proof.
  intros H. apply call_inv in H. destruct H as (Ht & _).
  unfold click_timeouts. rewrite Ht, count_cons.
  destruct r as [h | e]; [reflexivity |].
  cbn [is_click_timeout]. change (8 =? 8) with true. cbn [andb].
  reflexivity.
Qed.

(** The loop runs out only after every wait of its attempts timed out. *)
Lemma ground_click_loop_timeouts engine :
  forall attempts st st' r,
    ground_click_loop engine attempts st = (st', r) ->
    (click_timeouts st' <= click_timeouts st + List.length attempts)%nat /\
    (r = Return None ->
     click_timeouts st' = (click_timeouts st + List.length attempts)%nat).
Proof.
  induction attempts as [| a rest IH]; intros st st' r H.
  - inversion H; subst. simpl. lia.
  - cbn [ground_click_loop List.length] in H |- *.
    apply bind_inv in H.
    destruct H as [(st1 & [x y] & H1 & H) | (e & H1 & ->)];
      apply ground_with_retry_no_timeout in H1; unfold adds_none in H1;
      fold (click_timeouts st) in H1;
      [fold (click_timeouts st1) in H1 | fold (click_timeouts st') in H1].
    2:{ split; [lia | discriminate]. }
    apply bind_inv in H.
    destruct H as [(st2 & [] & H2 & H) | (e & H2 & ->)];
      apply double_click_no_timeout in H2; unfold adds_none in H2;
      fold (click_timeouts st1) in H2;
      [fold (click_timeouts st2) in H2 | fold (click_timeouts st') in H2].
    2:{ split; [lia | discriminate]. }
    unfold try_except_class in H. apply try_except_inv in H.
    destruct H as [(h & Hw & ->) | (st3 & e & Hw & Hh)].
    + apply bind_inv in Hw.
      destruct Hw as [(st3 & h' & Hw & Hr) | (e & _ & He)]; [| discriminate].
      inversion Hr; subst. apply click_wait_counted in Hw. simpl in Hw.
      split; [lia | discriminate].
    + apply bind_inv in Hw.
      destruct Hw as [(st4 & h' & _ & Hr) | (e' & Hw & He)]; [discriminate |].
      inversion He; subst e'. apply click_wait_counted in Hw.
      destruct (isinstance e TimeoutError).
      * apply bind_inv in Hh.
        destruct Hh as [(st4 & n & Hd & Hh) | (e' & Hd & ->)].
        -- assert (D : click_timeouts st4 = click_timeouts st3).
           { revert Hd. generalize st3 st4 (Return (A:=Z) n).
             change (respects (adds_none is_click_timeout)
                       (call (DismissNotepadDialogs 2 (3 # 10)))).
             quiet_auto. }
           destruct (IH _ _ _ Hh) as [I1 I2].
           split; [lia |]. intros Hn. rewrite (I2 Hn). lia.
        -- assert (D : click_timeouts st' = click_timeouts st3).
           { revert Hd. generalize st3 st' (Raise (A:=Z) e').
             change (respects (adds_none is_click_timeout)
                       (call (DismissNotepadDialogs 2 (3 # 10)))).
             quiet_auto. }
           split; [lia | discriminate].
      * inversion Hh; subst. split; [lia | discriminate].
Qed.

Lemma call_keeps_flag A (op : Op A) :
  respects (fun st st' => _grounding_disabled st' = _grounding_disabled st)
           (call op).
Proof. intros st st' r H. apply call_inv in H. apply H. Qed.

Lemma sleep_keeps_flag d :
  respects (fun st st' => _grounding_disabled st' = _grounding_disabled st)
           (sleep d).
Proof.
  intros st st' r H. unfold sleep in H.
  destruct (Qle_bool 0 d); inversion H; subst; reflexivity.
Qed.

Lemma wait_after_launch_counts st st' (r : result Z) :
  (sleep (15 # 10) ;; call (WaitForWindow Notepad 10)) st = (st', r) ->
  process_launches st' = process_launches st /\
  click_timeouts st' = click_timeouts st /\
  _grounding_disabled st' = _grounding_disabled st.
Proof.
  intros H. split; [| split]; revert H; generalize st st' r.
  - change (respects (adds_none is_popen)
              (sleep (15 # 10) ;; call (WaitForWindow Notepad 10))).
    quiet_auto.
  - change (respects (adds_none is_click_timeout)
              (sleep (15 # 10) ;; call (WaitForWindow Notepad 10))).
    quiet_auto.
  - change (respects
              (fun st st' => _grounding_disabled st' = _grounding_disabled st)
              (sleep (15 # 10) ;; call (WaitForWindow Notepad 10))).
    apply respects_bind.
    + intros a b c H1 H2. congruence.
    + apply sleep_keeps_flag.
    + intros _. apply call_keeps_flag.
Qed.

Lemma subprocess_launch_counted st st' r :
  _launch_notepad_subprocess st = (st', r) ->
  process_launches st' = S (process_launches st) /\
  click_timeouts st' = click_timeouts st /\
  _grounding_disabled st' = _grounding_disabled st.
Proof.
  intros H. unfold _launch_notepad_subprocess in H.
  apply bind_inv in H.
  destruct H as [(st1 & [] & H1 & H) | (e & H1 & _)];
    apply call_inv in H1; destruct H1 as (T1 & F1 & _).
  - apply wait_after_launch_counts in H. destruct H as (A1 & A2 & A3).
    rewrite A1, A2, A3, F1.
    unfold process_launches, click_timeouts. rewrite T1, !count_cons.
    auto.
  - unfold process_launches, click_timeouts. rewrite T1, !count_cons.
    auto.
Qed.

(** X10.  Grounding is given up only after three double clicks in a row
    each ran into the 8-second time-out of the wait for the window: when
    [launch_notepad]'s launch phase ends with the flag newly set, exactly
    three such time-outs happened in it and the direct launch of
    [notepad.exe] was made once; when it ends with the flag still unset, no
    process was launched directly. *)
Theorem grounding_given_up_after_three_timeouts engine st st' r :
  _grounding_disabled st = false ->
  launch_phase engine st = (st', r) ->
  (_grounding_disabled st' = true ->
   click_timeouts st' = (click_timeouts st + 3)%nat /\
   process_launches st' = S (process_launches st)) /\
  (_grounding_disabled st' = false ->
   process_launches st' = process_launches st /\
   (click_timeouts st' <= click_timeouts st + 3)%nat).
Proof.
  intros Hflag H. unfold launch_phase in H.
  unfold bind at 1 in H. unfold get_grounding_disabled in H.
  rewrite Hflag in H.
  apply bind_inv in H.
  destruct H as [(st1 & found & Hl & H) | (e & Hl & _)].
  - pose proof Hl as Hn. apply ground_click_loop_no_launch in Hn.
    destruct Hn as [F1 P1].
    destruct (ground_click_loop_timeouts _ _ _ Hl) as [T1 T2].
    rewrite range_length in T1, T2.
    change (Z.to_nat (4 - 1)) with 3%nat in T1, T2.
    destruct found as [h |].
    + inversion H; subst. split; [congruence |]. intros _. split; [exact P1 | exact T1].
    + apply bind_inv in H.
      destruct H as [(st2 & [] & Hs & H) | (e & Hs & _)]; [| discriminate].
      inversion Hs; subst st2. clear Hs.
      apply subprocess_launch_counted in H. destruct H as (A1 & A2 & A3).
      cbn [_grounding_disabled trace] in A1, A2, A3.
      split.
      * intros _. split.
        -- rewrite A2. apply (T2 eq_refl).
        -- rewrite A1. f_equal. exact P1.
      * rewrite A3. discriminate.
  - pose proof Hl as Hn. apply ground_click_loop_no_launch in Hn.
    destruct Hn as [F1 P1].
    destruct (ground_click_loop_timeouts _ _ _ Hl) as [T1 _].
    rewrite range_length in T1. change (Z.to_nat (4 - 1)) with 3%nat in T1.
    split; [congruence |]. intros _. split; [exact P1 | exact T1].
Qed.

End GivingUp.

Lemma grounding_given_up_after_three_timeouts_witness :
  let st := @initial_state world_no_window_on_click 0%nat in
  let out := @launch_phase world_no_window_on_click config_1080p engine0 st in
  @_grounding_disabled world_no_window_on_click (fst out) = true /\
  @click_timeouts world_no_window_on_click (fst out) = 3%nat /\
  @process_launches world_no_window_on_click (fst out) = 1%nat.
Proof.
  intros st out.
  assert (Hf : @_grounding_disabled world_no_window_on_click (fst out) = true).
  { vm_compute. reflexivity. }
  split; [exact Hf |].
  exact (proj1 (@grounding_given_up_after_three_timeouts
                  world_no_window_on_click config_1080p engine0 st
                  (fst out) (snd out) eq_refl (surjective_pairing _)) Hf).
Defined.

(* ================================================================== *)
(** * Exhaustion in any round of the launch *)
(* ================================================================== *)

Section ExhaustionInAnyRound.
Context {Sigma : World} {cfg : Config}.

(** After rounds that timed out, the loop goes on with the rounds that are
    left. *)
Lemma ground_click_loop_after_timeouts engine n st s :
  timed_out_rounds engine n st s ->
  forall attempts,
    (n <= List.length attempts)%nat ->
    ground_click_loop engine attempts st
    = ground_click_loop engine (skipn n attempts) s.
Proof.
  induction 1 as [| n st x y s1 s2 s3 e s4 d st' Hg Hc Hw He Hd _ IH];
    intros attempts Hn.
  - reflexivity.
  - destruct attempts as [| a rest]; [cbn in Hn; lia |].
    cbn [List.length] in Hn. cbn [skipn ground_click_loop].
    erewrite bind_Return by exact Hg. cbn beta iota.
    erewrite bind_Return by exact Hc.
    unfold try_except_class, try_except.
    erewrite bind_Raise by exact Hw. rewrite He.
    erewrite bind_Return by exact Hd.
    apply IH. lia.
Qed.

(** C3 (as amended). When all grounding retries are exhausted the
    exhaustion error is not fatal to the process, but the window lifecycle
    does not recover from it.  In whichever of its three ground-and-click
    rounds [ground_with_retry] raises - the first, or a later one after
    the rounds before it timed out waiting for the window -
    [launch_notepad] raises that very exception: it has no handler for
    it, has launched no process and has left the degradation flag unset;
    and the item-level handler of [main] records the item as failed with
    that error and goes on. *)
Theorem exhaustion_fails_the_item engine post st st1 n s st2 e :
  _grounding_disabled st = false ->
  call CloseAllNotepadWindows st = (st1, Return tt) ->
  (n < 3)%nat ->
  timed_out_rounds engine n st1 s ->
  ground_with_retry engine _NOTEPAD_DESC None None s = (st2, Raise e) ->
  launch_notepad engine st = (st2, Raise e) /\
  process_launches st2 = process_launches st /\
  _grounding_disabled st2 = false /\
  exists st3,
    process_post engine post st
    = (st3, Return {| result_id := post_id post;
                      status := error (Because e) |}).
Proof.
  intros Hflag Hclose Hn Hrounds Hg.
  assert (Hloop : ground_click_loop engine (range 1 4) st1 = (st2, Raise e)).
  { rewrite (ground_click_loop_after_timeouts Hrounds)
      by (rewrite range_length; lia).
    change (range 1 4) with [1; 2; 3].
    destruct n as [| [| [| n]]]; [| | | lia]; cbn [skipn ground_click_loop];
      apply bind_Raise; exact Hg. }
  assert (H1 : no_launch st st1).
  { eapply no_launch_call; [| exact Hclose]. reflexivity. }
  assert (H2 : no_launch st1 st2).
  { eapply ground_click_loop_no_launch. exact Hloop. }
  destruct H1 as [F1 P1]. destruct H2 as [F2 P2].
  assert (Hl : launch_notepad engine st = (st2, Raise e)).
  { unfold launch_notepad. erewrite bind_Return by exact Hclose.
    apply bind_Raise. unfold launch_phase. unfold bind at 1.
    unfold get_grounding_disabled. rewrite F1, Hflag.
    apply bind_Raise. exact Hloop. }
  split; [exact Hl |]. split; [congruence |]. split; [congruence |].
  eapply process_post_of_failed_launch. exact Hl.
Qed.
End ExhaustionInAnyRound.


Lemma exhaustion_fails_the_item_witness :
  let st := @initial_state world_second_round_down 0%nat in
  let out := @launch_notepad world_second_round_down config_1080p engine0 st in
  snd out = Raise (GroundingFailed 3 (Some inference_error)) /\
  @process_launches world_second_round_down (fst out) = 0%nat /\
  @click_timeouts world_second_round_down (fst out) = 1%nat.
Proof.
  intros st out.
  pose (st1 := fst (@call world_second_round_down _ CloseAllNotepadWindows st)).
  assert (Hr : exists s,
             @timed_out_rounds world_second_round_down config_1080p engine0
                               1 st1 s /\
             @ground_with_retry world_second_round_down config_1080p engine0
                                _NOTEPAD_DESC None None s
             = (fst out, Raise (GroundingFailed 3 (Some inference_error)))).
  { eexists. split.
    - eapply timed_out_round;
        [vm_compute; reflexivity | vm_compute; reflexivity
         | vm_compute; reflexivity | reflexivity | vm_compute; reflexivity
         | apply no_round].
    - vm_compute. reflexivity. }
  destruct Hr as (s & Hrounds & Hg).
  destruct (@exhaustion_fails_the_item world_second_round_down config_1080p
              engine0 post1 st st1 1%nat s (fst out)
              (GroundingFailed 3 (Some inference_error))
              eq_refl eq_refl ltac:(lia) Hrounds Hg) as (H1 & H2 & _).
  fold out in H1. rewrite H1. cbn [fst snd].
  split; [reflexivity |]. split; [exact H2 | vm_compute; reflexivity].
Defined.

(* ================================================================== *)
(** * Typing the content *)
(* ================================================================== *)

Section Typing.
Context {Sigma : World} {cfg : Config}.




End Typing.


(* ================================================================== *)
(** * Finding a window by its title ([src/automation.py]) *)
(* ================================================================== *)

Section FindWindow.
Context {Sigma : World} {desk : Desktop}.

Lemma lower_char_idem c : lower_char (lower_char c) = lower_char c.
Proof. destruct c as [[] [] [] [] [] [] [] []]; reflexivity. Qed.

Lemma lower_idem s : lower (lower s) = lower s.
Proof.
  unfold lower. rewrite map_map. apply map_ext. exact lower_char_idem.
Qed.

Lemma first_of_filter A B (f : A -> B) (p : A -> bool) (l : list A) :
  (forall b,
      hd_error (map f (filter p l)) = Some b <->
      exists pre a post,
        l = pre ++ a :: post /\ f a = b /\ p a = true /\
        Forall (fun x => p x = false) pre) /\
  (hd_error (map f (filter p l)) = None <->
   Forall (fun x => p x = false) l).
Proof.
  induction l as [| x l [IH1 IH2]].
  - split.
    + intros b. split; [discriminate |].
      intros (pre & a & post & E & _). destruct pre; discriminate E.
    + split; [constructor | reflexivity].
  - cbn [filter]. destruct (p x) eqn:Hx.
    + split.
      * intros b. cbn [map hd_error]. split.
        -- intros H. inversion H; subst. exists [], x, l. auto.
        -- intros (pre & a & post & E & Hf & Ha & Hpre).
           destruct pre as [| y pre].
           ++ inversion E; subst. reflexivity.
           ++ inversion E; subst. inversion Hpre; subst. congruence.
      * cbn [map hd_error]. split; [discriminate |].
        intros H. inversion H; subst. congruence.
    + split.
      * intros b. rewrite IH1. split.
        -- intros (pre & a & post & -> & Hf & Ha & Hpre).
           exists (x :: pre), a, post. auto.
        -- intros (pre & a & post & E & Hf & Ha & Hpre).
           destruct pre as [| y pre].
           ++ inversion E; subst. congruence.
           ++ inversion E; subst. inversion Hpre; subst.
              exists pre, a, post. auto.
      * rewrite IH2. split.
        -- intros H. constructor; assumption.
        -- intros H. inversion H; assumption.
Qed.

Lemma title_matches_spec partial_title w :
  title_matches partial_title w = true <->
  w_visible w = true /\
  contains (lower partial_title) (lower (w_title w)) = true /\
  contains (txt "antigravity") (lower (w_title w)) = false.
Proof.
  unfold title_matches. rewrite !andb_true_iff, negb_true_iff. tauto.
Qed.

(** X12.  [_find_window_by_partial_title] answers with the first window,
    in the order of the enumeration, that is visible, whose title contains
    the pattern when both are lower-cased, and whose title does not
    contain "antigravity" in any casing; it answers [None] exactly when the
    enumeration shows no such window; and the casing of the pattern does
    not matter. *)
Theorem find_window_takes_first_match partial_title st :
  match win EnumWindows st with
  | (st', Raise e) =>
      _find_window_by_partial_title partial_title st = (st', Raise e)
  | (st', Return windows) =>
      exists found,
        _find_window_by_partial_title partial_title st = (st', Return found) /\
        (forall h,
            found = Some h <->
            exists before w after,
              windows = before ++ w :: after /\ w_hwnd w = h /\
              (w_visible w = true /\
               contains (lower partial_title) (lower (w_title w)) = true /\
               contains (txt "antigravity") (lower (w_title w)) = false) /\
              Forall (fun x => title_matches partial_title x = false) before) /\
        (found = None <->
         Forall (fun x => title_matches partial_title x = false) windows)
  end /\
  _find_window_by_partial_title (lower partial_title) st
  = _find_window_by_partial_title partial_title st.
Proof.
  split.
  - unfold _find_window_by_partial_title, bind.
    destruct (win EnumWindows st) as [st' [windows | e]]; [| reflexivity].
    exists (hd_error (matching_windows partial_title windows)).
    split; [reflexivity |].
    destruct (first_of_filter w_hwnd (title_matches partial_title) windows)
      as [H1 H2].
    split; [| exact H2].
    intros h. unfold matching_windows. rewrite H1. split.
    + intros (pre & w & post & E & Hh & Hm & Hpre).
      exists pre, w, post. rewrite <- title_matches_spec. auto.
    + intros (pre & w & post & E & Hh & Hm & Hpre).
      exists pre, w, post. rewrite title_matches_spec. auto.
  - unfold _find_window_by_partial_title, matching_windows, title_matches.
    rewrite lower_idem. reflexivity.
Qed.

End FindWindow.

(* ================================================================== *)
(** * Waiting for a window ([src/automation.py]) *)
(* ================================================================== *)

Section WaitForWindow.
Context {Sigma : World} {desk : Desktop} {lcfg : LaunchConfig}.

(** X13.  With a time-out of 0 or less, [wait_for_window] does not look for
    any window: it raises its [TimeoutError] at once and leaves the state
    as it was.  With the time-out 0 the message of that error shows the
    default [NOTEPAD_LAUNCH_TIMEOUT] instead of 0. *)
Theorem wait_without_time_raises_at_once fuel title_pattern t poll st :
  t <= 0 ->
  wait_for_window (S fuel) title_pattern (Some t) poll st
  = (st, Raise (window_not_found title_pattern (Some t))) /\
  class_of (window_not_found title_pattern (Some t)) = TimeoutError /\
  window_not_found title_pattern (Some 0)
  = window_not_found title_pattern None.
Proof.
  intros Ht. split; [| split; reflexivity].
  unfold wait_for_window. unfold bind at 1. unfold now at 1.
  cbn [wait_loop]. unfold bind at 1. unfold now at 1.
  assert (E : Qle_bool (time_time (world st) + inject_Z t)
                       (time_time (world st)) = true).
  { apply Qle_bool_iff.
    assert (H0 : (inject_Z t <= 0)%Q).
    { change 0%Q with (inject_Z 0). rewrite <- Zle_Qle. exact Ht. }
    lra. }
  rewrite E. reflexivity.
Qed.

Lemma wait_loop_returns_found title_pattern timeout deadline poll :
  forall fuel st st' h,
    wait_loop fuel title_pattern timeout deadline poll st
    = (st', Return (Some h)) ->
    h <> 0 /\
    exists s s1 title,
      _find_window_by_partial_title title_pattern s = (s1, Return (Some h)) /\
      call (GetWindowText h) s1 = (st', Return title).
Proof.
  induction fuel as [| fuel IH]; intros st st' h H.
  - inversion H.
  - cbn [wait_loop] in H. unfold bind at 1 in H. unfold now at 1 in H.
    destruct (Qle_bool deadline (time_time (world st))); [discriminate H |].
    apply bind_inv in H.
    destruct H as [(st1 & found & Hf & H) | (e & _ & He)]; [| discriminate].
    destruct found as [h' |].
    + destruct (h' =? 0) eqn:E0.
      * apply bind_inv in H.
        destruct H as [(st2 & [] & _ & H) | (e & _ & He)]; [| discriminate].
        exact (IH _ _ _ H).
      * apply bind_inv in H.
        destruct H as [(st2 & title & Hg & H) | (e & _ & He)];
          [| discriminate].
        inversion H; subst. apply Z.eqb_neq in E0.
        split; [exact E0 |]. exists st, st1, title. split; assumption.
    + apply bind_inv in H.
      destruct H as [(st2 & [] & _ & H) | (e & _ & He)]; [| discriminate].
      exact (IH _ _ _ H).
Qed.

(** X14.  A handle returned by [wait_for_window] is never 0, and it is the
    answer that one of the look-ups by title gave; the title of that
    window was read right before the return. *)
Theorem waited_window_was_found fuel title_pattern timeout poll st st' h :
  wait_for_window fuel title_pattern timeout poll st
  = (st', Return (Some h)) ->
  h <> 0 /\
  exists s s1 title,
    _find_window_by_partial_title title_pattern s = (s1, Return (Some h)) /\
    call (GetWindowText h) s1 = (st', Return title).
Proof.
  intros H. unfold wait_for_window in H.
  unfold bind at 1 in H. unfold now at 1 in H.
  exact (wait_loop_returns_found _ _ _ _ _ _ H).
Qed.

Lemma find_window_clock title_pattern st st' r :
  clock_advances ->
  _find_window_by_partial_title title_pattern st = (st', r) ->
  (time_time (world st) <= time_time (world st'))%Q /\
  trace st' = trace st.
Proof.
  intros [_ Hw] H. unfold _find_window_by_partial_title in H.
  assert (Hwin : forall s s' (x : result (list Window)),
             win EnumWindows s = (s', x) ->
             (time_time (world s) <= time_time (world s'))%Q /\
             trace s' = trace s).
  { intros s s' x Hx. unfold win in Hx.
    pose proof (Hw _ EnumWindows (world s)) as Hc.
    destruct (handle_win EnumWindows (world s)) as [w' x'].
    inversion Hx; subst. split; [exact Hc | reflexivity]. }
  apply bind_inv in H.
  destruct H as [(st1 & ws & H1 & H) | (e & H1 & _)].
  - inversion H; subst. exact (Hwin _ _ _ H1).
  - exact (Hwin _ _ _ H1).
Qed.

Lemma sleep_clock d st st' :
  clock_advances -> (0 <= d)%Q ->
  sleep d st = (st', Return tt) ->
  (time_time (world st) + d <= time_time (world st'))%Q.
Proof.
  intros [Hs _] Hd H. unfold sleep in H.
  destruct (Qle_bool 0 d); [| discriminate H].
  inversion H; subst. cbn [world]. exact (Hs d (world st) Hd).
Qed.

(** With the clock moving on, the loop is over before its fuel is. *)
Lemma wait_loop_ends title_pattern timeout deadline poll :
  clock_advances -> (0 < poll)%Q ->
  forall fuel st st' r,
    (deadline - time_time (world st) < inject_Z (Z.of_nat fuel) * poll)%Q ->
    wait_loop (S fuel) title_pattern timeout deadline poll st = (st', r) ->
    r <> Return None.
Proof.
  intros Hclock Hpoll.
  induction fuel as [| fuel IH]; intros st st' r Hleft H.
  - cbn [wait_loop] in H. unfold bind at 1 in H. unfold now at 1 in H.
    assert (E : Qle_bool deadline (time_time (world st)) = true).
    { apply Qle_bool_iff. change (inject_Z (Z.of_nat 0)) with 0%Q in Hleft.
      lra. }
    rewrite E in H. inversion H. discriminate.
  - remember (S fuel) as n eqn:Hn.
    cbn [wait_loop] in H. unfold bind at 1 in H. unfold now at 1 in H.
    destruct (Qle_bool deadline (time_time (world st)));
      [inversion H; discriminate |].
    assert (Hnext : forall s1 s2 x,
               (time_time (world st) <= time_time (world s1))%Q ->
               (sleep poll ;;
                wait_loop n title_pattern timeout deadline poll) s1 = (s2, x) ->
               x <> Return None).
    { intros s1 s2 x Hc Hx. apply bind_inv in Hx.
      destruct Hx as [(s3 & [] & Hs & Hx) | (e & _ & ->)]; [| discriminate].
      apply sleep_clock in Hs; [| exact Hclock | lra].
      subst n. apply IH in Hx; [exact Hx |].
      rewrite Nat2Z.inj_succ in Hleft. unfold Z.succ in Hleft.
      rewrite inject_Z_plus in Hleft.
      change (inject_Z 1) with 1%Q in Hleft. lra. }
    apply bind_inv in H.
    destruct H as [(st1 & found & Hf & H) | (e & _ & ->)]; [| discriminate].
    apply find_window_clock in Hf; [| exact Hclock]. destruct Hf as [Hc _].
    destruct found as [h |].
    + destruct (h =? 0).
      * exact (Hnext _ _ _ Hc H).
      * apply bind_inv in H.
        destruct H as [(st2 & title & _ & H) | (e & _ & ->)];
          [| discriminate].
        inversion H. discriminate.
    + exact (Hnext _ _ _ Hc H).
Qed.

(** X15.  The wait comes to an end: when the clock never runs backwards
    and a sleep lasts at least as long as asked, a wait with a positive
    poll interval is over, with a window or with its [TimeoutError] (or
    the exception of a call), after at most [fuel + 1] passes of the loop
    for every [fuel] with [fuel * poll_interval] above the time-out. *)
Theorem wait_for_window_ends fuel title_pattern timeout poll st st' r :
  clock_advances -> (0 < poll)%Q ->
  (inject_Z (match timeout with
             | Some t => t
             | None => NOTEPAD_LAUNCH_TIMEOUT
             end) < inject_Z (Z.of_nat fuel) * poll)%Q ->
  wait_for_window (S fuel) title_pattern timeout poll st = (st', r) ->
  r <> Return None.
Proof.
  intros Hclock Hpoll Hfuel H. unfold wait_for_window in H.
  unfold bind at 1 in H. unfold now at 1 in H.
  apply wait_loop_ends in H; [exact H | exact Hclock | exact Hpoll |]. lra.
Qed.

End WaitForWindow.

Lemma wait_without_time_raises_at_once_witness :
  let st := @initial_state world_clock 0%Q in
  @wait_for_window world_clock (desktop_with [notepad_window])
                   launch_config_15 5 (txt "Notepad") (Some 0) (1 # 2) st
  = (st, Raise (Raised TimeoutError
                  "Window containing 'Notepad' not found within 15s")).
Proof.
  intros st.
  exact (proj1 (@wait_without_time_raises_at_once world_clock
                  (desktop_with [notepad_window]) launch_config_15
                  4 (txt "Notepad") 0 (1 # 2) st ltac:(lia))).
Defined.

Lemma waited_window_was_found_witness :
  let desk := desktop_with [notepad_window] in
  let st := @initial_state world_clock 0%Q in
  let out := @wait_for_window world_clock desk launch_config_15 5
               (txt "notepad") (Some 8) (1 # 2) st in
  snd out = Return (Some 4242) /\ 4242 <> 0.
Proof.
  intros desk st out.
  assert (H : out = (fst out, Return (Some 4242))).
  { vm_compute. reflexivity. }
  split; [rewrite H; reflexivity |].
  exact (proj1 (@waited_window_was_found world_clock desk launch_config_15 5
                  (txt "notepad") (Some 8) (1 # 2) st (fst out) 4242 H)).
Defined.

Lemma world_clock_advances windows :
  @clock_advances world_clock (desktop_with windows).
Proof.
  split.
  - intros d w _. cbn. apply Qle_refl.
  - intros A op w. cbn. apply Qle_refl.
Qed.

Lemma wait_for_window_ends_witness :
  let desk := desktop_with [] in
  let st := @initial_state world_clock 0%Q in
  let out := @wait_for_window world_clock desk launch_config_15 6
               (txt "Notepad") (Some 2) (1 # 2) st in
  snd out
  = Raise (Raised TimeoutError
             "Window containing 'Notepad' not found within 2s") /\
  snd out <> Return None.
Proof.
  intros desk st out. split; [vm_compute; reflexivity |].
  exact (@wait_for_window_ends world_clock desk launch_config_15 5
           (txt "Notepad") (Some 2) (1 # 2) st (fst out) (snd out)
           (world_clock_advances []) eq_refl eq_refl
           (surjective_pairing _)).
Defined.

(* ================================================================== *)
(** * Dismissing dialogs ([src/automation.py]) *)
(* ================================================================== *)

Section Dismissing.
Context {Sigma : World} {desk : Desktop} {lcfg : LaunchConfig}.

Lemma win_keeps_trace A (op : WinOp A) st st' (r : result A) :
  win op st = (st', r) ->
  trace st' = trace st /\ _grounding_disabled st' = _grounding_disabled st.
Proof.
  unfold win. destruct (handle_win op (world st)) as [w' x].
  intros H. inversion H; subst. split; reflexivity.
Qed.

Lemma adds_none_win p A (op : WinOp A) : respects (adds_none p) (win op).
Proof.
  intros st st' r H. apply win_keeps_trace in H. destruct H as [Ht _].
  unfold adds_none. rewrite Ht. reflexivity.
Qed.


Lemma quiet_presses A (m : M A) st st' r :
  respects (adds_none is_key_pressed) m ->
  m st = (st', r) -> key_presses st' = key_presses st.
Proof. intros Hm H. exact (Hm _ _ _ H). Qed.






End Dismissing.


(* ================================================================== *)
(** * Closing every Notepad window ([src/automation.py]) *)
(* ================================================================== *)

Section ClosingAll.
Context {Sigma : World} {desk : Desktop} {lcfg : LaunchConfig}.

Ltac quiet_win :=
  repeat respects_step;
  try (apply adds_none_refl);
  try (apply adds_none_trans);
  try (apply adds_none_win);
  try (apply adds_none_call; intros [? | ?]; reflexivity);
  try (apply adds_none_sleep; reflexivity).

Lemma dismiss_dialog_sends_no_alt_f4 pause dhwnd :
  respects (adds_none is_alt_f4) (dismiss_dialog pause dhwnd).
Proof. unfold dismiss_dialog. quiet_win. Qed.

Lemma dismiss_each_sends_no_alt_f4 pause :
  forall dialog_hwnds dismissed,
    respects (adds_none is_alt_f4) (dismiss_each pause dialog_hwnds dismissed).
Proof.
  induction dialog_hwnds as [| d rest IH]; intros dismissed;
    cbn [dismiss_each].
  - quiet_win.
  - quiet_win; [apply dismiss_dialog_sends_no_alt_f4 | apply IH].
Qed.

Lemma dismiss_rounds_sends_no_alt_f4 pause :
  forall rounds dismissed,
    respects (adds_none is_alt_f4) (dismiss_rounds rounds pause dismissed).
Proof.
  induction rounds as [| a rest IH]; intros dismissed; cbn [dismiss_rounds].
  - quiet_win.
  - apply respects_bind; [apply adds_none_trans | apply adds_none_win |].
    intros windows.
    destruct (map w_hwnd (filter is_dialog windows)) as [| d ds].
    + quiet_win.
    + apply respects_bind; [apply adds_none_trans | |].
      * apply dismiss_each_sends_no_alt_f4.
      * intros k. apply IH.
Qed.

Lemma find_window_keeps_trace title_pattern st st' r :
  _find_window_by_partial_title title_pattern st = (st', r) ->
  trace st' = trace st.
Proof.
  intros H. unfold _find_window_by_partial_title in H.
  apply bind_inv in H.
  destruct H as [(st1 & ws & H1 & H) | (e & H1 & _)];
    apply win_keeps_trace in H1; destruct H1 as [T _].
  - inversion H; subst. exact T.
  - exact T.
Qed.

Lemma focus_window_sends_no_alt_f4 h :
  respects (adds_none is_alt_f4) (focus_window h).
Proof. unfold focus_window. quiet_win. Qed.

Lemma dismiss_sends_no_alt_f4 max_dismissals pause :
  respects (adds_none is_alt_f4) (dismiss_notepad_dialogs max_dismissals pause).
Proof. apply dismiss_rounds_sends_no_alt_f4. Qed.

Lemma visible_check_sends_no_alt_f4 h (still : bool) :
  respects (adds_none is_alt_f4)
           (if still then win (IsWindowVisible h) else ret false).
Proof. quiet_win. Qed.

Lemma dont_save_sends_no_alt_f4 h (shown : bool) :
  respects (adds_none is_alt_f4)
    (if shown
     then try_except
            (focus_window h ;;
             call (Hotkey [key "alt"; key "n"]) ;;
             sleep (5 # 10))
            (fun _ => ret tt)
     else ret tt).
Proof. unfold focus_window. quiet_win. Qed.

Lemma alt_f4_counted st st' (r : result unit) :
  call (Hotkey [key "alt"; key "f4"]) st = (st', r) ->
  alt_f4_sent st' = S (alt_f4_sent st).
Proof.
  intros H. apply call_inv in H. destruct H as (Ht & _).
  unfold alt_f4_sent. rewrite Ht, count_cons. reflexivity.
Qed.

Ltac f4_quiet H1 :=
  first [ apply (@adds_none_sleep _ is_alt_f4) in H1; [| reflexivity]
        | apply (@adds_none_call _ is_alt_f4) in H1;
          [| intros [? | ?]; reflexivity]
        | apply (@adds_none_win _ _ is_alt_f4) in H1
        | apply focus_window_sends_no_alt_f4 in H1
        | apply dismiss_sends_no_alt_f4 in H1
        | apply visible_check_sends_no_alt_f4 in H1
        | apply dont_save_sends_no_alt_f4 in H1 ];
  unfold adds_none in H1;
  repeat match type of H1 with
         | context [count is_alt_f4 (trace ?s)] =>
             change (count is_alt_f4 (trace s)) with (alt_f4_sent s) in H1
         end.

Ltac f4_step H :=
  let s1 := fresh "s" in
  let a := fresh "a" in
  let e := fresh "e" in
  let H1 := fresh "Hq" in
  apply bind_inv in H;
  destruct H as [(s1 & a & H1 & H) | (e & H1 & ->)];
  [ f4_quiet H1 | f4_quiet H1; split; [lia | intros ? ?; discriminate] ].

(** Every round sends Alt+F4 once, and the rounds are counted in
    [closed]. *)
Lemma close_rounds_counts :
  forall rounds closed st st' r,
    close_rounds rounds closed st = (st', r) ->
    (alt_f4_sent st' <= alt_f4_sent st + List.length rounds)%nat /\
    (forall c, r = Return c ->
       c - closed = Z.of_nat (alt_f4_sent st') - Z.of_nat (alt_f4_sent st)).
Proof.
  induction rounds as [| x rest IH]; intros closed st st' r H.
  - inversion H; subst. split; [cbn; lia |].
    intros c Hc. inversion Hc; subst. lia.
  - cbn [close_rounds List.length] in H |- *.
    apply bind_inv in H.
    destruct H as [(s0 & found & Hf & H) | (e & Hf & ->)];
      apply find_window_keeps_trace in Hf.
    2:{ split; [| intros ? ?; discriminate].
        unfold alt_f4_sent. rewrite Hf. lia. }
    assert (K : alt_f4_sent s0 = alt_f4_sent st)
      by (unfold alt_f4_sent; congruence).
    destruct found as [h |].
    2:{ inversion H; subst. split; [lia |].
        intros c Hc. inversion Hc; subst. lia. }
    f4_step H. f4_step H. f4_step H.
    apply bind_inv in H.
    destruct H as [(s4 & [] & H4 & H) | (e & H4 & ->)];
      apply alt_f4_counted in H4.
    2:{ split; [lia | intros ? ?; discriminate]. }
    f4_step H. f4_step H. f4_step H. f4_step H. f4_step H. f4_step H.
    apply IH in H. destruct H as [I1 I2].
    split; [lia |]. intros c Hc. specialize (I2 c Hc). lia.
Qed.

(** X17.  [close_all_notepad_windows] sends Alt+F4 at most 20 times, also
    when a window never goes away; and when its first look finds no
    Notepad window it returns at once without any key or mouse action. *)
Theorem close_all_is_bounded st st' r :
  close_all_notepad_windows st = (st', r) ->
  (alt_f4_sent st' <= alt_f4_sent st + 20)%nat /\
  (forall s1,
      _find_window_by_partial_title (txt "Notepad") st = (s1, Return None) ->
      st' = s1 /\ r = Return tt /\ trace st' = trace st).
Proof.
  intros H. unfold close_all_notepad_windows in H. split.
  - apply bind_inv in H.
    destruct H as [(s1 & c & Hc & H) | (e & Hc & _)].
    + inversion H; subst. apply close_rounds_counts in Hc.
      rewrite range_length in Hc. exact (proj1 Hc).
    + apply close_rounds_counts in Hc.
      rewrite range_length in Hc. exact (proj1 Hc).
  - intros s1 Hf. rewrite range_cons in H by lia.
    cbn [close_rounds] in H.
    unfold bind at 1 in H. unfold bind at 1 in H. rewrite Hf in H.
    cbn [ret] in H. inversion H; subst.
    split; [reflexivity |]. split; [reflexivity |].
    exact (find_window_keeps_trace _ _ Hf).
Qed.

End ClosingAll.

(** A window that never closes gets all twenty rounds. *)
Lemma close_all_is_bounded_witness :
  let desk := desktop_with [notepad_window] in
  let st := @initial_state world_clock 0%Q in
  let out := @close_all_notepad_windows world_clock desk st in
  @alt_f4_sent world_clock (fst out) = 20%nat /\
  (@alt_f4_sent world_clock (fst out) <= @alt_f4_sent world_clock st + 20)%nat.
Proof.
  intros desk st out. split; [vm_compute; reflexivity |].
  exact (proj1 (@close_all_is_bounded world_clock desk st (fst out) (snd out)
                  (surjective_pairing _))).
Defined.

(* ================================================================== *)
(** * Names and labels of the annotated screenshots *)
(* ================================================================== *)

Section Annotation.

Lemma safe_char_idem c :
  (fun c => if is_alnum c then c else "_"%char)
    (if is_alnum c then c else "_"%char)
  = (if is_alnum c then c else "_"%char).
Proof. cbv beta. destruct (is_alnum c) eqn:E; [rewrite E |]; reflexivity. Qed.

Lemma safe_char_class c :
  is_alnum (if is_alnum c then c else "_"%char) = true \/
  (if is_alnum c then c else "_"%char) = "_"%char.
Proof. destruct (is_alnum c) eqn:E; [left; exact E | right; reflexivity]. Qed.

(** X18.  The part of an annotation's file name that comes from the
    description is safe in a file name: it has at most 30 characters (as
    many as the description has, up to 30), each of them alphanumeric or
    an underscore, so that it holds no path separator, dot, colon or white
    space; and sanitising twice changes nothing more. *)
Theorem safe_desc_is_filename_safe description :
  List.length (safe_desc description)
  = Nat.min 30 (List.length description) /\
  Forall (fun c => is_alnum c = true \/ c = "_"%char) (safe_desc description) /\
  (forall c, In c (safe_desc description) ->
             c <> "/"%char /\ c <> backslash /\ c <> "."%char /\
             c <> ":"%char /\ is_space c = false) /\
  safe_desc (safe_desc description) = safe_desc description.
Proof.
  assert (Hlen : List.length (safe_desc description)
                 = Nat.min 30 (List.length description)).
  { unfold safe_desc. rewrite length_map. apply length_firstn. }
  assert (Hall : Forall (fun c => is_alnum c = true \/ c = "_"%char)
                        (safe_desc description)).
  { unfold safe_desc. apply Forall_forall. intros c Hc.
    apply in_map_iff in Hc. destruct Hc as (c0 & <- & _).
    apply safe_char_class. }
  split; [exact Hlen |]. split; [exact Hall |]. split.
  - intros c Hc. rewrite Forall_forall in Hall.
    destruct (Hall c Hc) as [Ha | ->].
    + repeat split; try (intros ->; discriminate Ha).
      destruct c as [[] [] [] [] [] [] [] []]; try reflexivity;
        discriminate Ha.
    + repeat split; try discriminate. 
  - unfold safe_desc at 1. rewrite firstn_all2 by (rewrite Hlen; lia).
    unfold safe_desc. rewrite map_map. apply map_ext.
    intros c. apply safe_char_idem.
Qed.

Lemma firstn_covered A n (l suffix : list A) :
  (n <= List.length l)%nat -> firstn n (l ++ suffix) = firstn n l.
Proof.
  intros H. rewrite firstn_app.
  replace (n - List.length l)%nat with 0%nat by lia.
  cbn [firstn]. apply app_nil_r.
Qed.

(** X19.  For a description of 60 characters or more, the label drawn on
    the annotated image and the name of the image file do not depend on
    what is appended to the description: the attempt suffix that
    [ground_with_retry] adds is cut off. *)
Theorem long_description_hides_suffix x y description suffix suffix' :
  (60 <= List.length description)%nat ->
  annotation_label x y (description ++ suffix)
  = annotation_label x y (description ++ suffix') /\
  forall ts,
    annotation_filename ts (description ++ suffix)
    = annotation_filename ts (description ++ suffix').
Proof.
  intros H. split.
  - unfold annotation_label. rewrite !firstn_covered by exact H. reflexivity.
  - intros ts. unfold annotation_filename, safe_desc.
    rewrite !firstn_covered by lia. reflexivity.
Qed.

End Annotation.

Lemma long_description_hides_suffix_witness :
  let d := txt "Notepad application desktop shortcut icon with the label Notepad" in
  (60 <= List.length d)%nat /\
  annotation_label 960 540 (d ++ txt " [attempt 1]")
  = annotation_label 960 540 (d ++ txt " [attempt 2]").
Proof.
  intros d.
  assert (H : (60 <= List.length d)%nat) by (vm_compute; lia).
  split; [exact H |].
  exact (proj1 (@long_description_hides_suffix 960 540 d
                  (txt " [attempt 1]") (txt " [attempt 2]") H)).
Defined.

(* ================================================================== *)
(** * The choice of the backend *)
(* ================================================================== *)

Section BackendChoice.

Lemma text_eqb_eq a b : text_eqb a b = true <-> a = b.
Proof.
  unfold text_eqb. destruct (list_eq_dec ascii_dec a b); split;
    congruence.
Qed.

Lemma lowers_to_v c : lower_char c = "v"%char -> c = "v"%char \/ c = "V"%char.
Proof.
  destruct c as [[] [] [] [] [] [] [] []]; intros H;
    first [discriminate H | left; reflexivity | right; reflexivity].
Qed.

Lemma lowers_to_l c : lower_char c = "l"%char -> c = "l"%char \/ c = "L"%char.
Proof.
  destruct c as [[] [] [] [] [] [] [] []]; intros H;
    first [discriminate H | left; reflexivity | right; reflexivity].
Qed.

Lemma lowers_to_m c : lower_char c = "m"%char -> c = "m"%char \/ c = "M"%char.
Proof.
  destruct c as [[] [] [] [] [] [] [] []]; intros H;
    first [discriminate H | left; reflexivity | right; reflexivity].
Qed.

(** X20.  The engine uses the vLLM backend exactly when the setting is one
    of the sixteen spellings of "vllm" in upper and lower case; any other
    setting, the empty one and one with a blank around the word included,
    gives the local backend without a client being made; the casing of
    the setting never matters; and a setting that is not there at all is
    an error at construction. *)
Theorem backend_choice setting vllm_client :
  (lower setting = txt "vllm" <->
   exists a b c d,
     setting = [a; b; c; d] /\
     (a = "v" \/ a = "V")%char /\ (b = "l" \/ b = "L")%char /\
     (c = "l" \/ c = "L")%char /\ (d = "m" \/ d = "M")%char) /\
  (lower setting = txt "vllm" ->
   GroundingEngine__init__ (Some setting) vllm_client
   = rbind vllm_client (fun _ => Return {| _backend := VLLMBackend |})) /\
  (lower setting <> txt "vllm" ->
   GroundingEngine__init__ (Some setting) vllm_client
   = Return {| _backend := LocalBackend |}) /\
  GroundingEngine__init__ (Some (lower setting)) vllm_client
  = GroundingEngine__init__ (Some setting) vllm_client /\
  (exists e, GroundingEngine__init__ None vllm_client = Raise e).
Proof.
  split; [| split; [| split; [| split]]].
  - split.
    + intros H. destruct setting as [| a [| b [| c [| d [| x rest]]]]];
        try discriminate H.
      cbn in H. injection H as Ha Hb Hc Hd.
      exists a, b, c, d. split; [reflexivity |].
      split; [exact (lowers_to_v _ Ha) |]. split; [exact (lowers_to_l _ Hb) |].
      split; [exact (lowers_to_l _ Hc) | exact (lowers_to_m _ Hd)].
    + intros (a & b & c & d & -> & [-> | ->] & [-> | ->] & [-> | ->]
              & [-> | ->]); reflexivity.
  - intros H. unfold GroundingEngine__init__. rewrite H. reflexivity.
  - intros H. unfold GroundingEngine__init__.
    destruct (text_eqb (lower setting) (txt "vllm")) eqn:E; [| reflexivity].
    apply text_eqb_eq in E. contradiction.
  - unfold GroundingEngine__init__. rewrite lower_idem. reflexivity.
  - eexists. reflexivity.
Qed.

End BackendChoice.

(* ================================================================== *)
(** * How far the pixel is from the exact floor *)
(* ================================================================== *)

Section PixelError.

Lemma rhe_error a b :
  0 < b -> 2 * Z.abs (round_half_even a b * b - a) <= b.
Proof.
  intros Hb. unfold round_half_even.
  pose proof (Z.div_mod a b ltac:(lia)) as Hab.
  pose proof (Z.mod_pos_bound a b Hb) as Hr.
  destruct (Z.compare_spec (2 * (a mod b)) b) as [E | E | E].
  - destruct (Z.even (a / b)); nia.
  - nia.
  - nia.
Qed.

Lemma rhe_unit a : round_half_even a 1 = a.
Proof.
  unfold round_half_even. rewrite Z.mod_1_r, Z.div_1_r. reflexivity.
Qed.

Lemma floor_log2_ratio_unit dim :
  0 < dim -> floor_log2_ratio dim 1 = Z.log2 dim.
Proof.
  intros H. unfold floor_log2_ratio. change (Z.log2 1) with 0.
  rewrite Z.sub_0_r. pose proof (Z.log2_nonneg dim) as Hl.
  pose proof (Z.log2_spec dim H) as [H1 _].
  destruct (Z.leb_spec 0 (Z.log2 dim)) as [_ | ?]; [| lia].
  destruct (Z.leb_spec (1 * 2 ^ Z.log2 dim) dim) as [_ | ?]; [reflexivity | lia].
Qed.

(** [float(dim)] is exact for a screen dimension. *)
Lemma float_of_int_exact dim :
  1 <= dim < 2 ^ 32 ->
  exists s, 21 <= s /\
            float_of_int dim = Return (Finite (dim * 2 ^ s) (- s)).
Proof.
  intros [H1 H2]. exists (52 - Z.log2 dim).
  assert (Hl : Z.log2 dim < 32) by (apply Z.log2_lt_pow2; lia).
  pose proof (Z.log2_nonneg dim) as Hl0.
  split; [lia |].
  unfold float_of_int, round_ratio.
  destruct dim as [| p | p]; [lia | | lia].
  unfold round_pos. rewrite floor_log2_ratio_unit by lia.
  replace (Z.max (Z.log2 (Z.pos p) - 52) (-1074))
    with (- (52 - Z.log2 (Z.pos p))) by lia.
  destruct (Z.leb_spec 0 (- (52 - Z.log2 (Z.pos p)))) as [? | _]; [lia |].
  cbn [andb]. rewrite Z.opp_involutive, rhe_unit. reflexivity.
Qed.

(** Rounding a ratio below [2^32]: the result is within half of its last
    place, which is at most [2^-21]. *)
Lemma round_pos_close P Q :
  0 < P -> 0 < Q -> P < Q * 2 ^ 32 ->
  exists m t,
    round_pos P Q = Finite m (- t) /\ 21 <= t /\ 0 <= m /\
    2 * Z.abs (m * Q - P * 2 ^ t) <= Q.
Proof.
  intros HP HQ Hlt.
  destruct (@floor_log2_ratio_spec P Q HP HQ) as [_ HE].
  set (E := floor_log2_ratio P Q) in *.
  assert (HE32 : E < 32).
  { destruct (Z.lt_ge_cases E 32) as [? | Hge]; [assumption | exfalso].
    specialize (HE ltac:(lia)).
    assert (2 ^ 32 <= 2 ^ E) by (apply Z.pow_le_mono_r; lia).
    nia. }
  set (e := Z.max (E - 52) (-1074)).
  exists (round_half_even (P * 2 ^ (- e)) Q), (- e).
  assert (He : e < 0) by lia.
  split.
  - unfold round_pos. fold E. fold e.
    destruct (Z.leb_spec 0 e) as [? | _]; [lia |].
    cbn [andb]. rewrite Z.opp_involutive. reflexivity.
  - split; [lia |]. split.
    + destruct (@rhe_bounds (P * 2 ^ (- e)) Q HQ) as [[Hlo _] _].
      assert (0 <= P * 2 ^ (- e) / Q); [| lia].
      apply Z.div_pos; [| lia].
      apply Z.mul_nonneg_nonneg; [lia | apply Z.pow_nonneg; lia].
    + apply rhe_error. exact HQ.
Qed.

(** The integer side of the estimate: [mq / A] is the rounded quotient,
    [m / T] the rounded product. *)
Lemma floor_or_one_less n dim mq A m T :
  1 <= dim -> 0 <= n -> 2000 * dim <= A -> 2001 <= T ->
  2 * Z.abs (mq * 1000 - n * A) <= 1000 ->
  2 * Z.abs (m * A - mq * dim * T) <= A ->
  m / T = n * dim / 1000 \/
  (m / T = n * dim / 1000 - 1 /\ (n * dim) mod 1000 = 0).
Proof.
  intros Hdim Hn HA HT H1 H2.
  set (N := n * dim).
  set (d1 := mq * 1000 - n * A) in *.
  set (d2 := m * A - mq * dim * T) in *.
  assert (Hsplit : (1000 * m - N * T) * A = 1000 * d2 + dim * T * d1).
  { unfold d1, d2, N. ring. }
  assert (Hd1 : - 500 <= d1 <= 500) by lia.
  assert (Hd2 : - A <= 2 * d2 <= A) by lia.
  assert (HdT : 0 <= dim * T) by nia.
  assert (Hp1 : - (500 * (dim * T)) <= dim * T * d1 <= 500 * (dim * T)) by nia.
  assert (Hsmall : 1000 * (dim * T) + 1000 * A < A * T) by nia.
  set (Y := 1000 * m - N * T) in *.
  assert (HY : - T < 2 * Y < T) by nia.
  pose proof (Z.div_mod N 1000 ltac:(lia)) as HN.
  pose proof (Z.mod_pos_bound N 1000 ltac:(lia)) as Hj.
  set (k := N / 1000) in *. set (j := N mod 1000) in *.
  assert (Hm : 1000 * (m - k * T) = Y + j * T) by (unfold Y; nia).
  destruct (Z.eq_dec j 0) as [Hj0 | Hj0].
  - destruct (Z.lt_ge_cases m (k * T)) as [Hlt | Hge].
    + right. split; [| exact Hj0]. symmetry.
      apply Z.div_unique_pos with (r := m - (k - 1) * T); nia.
    + left. symmetry.
      apply Z.div_unique_pos with (r := m - k * T); nia.
  - left. symmetry.
    apply Z.div_unique_pos with (r := m - k * T); nia.
Qed.

Lemma quotient_close_all n : 1 <= n < 1000 -> quotient_close n = true.
Proof.
  intros Hn.
  assert (H : ((n =? 0) || quotient_close n) = true).
  { apply (forallb_range (fun z => (z =? 0) || quotient_close z) 1000);
      [vm_compute; reflexivity | lia]. }
  destruct (Z.eqb_spec n 0); [lia | exact H].
Qed.

Lemma scale_zero dim : 1 <= dim < 2 ^ 32 -> scale dim 0 = Return 0.
Proof.
  intros H. destruct (float_of_int_exact H) as (s & Hs & Hd).
  unfold scale. change (py_truediv 0 1000) with (Return (Finite 0 0)).
  cbn [rbind]. rewrite Hd. cbn [rbind fmul].
  unfold round_dyadic. rewrite Z.mul_0_l.
  destruct (0 <=? 0 + - s); reflexivity.
Qed.

Lemma scale_close dim n :
  1 <= n < 1000 -> 1 <= dim < 2 ^ 32 ->
  exists p,
    scale dim n = Return p /\
    (p = n * dim / 1000 \/
     (p = n * dim / 1000 - 1 /\ (n * dim) mod 1000 = 0)).
Proof.
  intros Hn Hdim.
  pose proof (quotient_close_all Hn) as Hq. unfold quotient_close in Hq.
  destruct (py_truediv n 1000) as [[mq eq | b |] | e] eqn:Eq;
    try discriminate Hq.
  apply andb_prop in Hq. destruct Hq as [Hq H3].
  apply andb_prop in Hq. destruct Hq as [H1 H2].
  apply Z.leb_le in H1. apply Z.ltb_lt in H2. apply Z.leb_le in H3.
  destruct (float_of_int_exact Hdim) as (s & Hs & Hd).
  unfold scale. rewrite Eq. cbn [rbind]. rewrite Hd. cbn [rbind fmul].
  set (a := - eq) in *. assert (Ha : 53 <= a) by lia.
  replace eq with (- a) by lia.
  assert (HpA : 2 ^ 53 <= 2 ^ a) by (apply Z.pow_le_mono_r; lia).
  assert (HpS : 0 < 2 ^ s) by (apply Z.pow_pos_nonneg; lia).
  assert (HnA : n * 2 ^ a <= 999 * 2 ^ a)
    by (apply Z.mul_le_mono_nonneg_r; lia).
  assert (HmqA : mq < 2 ^ a) by lia.
  unfold round_dyadic.
  destruct (Z.leb_spec 0 (- a + - s)) as [? | _]; [lia |].
  replace (- (- a + - s)) with (a + s) by lia.
  rewrite Z.pow_add_r by lia.
  assert (HP : 0 < mq * (dim * 2 ^ s)) by nia.
  assert (HQ : 0 < 2 ^ a * 2 ^ s) by nia.
  assert (Hlt : mq * (dim * 2 ^ s) < 2 ^ a * 2 ^ s * 2 ^ 32).
  { assert (H0 : mq * dim < 2 ^ a * 2 ^ 32)
      by (apply Z.mul_lt_mono_nonneg; lia).
    replace (mq * (dim * 2 ^ s)) with (mq * dim * 2 ^ s) by ring.
    replace (2 ^ a * 2 ^ s * 2 ^ 32) with (2 ^ a * 2 ^ 32 * 2 ^ s) by ring.
    apply Z.mul_lt_mono_pos_r; assumption. }
  destruct (round_pos_close HP HQ Hlt) as (m & t & Hr & Ht & Hm & Herr).
  unfold round_ratio.
  destruct (mq * (dim * 2 ^ s)) as [| P | P] eqn:EP; [lia | | lia].
  rewrite Hr. cbn [py_int].
  destruct (Z.leb_spec 0 (- t)) as [? | _]; [lia |].
  rewrite Z.opp_involutive.
  assert (HT : 2 ^ 21 <= 2 ^ t) by (apply Z.pow_le_mono_r; lia).
  rewrite Z.quot_div_nonneg by lia.
  eexists. split; [reflexivity |].
  apply floor_or_one_less with (mq := mq) (A := 2 ^ a); try lia.
  rewrite <- EP in Herr.
  assert (Hfact : m * (2 ^ a * 2 ^ s) - mq * (dim * 2 ^ s) * 2 ^ t
                  = (m * 2 ^ a - mq * dim * 2 ^ t) * 2 ^ s) by ring.
  rewrite Hfact in Herr. rewrite Z.abs_mul in Herr.
  rewrite (Z.abs_eq (2 ^ s)) in Herr by lia.
  nia.
Qed.

Lemma scale_on_screen dim n :
  0 <= n < 1000 -> 1 <= dim < 2 ^ 32 ->
  exists p,
    scale dim n = Return p /\ 0 <= p < dim /\
    (p = n * dim / 1000 \/
     (p = n * dim / 1000 - 1 /\ (n * dim) mod 1000 = 0)).
Proof.
  intros Hn Hdim.
  destruct (Z.eq_dec n 0) as [-> | Hn0].
  - exists 0. split; [exact (scale_zero Hdim) |]. split; [lia |].
    left. reflexivity.
  - destruct (@scale_close dim n ltac:(lia) Hdim) as (p & Hp & Hfl).
    exists p. split; [exact Hp |]. split; [| exact Hfl].
    assert (Hup : n * dim / 1000 < dim)
      by (apply Z.div_lt_upper_bound; nia).
    assert (Hlo : 0 <= n * dim / 1000) by (apply Z.div_pos; nia).
    destruct Hfl as [-> | [-> Hmod]]; [lia |].
    pose proof (Z.div_mod (n * dim) 1000 ltac:(lia)) as Hdm.
    rewrite Hmod in Hdm. nia.
Qed.

(** X21.  On a screen of fewer than [2^32] pixels a side, a normalised
    point in [[0, 1000)] is mapped without error to a pixel on the screen,
    and each pixel coordinate is the exact floor of [n / 1000 * dimension]
    or one less; it is one less only when [n * dimension] is a multiple
    of 1000, that is, when the exact value is a whole number. *)
Theorem pixel_is_floor_or_one_less {cfg : Config} nx ny :
  1 <= SCREEN_WIDTH < 2 ^ 32 -> 1 <= SCREEN_HEIGHT < 2 ^ 32 ->
  0 <= nx < 1000 -> 0 <= ny < 1000 ->
  exists px py,
    _norm_to_pixels nx ny = Return (px, py) /\
    (0 <= px < SCREEN_WIDTH /\ 0 <= py < SCREEN_HEIGHT) /\
    (px = nx * SCREEN_WIDTH / 1000 \/
     (px = nx * SCREEN_WIDTH / 1000 - 1 /\
      (nx * SCREEN_WIDTH) mod 1000 = 0)) /\
    (py = ny * SCREEN_HEIGHT / 1000 \/
     (py = ny * SCREEN_HEIGHT / 1000 - 1 /\
      (ny * SCREEN_HEIGHT) mod 1000 = 0)).
Proof.
  intros Hw Hh Hx Hy.
  destruct (scale_on_screen Hx Hw) as (px & Ex & Bx & Fx).
  destruct (scale_on_screen Hy Hh) as (py & Ey & By & Fy).
  exists px, py. unfold _norm_to_pixels. rewrite Ex, Ey.
  split; [reflexivity |]. split; [split; assumption |].
  split; assumption.
Qed.

End PixelError.

(** At 1280 by 720 the point (500, 175) lands one pixel above the exact
    row 126: its exact value is a whole number. *)
Lemma pixel_is_floor_or_one_less_witness :
  @_norm_to_pixels config_720p 500 175 = Return (640, 125) /\
  exists px py,
    @_norm_to_pixels config_720p 500 175 = Return (px, py) /\
    (0 <= px < 1280 /\ 0 <= py < 720) /\
    (px = 500 * 1280 / 1000 \/
     (px = 500 * 1280 / 1000 - 1 /\ (500 * 1280) mod 1000 = 0)) /\
    (py = 175 * 720 / 1000 \/
     (py = 175 * 720 / 1000 - 1 /\ (175 * 720) mod 1000 = 0)).
Proof.
  split; [vm_compute; reflexivity |].
  exact (@pixel_is_floor_or_one_less config_720p 500 175
           ltac:(cbn; lia) ltac:(cbn; lia) ltac:(lia) ltac:(lia)).
Defined.

(* ================================================================== *)
(** * An item is successful only if Notepad could be closed *)
(* ================================================================== *)

Section ItemOutcome.
Context {Sigma : World} {cfg : Config}.

(** X22.  An item whose file was saved and verified on disk is still
    recorded as failed when closing Notepad raises afterwards: the result
    is only appended after [close_notepad], so the exception of the close
    becomes the item's reason although the file is there. *)
Theorem close_failure_fails_saved_item
        engine post st st1 st2 st3 st4 hwnd e :
  launch_notepad engine st = (st1, Return hwnd) ->
  type_post_content post st1 = (st2, Return tt) ->
  save_post post TARGET_DIR st2 = (st3, Return true) ->
  close_notepad (Some hwnd) st3 = (st4, Raise e) ->
  file_nonempty (world st3) (os_path_join TARGET_DIR (post_filename post)) /\
  exists st',
    process_post engine post st
    = (st', Return {| result_id := post_id post;
                      status := error (Because e) |}).
Proof.
  intros Hl Ht Hs Hc. split.
  - apply (save_post_checks_disk _ _ _ Hs). reflexivity.
  - assert (Htry : item_try engine post st = (st4, Raise e)).
    { unfold item_try. erewrite bind_Return by exact Hl.
      erewrite bind_Return by exact Ht. erewrite bind_Return by exact Hs.
      erewrite bind_Raise by exact Hc. reflexivity. }
    assert (Hex : try_except (item_try engine post) (item_except post) st
                  = (st4, Return {| result_id := post_id post;
                                    status := error (Because e) |})).
    { unfold try_except. rewrite Htry. apply item_except_result. }
    unfold process_post. erewrite bind_Return by exact Hex. cbn [is_ok status].
    destruct (best_effort_close_returns st4) as (st5 & H5).
    erewrite bind_Return by exact H5. exists st5. reflexivity.
Qed.

End ItemOutcome.

Lemma close_failure_fails_saved_item_witness :
  let st := @initial_state world_close_fails 0%nat in
  let out := @process_post world_close_fails config_1080p engine0 post1 st in
  exists w3,
    @file_nonempty world_close_fails w3
      (@os_path_join world_close_fails (@TARGET_DIR config_1080p)
         (post_filename post1)) /\
    snd out = Return {| result_id := 1; status := error (Because fail_safe) |}.
Proof.
  intros st out.
  pose (o1 := @launch_notepad world_close_fails config_1080p engine0 st).
  pose (o2 := @type_post_content world_close_fails config_1080p post1 (fst o1)).
  pose (o3 := @save_post world_close_fails post1 (@TARGET_DIR config_1080p)
                (fst o2)).
  pose (o4 := @close_notepad world_close_fails (Some 4242) (fst o3)).
  assert (H1 : o1 = (fst o1, Return 4242)) by (vm_compute; reflexivity).
  assert (H2 : o2 = (fst o2, Return tt)) by (vm_compute; reflexivity).
  assert (H3 : o3 = (fst o3, Return true)) by (vm_compute; reflexivity).
  assert (H4 : o4 = (fst o4, Raise fail_safe)) by (vm_compute; reflexivity).
  destruct (@close_failure_fails_saved_item world_close_fails config_1080p
              engine0 post1 st (fst o1) (fst o2) (fst o3) (fst o4) 4242
              fail_safe H1 H2 H3 H4) as (Hf & st' & Hp).
  exists (@world world_close_fails (fst o3)). split; [exact Hf |].
  unfold out. rewrite Hp. reflexivity.
Defined.
